(** * A light-ray puzzle: geometry, cells, ray tracer and win state

    Shallow embedding of the ray-tracing half of [shooter.js] (the functions
    [dot], [reflect], [refract], [getLineSegmentIntersection], the cell
    classes, [trackRays], the [Game] methods that drive the gauge and the
    pointer handlers that turn the mirrors, and the level data).

    JavaScript numbers are modelled by [num]: a real number, one of the two
    infinities, or NaN.  Arithmetic on finite values is exact real arithmetic
    (no rounding, a single zero); everything that JavaScript answers with an
    infinity or with NaN (a division by zero, [Math.sqrt] of a negative
    number, [Math.min()] of nothing, arithmetic on [undefined]) is answered
    the same way here.

    The code computes on binary64 numbers.  The functions whose results the
    properties compare to the last digit ([dot], [reflect], [refract], the
    step of [trackRays] to the next grid line) are therefore given a second
    time in the module [Double], on binary64 numbers with their rounding,
    overflow and underflow; the properties stated on the exact model keep to
    inputs and conclusions on which the two agree, and [Double] shows by
    evaluation where they part. *)

From Stdlib Require Import Floats.
From Stdlib Require Import Reals Lra Lia ZArith List Bool String.
Import ListNotations.

Open Scope R_scope.

(** ** Numbers *)

(** Comparisons of real numbers as booleans. *)
Definition Rltb (a b : R) : bool := if Rlt_dec a b then true else false.
Definition Rleb (a b : R) : bool := if Rle_dec a b then true else false.
Definition Reqb (a b : R) : bool := if Req_dec_T a b then true else false.

(** A JavaScript number. *)
Inductive num : Type :=
| Fin (r : R)
| PInf
| NInf
| NaN.

(** The arithmetic and comparison operators and the functions of [Math]. *)
Module Num.

(** The infinity (or NaN) that a non-finite product or quotient takes from
    the sign of its finite operand. *)
Definition inf_of_sign (r : R) : num :=
  if Rltb 0 r then PInf else if Rltb r 0 then NInf else NaN.

Definition neg (x : num) : num :=
  match x with
  | Fin r => Fin (- r)
  | PInf => NInf
  | NInf => PInf
  | NaN => NaN
  end.

Definition add (x y : num) : num :=
  match x, y with
  | Fin a, Fin b => Fin (a + b)
  | NaN, _ | _, NaN => NaN
  | PInf, NInf | NInf, PInf => NaN
  | PInf, _ | _, PInf => PInf
  | NInf, _ | _, NInf => NInf
  end.

Definition sub (x y : num) : num :=
  match x, y with
  | Fin a, Fin b => Fin (a - b)
  | _, _ => add x (neg y)
  end.

Definition mul (x y : num) : num :=
  match x, y with
  | Fin a, Fin b => Fin (a * b)
  | NaN, _ | _, NaN => NaN
  | Fin a, PInf | PInf, Fin a => inf_of_sign a
  | Fin a, NInf | NInf, Fin a => inf_of_sign (- a)
  | PInf, PInf | NInf, NInf => PInf
  | PInf, NInf | NInf, PInf => NInf
  end.

Definition div (x y : num) : num :=
  match x, y with
  | Fin a, Fin b => if Reqb b 0 then inf_of_sign a else Fin (a / b)
  | NaN, _ | _, NaN => NaN
  | Fin _, _ => Fin 0
  | PInf, Fin b => if Rltb b 0 then NInf else PInf
  | NInf, Fin b => if Rltb b 0 then PInf else NInf
  | _, _ => NaN
  end.

(** [<], [<=], [>], [>=]: false as soon as one side is NaN. *)
Definition lt (x y : num) : bool :=
  match x, y with
  | Fin a, Fin b => Rltb a b
  | NaN, _ | _, NaN => false
  | _, NInf => false
  | PInf, _ => false
  | _, _ => true
  end.

Definition le (x y : num) : bool :=
  match x, y with
  | Fin a, Fin b => Rleb a b
  | NaN, _ | _, NaN => false
  | NInf, _ => true
  | _, PInf => true
  | _, _ => false
  end.

Definition gt (x y : num) : bool := lt y x.
Definition ge (x y : num) : bool := le y x.

(** [===] and [!==] on numbers. *)
Definition eq (x y : num) : bool :=
  match x, y with
  | Fin a, Fin b => Reqb a b
  | PInf, PInf | NInf, NInf => true
  | _, _ => false
  end.

Definition neq (x y : num) : bool := negb (eq x y).

(** A number used as a condition: 0 and NaN are falsy. *)
Definition truthy (x : num) : bool :=
  match x with
  | Fin r => negb (Reqb r 0)
  | NaN => false
  | _ => true
  end.

Definition abs (x : num) : num :=
  match x with
  | Fin r => Fin (Rabs r)
  | NaN => NaN
  | _ => PInf
  end.

Definition sign (x : num) : num :=
  match x with
  | Fin r => if Rltb 0 r then Fin 1 else if Rltb r 0 then Fin (-1) else Fin 0
  | PInf => Fin 1
  | NInf => Fin (-1)
  | NaN => NaN
  end.

Definition sqrt (x : num) : num :=
  match x with
  | Fin r => if Rltb r 0 then NaN else Fin (R_sqrt.sqrt r)
  | PInf => PInf
  | _ => NaN
  end.

Definition cos (x : num) : num :=
  match x with Fin r => Fin (Rtrigo_def.cos r) | _ => NaN end.

Definition sin (x : num) : num :=
  match x with Fin r => Fin (Rtrigo_def.sin r) | _ => NaN end.

Definition min (x y : num) : num :=
  match x, y with
  | NaN, _ | _, NaN => NaN
  | _, _ => if lt y x then y else x
  end.

Definition max (x y : num) : num :=
  match x, y with
  | NaN, _ | _, NaN => NaN
  | _, _ => if lt x y then y else x
  end.

(** [Math.min(...ts)]: [Infinity] for no argument. *)
Definition min_list (ts : list num) : num := fold_right min PInf ts.

Definition PI : num := Fin Rtrigo1.PI.

End Num.

Declare Scope num_scope.
Delimit Scope num_scope with num.
Bind Scope num_scope with num.
Infix "+" := Num.add : num_scope.
Infix "-" := Num.sub : num_scope.
Infix "*" := Num.mul : num_scope.
Infix "/" := Num.div : num_scope.
Notation "- x" := (Num.neg x) : num_scope.
Infix "<?" := Num.lt (at level 70) : num_scope.
Infix "<=?" := Num.le (at level 70) : num_scope.
Infix ">?" := Num.gt (at level 70) : num_scope.
Infix ">=?" := Num.ge (at level 70) : num_scope.
Infix "===" := Num.eq (at level 70) : num_scope.
Infix "!==" := Num.neq (at level 70) : num_scope.

(** ** Geometry utilities *)

Definition vec : Type := (num * num)%type.

Definition dot (v1 v2 : vec) : num :=
  (fst v1 * fst v2 + snd v1 * snd v2)%num.

Definition reflect (incidentVec normalVec : vec) : vec :=
  let d := dot incidentVec normalVec in
  ((fst incidentVec - Fin 2 * d * fst normalVec)%num,
   (snd incidentVec - Fin 2 * d * snd normalVec)%num).

Definition refract (incidentVec normalVec : vec) (n1 n2 : num) : vec * bool :=
  let n_ratio := (n1 / n2)%num in
  let cos_i := (- dot normalVec incidentVec)%num in
  let sin_t2 := (n_ratio * n_ratio * (Fin 1 - cos_i * cos_i))%num in
  if (sin_t2 >? Fin 1)%num then (reflect incidentVec normalVec, true)
  else
    let cos_t := Num.sqrt (Fin 1 - sin_t2) in
    let term1_x := (n_ratio * fst incidentVec)%num in
    let term1_y := (n_ratio * snd incidentVec)%num in
    let term2_x := ((n_ratio * cos_i - cos_t) * fst normalVec)%num in
    let term2_y := ((n_ratio * cos_i - cos_t) * snd normalVec)%num in
    (((term1_x + term2_x)%num, (term1_y + term2_y)%num), false).

Definition getLineSegmentIntersection (rayStart rayDir p1 p2 : vec) : option vec :=
  let v1 := ((fst rayStart - fst p1)%num, (snd rayStart - snd p1)%num) in
  let v2 := ((fst p2 - fst p1)%num, (snd p2 - snd p1)%num) in
  let v3 := ((- snd rayDir)%num, fst rayDir) in
  let dot_v2_v3 := dot v2 v3 in
  if (Num.abs dot_v2_v3 <? Fin 1e-9)%num then None
  else
    let t1 := ((fst v2 * snd v1 - snd v2 * fst v1) / dot_v2_v3)%num in
    let t2 := (dot v1 v3 / dot_v2_v3)%num in
    if (t1 >=? Fin 0)%num && (t2 >=? Fin 0)%num && (t2 <=? Fin 1)%num
    then Some ((fst rayStart + t1 * fst rayDir)%num,
               (snd rayStart + t1 * snd rayDir)%num)
    else None.

(** ** Cell model *)

(** A ray segment [{start, direction}] in cell-local coordinates. *)
Record Segment : Type := mkSegment {
  seg_start : vec;
  seg_direction : vec
}.

(** A beam colour is a string, or [None] for a beam whose [color] property is
    unset ([undefined]). *)
Definition Color : Type := option string.

(** [color === this.color], the right-hand side being a string. *)
Definition color_strict_eq (color : Color) (own : string) : bool :=
  match color with
  | Some c => String.eqb c own
  | None => false
  end.

(** A string used as a condition: the empty string and [undefined] are
    falsy. *)
Definition string_truthy (s : option string) : bool :=
  match s with
  | Some EmptyString => false
  | Some _ => true
  | None => false
  end.

(** The cell classes.  [TargetCell] and [CrossCell] extend [BlockCell]; the
    colour they inherit is read by [draw] only and is left out.  A target's
    [receive] property is unset until the first write. *)
Inductive Cell : Type :=
| EmptyCell
| BlockCell (color : string)
| TargetCell (receive : option bool)
| CrossCell (rotation width : num)
| GlassBlockCell (refractiveIndices : list (string * num))
| FixedMirrorCell
| RotatableMirrorCell (rotation : num).

(** Constructors with their default arguments ([None]: argument not given). *)
Definition new_BlockCell (color : option string) : Cell :=
  BlockCell (match color with Some c => c | None => "black"%string end).

Definition new_TargetCell : Cell := TargetCell None.

Definition new_CrossCell (rotation width : option num) : Cell :=
  CrossCell (match rotation with Some r => r | None => Fin 0 end)
            (match width with Some w => w | None => (Num.PI / Fin 16)%num end).

Definition default_refractiveIndices : list (string * num) :=
  [("red"%string, Fin 1.5); ("yellow"%string, Fin 1.6); ("blue"%string, Fin 2)].

Definition new_GlassBlockCell (refractiveIndices : option (list (string * num))) : Cell :=
  GlassBlockCell (match refractiveIndices with
                  | Some m => m
                  | None => default_refractiveIndices
                  end).

Definition new_RotatableMirrorCell (rotation : option num) : Cell :=
  RotatableMirrorCell (match rotation with Some r => r | None => Fin 0 end).

(** [obj[key]] on an object used as a map; an [undefined] key reads the
    property named "undefined". *)
Fixpoint get_property (obj : list (string * num)) (key : string) : option num :=
  match obj with
  | [] => None
  | (k, v) :: rest => if String.eqb k key then Some v else get_property rest key
  end.

Definition property_key (color : Color) : string :=
  match color with
  | Some c => c
  | None => "undefined"%string
  end.

(** An [undefined] operand of an arithmetic operator is NaN. *)
Definition to_number (v : option num) : num :=
  match v with
  | Some n => n
  | None => NaN
  end.

Definition BaseCell_interact : list Segment * bool := ([], false).

Definition BlockCell_interact (own : string) (start direction : vec) (color : Color)
  : list Segment * bool :=
  if color_strict_eq color own then ([], false)
  else ([mkSegment start direction], true).

Definition TargetCell_interact (start direction : vec) : list Segment * bool :=
  ([mkSegment start direction], true).

Definition CrossCell_interact (rotation width : num) (start direction : vec)
  : list Segment * bool :=
  let perpendicular_dist :=
    (fst start * snd direction - snd start * fst direction)%num in
  if (Num.abs perpendicular_dist >? Fin 0.5)%num then ([], false)
  else
    let angle := rotation in
    let cos := Num.cos angle in
    let sin := Num.sin angle in
    let rs := ((fst start * cos - snd start * (- sin))%num,
               (fst start * (- sin) + snd start * cos)%num) in
    let rd := ((fst direction * cos - snd direction * (- sin))%num,
               (fst direction * (- sin) + snd direction * cos)%num) in
    let sin_w := Num.sin width in
    let cos_w := Num.cos width in
    let b := dot rs rd in
    let c := (dot rs rs - Fin 0.25)%num in
    let discriminant := (b * b - c)%num in
    if (discriminant >=? Fin 0)%num then
      let t1 := (- b - Num.sqrt discriminant)%num in
      let t2 := (- b + Num.sqrt discriminant)%num in
      let h1 := ((fst rs + t1 * fst rd)%num, (snd rs + t1 * snd rd)%num) in
      let h2 := ((fst rs + t2 * fst rd)%num, (snd rs + t2 * snd rd)%num) in
      if ((Fin (-0.5) * sin_w <? fst h1) && (fst h1 <? Fin 0.5 * sin_w)
          && (Fin (-0.5) * sin_w <? fst h2) && (fst h2 <? Fin 0.5 * sin_w))%num
      then ([], false)
      else if ((Fin (-0.5) * sin_w <? snd h1) && (snd h1 <? Fin 0.5 * sin_w)
          && (Fin (-0.5) * sin_w <? snd h2) && (snd h2 <? Fin 0.5 * sin_w))%num
      then ([], false)
      else
        let rh :=
          if ((Fin (-0.5) * sin_w <? fst h1) && (fst h1 <? Fin 0.5 * sin_w)
              || (Fin (-0.5) * sin_w <? snd h1) && (snd h1 <? Fin 0.5 * sin_w))%num
          then
            let valid_ts_x :=
              if (Num.abs (fst rd) >? Fin 1e-9)%num then
                let t_pos := ((Fin 0.5 * sin_w - fst rs) / fst rd)%num in
                let y_pos := (snd rs + t_pos * snd rd)%num in
                let t_neg := ((Fin (-0.5) * sin_w - fst rs) / fst rd)%num in
                let y_neg := (snd rs + t_neg * snd rd)%num in
                (if ((t_pos >? Fin 1e-9) && (Num.abs y_pos <=? Fin 0.5 * cos_w)
                     && (Num.abs y_pos >=? Fin 0.5 * sin_w))%num
                 then [t_pos] else [])
                ++
                (if ((t_neg >? Fin 1e-9) && (Num.abs y_neg <=? Fin 0.5 * cos_w)
                     && (Num.abs y_neg >=? Fin 0.5 * sin_w))%num
                 then [t_neg] else [])
              else [] in
            let valid_ts_y :=
              if (Num.abs (snd rd) >? Fin 1e-9)%num then
                let t_pos := ((Fin 0.5 * sin_w - snd rs) / snd rd)%num in
                let x_pos := (fst rs + t_pos * fst rd)%num in
                let t_neg := ((Fin (-0.5) * sin_w - snd rs) / snd rd)%num in
                let x_neg := (fst rs + t_neg * fst rd)%num in
                (if ((t_pos >? Fin 1e-9) && (Num.abs x_pos <=? Fin 0.5 * cos_w)
                     && (Num.abs x_pos >=? Fin 0.5 * sin_w))%num
                 then [t_pos] else [])
                ++
                (if ((t_neg >? Fin 1e-9) && (Num.abs x_neg <=? Fin 0.5 * cos_w)
                     && (Num.abs x_neg >=? Fin 0.5 * sin_w))%num
                 then [t_neg] else [])
              else [] in
            let valid_ts := valid_ts_x ++ valid_ts_y in
            let t_hit := Num.min_list valid_ts in
            ((fst rs + t_hit * fst rd)%num, (snd rs + t_hit * snd rd)%num)
          else h1 in
        let hit := ((fst rh * cos - snd rh * sin)%num,
                    (fst rh * sin + snd rh * cos)%num) in
        ([mkSegment hit direction], true)
    else ([mkSegment start direction], true).

(** The [for (let i = 0; i < 100; i++)] loop of [GlassBlockCell.interact];
    [bounces] is the number of rounds left, the result is what the loop pushes
    on [path]. *)
Fixpoint GlassBlockCell_bounce (bounces : nat) (n2 : num) (pos dir : vec)
  : list Segment :=
  match bounces with
  | O => []
  | S bounces' =>
    let t_x := if (fst dir !== Fin 0)%num
               then (((if (fst dir >? Fin 0)%num then Fin 0.5 else Fin (-0.5))
                      - fst pos) / fst dir)%num
               else PInf in
    let t_y := if (snd dir !== Fin 0)%num
               then (((if (snd dir >? Fin 0)%num then Fin 0.5 else Fin (-0.5))
                      - snd pos) / snd dir)%num
               else PInf in
    let t_exit := Num.min t_x t_y in
    let exitPoint := ((fst pos + t_exit * fst dir)%num,
                      (snd pos + t_exit * snd dir)%num) in
    let exitNormal :=
      if (Num.abs (t_x - t_exit) <? Fin 1e-9)%num
      then ((- Num.sign (fst dir))%num, Fin 0)
      else (Fin 0, (- Num.sign (snd dir))%num) in
    let '(exitDirection, exitReflecting) := refract dir exitNormal n2 (Fin 1) in
    mkSegment exitPoint exitDirection ::
    (if negb exitReflecting then []
     else GlassBlockCell_bounce bounces' n2 exitPoint exitDirection)
  end.

Definition GlassBlockCell_interact (refractiveIndices : list (string * num))
    (start direction norm : vec) (color : Color) : list Segment * bool :=
  let n1 := Fin 1 in
  let n2 := to_number (get_property refractiveIndices (property_key color)) in
  let '(entryDirection, entryReflecting) := refract direction norm n1 n2 in
  let path := [mkSegment start entryDirection] in
  if entryReflecting then (path, false)
  else (path ++ GlassBlockCell_bounce 100 n2 start entryDirection, false).

Definition FixedMirrorCell_interact (start direction norm : vec)
  : list Segment * bool :=
  let dir := reflect direction norm in
  ([mkSegment start dir], false).

Definition RotatableMirrorCell_interact (rotation : num) (pos direction : vec)
  : list Segment * bool :=
  let angle := rotation in
  let p1 := ((Fin (-0.5) * Num.cos angle)%num, (Fin (-0.5) * Num.sin angle)%num) in
  let p2 := ((Fin 0.5 * Num.cos angle)%num, (Fin 0.5 * Num.sin angle)%num) in
  match getLineSegmentIntersection pos direction p1 p2 with
  | Some intersection =>
    let mirrorVec := ((fst p2 - fst p1)%num, (snd p2 - snd p1)%num) in
    let normalVec0 := ((- snd mirrorVec)%num, fst mirrorVec) in
    let len := Num.sqrt (fst normalVec0 * fst normalVec0
                         + snd normalVec0 * snd normalVec0)%num in
    let normalVec1 := ((fst normalVec0 / len)%num, (snd normalVec0 / len)%num) in
    let normalVec :=
      if (dot direction normalVec1 >? Fin 0)%num
      then ((fst normalVec1 * Fin (-1))%num, (snd normalVec1 * Fin (-1))%num)
      else normalVec1 in
    let newDirection := reflect direction normalVec in
    ([mkSegment intersection newDirection], false)
  | None => ([], false)
  end.

(** Method dispatch.  The cell is returned with the result because
    [TargetCell.interact] writes [this.receive]. *)
Definition interact (cell : Cell) (start direction normal : vec) (color : Color)
  : Cell * (list Segment * bool) :=
  match cell with
  | EmptyCell => (cell, BaseCell_interact)
  | BlockCell own => (cell, BlockCell_interact own start direction color)
  | TargetCell _ => (TargetCell (Some true), TargetCell_interact start direction)
  | CrossCell rotation width =>
      (cell, CrossCell_interact rotation width start direction)
  | GlassBlockCell refractiveIndices =>
      (cell, GlassBlockCell_interact refractiveIndices start direction normal color)
  | FixedMirrorCell => (cell, FixedMirrorCell_interact start direction normal)
  | RotatableMirrorCell rotation =>
      (cell, RotatableMirrorCell_interact rotation start direction)
  end.

(** ** Ray tracer *)

(** What a call can come to: a value, a [TypeError] (a property read on
    [undefined]), or a loop that has not finished within the fuel given to
    the model. *)
Inductive Result (A : Type) : Type :=
| Ok (a : A)
| TypeError
| OutOfFuel.

Arguments Ok {A} a.
Arguments TypeError {A}.
Arguments OutOfFuel {A}.

Definition bind {A B : Type} (m : Result A) (k : A -> Result B) : Result B :=
  match m with
  | Ok a => k a
  | TypeError => TypeError
  | OutOfFuel => OutOfFuel
  end.

Notation "x <- m ;; k" := (bind m (fun x => k))
  (at level 61, m at next level, right associativity).

(** A number used as an array index: the element is [undefined] unless the
    number is a natural number below the length. *)
Definition to_index (i : num) : option nat :=
  match i with
  | Fin r =>
      if Rleb 0 r && Reqb r (IZR (Int_part r))
      then Some (Z.to_nat (Int_part r))
      else None
  | _ => None
  end.

Definition array_get {A : Type} (a : list A) (i : num) : option A :=
  match to_index i with
  | Some n => nth_error a n
  | None => None
  end.

Fixpoint array_set {A : Type} (a : list A) (n : nat) (v : A) : list A :=
  match a, n with
  | [], _ => []
  | _ :: rest, O => v :: rest
  | h :: rest, S n' => h :: array_set rest n' v
  end.

Definition Grid : Type := list (list Cell).

(** The cell object at row [r], column [c] after one of its methods ran. *)
Definition grid_store (grid : Grid) (r c : nat) (cell : Cell) : Grid :=
  match nth_error grid r with
  | Some row => array_set grid r (array_set row c cell)
  | None => grid
  end.

Record LightBeam : Type := mkBeam {
  beam_start : vec;
  beam_direction : vec;
  beam_cell : num * num;
  beam_color : Color;
  beam_path : list vec
}.

Definition MAX_INTERACTIONS : nat := 100.

(** The local variables of the body of the [for] loop of [trackRays]. *)
Record TraceState : Type := mkTrace {
  interactionCount : nat;
  sx : num; sy : num;
  dx : num; dy : num;
  cx : num; cy : num;
  x : num; y : num;
  normal : vec;
  path : list vec
}.

(** One round of [for (s of segments)]. *)
Definition push_segment (st : TraceState) (s : Segment) : TraceState :=
  let sx0 := fst (seg_start s) in
  let sy0 := snd (seg_start s) in
  let sx' := (sx0 + cx st + Fin 0.5)%num in
  let sy' := (sy0 + cy st + Fin 0.5)%num in
  let pos := (sx', sy') in
  mkTrace (S (interactionCount st)) sx' sy'
          (fst (seg_direction s)) (snd (seg_direction s))
          (cx st) (cy st) (x st) (y st) (normal st)
          (path st ++ [pos]).

(** The way the [while] loop was left (not a value of the program: kept to
    state how tracing ends). *)
Inductive Ending : Type :=
| CellTerminated
| ExitedGrid
| BudgetExhausted.

(** The step to the next grid line, after the segments were pushed. *)
Definition advance (st : TraceState) : TraceState :=
  let t_vertical :=
    if (dx st !== Fin 0)%num
    then (((if (dx st >? Fin 0)%num then (cx st + Fin 1)%num else cx st) - sx st)
          / dx st)%num
    else PInf in
  let t_horizontal :=
    if (dy st !== Fin 0)%num
    then (((if (dy st >? Fin 0)%num then (cy st + Fin 1)%num else cy st) - sy st)
          / dy st)%num
    else PInf in
  let isVerticalHit := (t_vertical <? t_horizontal)%num in
  let t := if isVerticalHit then t_vertical else t_horizontal in
  let cx' := if isVerticalHit then (cx st + Num.sign (dx st))%num else cx st in
  let cy' := if isVerticalHit then cy st else (cy st + Num.sign (dy st))%num in
  let x' := (sx st + dx st * t)%num in
  let y' := (sy st + dy st * t)%num in
  let normal' := if isVerticalHit
                 then ((- Num.sign (dx st))%num, Fin 0)
                 else (Fin 0, (- Num.sign (dy st))%num) in
  mkTrace (interactionCount st) (sx st) (sy st) (dx st) (dy st)
          cx' cy' x' y' normal' (path st).

Definition out_of_grid (gridWidth gridHeight : nat) (st : TraceState) : bool :=
  ((cx st <? Fin 0) || (cx st >=? Fin (INR gridWidth))
   || (cy st <? Fin 0) || (cy st >=? Fin (INR gridHeight)))%num.

(** The [while (interactionCount < MAX_INTERACTIONS)] loop for one beam. *)
Fixpoint trace_loop (fuel : nat) (gridWidth gridHeight : nat) (color : Color)
    (grid : Grid) (st : TraceState) : Result (Ending * Grid * TraceState) :=
  match fuel with
  | O => OutOfFuel
  | S fuel' =>
    if (interactionCount st <? MAX_INTERACTIONS)%nat then
      match array_get grid (cy st) with
      | None => TypeError
      | Some row =>
        match array_get row (cx st), to_index (cy st), to_index (cx st) with
        | Some cell, Some r, Some c =>
          let '(cell', (segments, terminate)) :=
            interact cell
              ((x st - cx st - Fin 0.5)%num, (y st - cy st - Fin 0.5)%num)
              (dx st, dy st) (normal st) color in
          let grid1 := grid_store grid r c cell' in
          let st1 := fold_left push_segment segments st in
          if terminate then Ok (CellTerminated, grid1, st1)
          else
            let st2 := advance st1 in
            if out_of_grid gridWidth gridHeight st2
            then Ok (ExitedGrid, grid1,
                     mkTrace (interactionCount st2) (sx st2) (sy st2)
                             (dx st2) (dy st2) (cx st2) (cy st2)
                             (x st2) (y st2) (normal st2)
                             (path st2 ++ [(x st2, y st2)]))
            else trace_loop fuel' gridWidth gridHeight color grid1 st2
        | _, _, _ => TypeError
        end
      end
    else Ok (BudgetExhausted, grid, st)
  end.

(** The local variables at the head of the [while] loop. *)
Definition initial_state (beam : LightBeam) : TraceState :=
  let sx := fst (beam_start beam) in
  let sy := snd (beam_start beam) in
  mkTrace 0 sx sy (fst (beam_direction beam)) (snd (beam_direction beam))
          (fst (beam_cell beam)) (snd (beam_cell beam))
          sx sy (Fin 0, Fin 1) [(sx, sy)].

(** The body of the [for] loop: one beam traced; the traced beam carries the
    path. *)
Definition trace_beam (fuel : nat) (gridWidth gridHeight : nat) (grid : Grid)
    (beam : LightBeam) : Result (Ending * Grid * TraceState) :=
  trace_loop fuel gridWidth gridHeight (beam_color beam) grid (initial_state beam).

Fixpoint trace_beams (fuel : nat) (gridWidth gridHeight : nat) (grid : Grid)
    (beamQueue : list LightBeam) : Result (Grid * list LightBeam) :=
  match beamQueue with
  | [] => Ok (grid, [])
  | beam :: rest =>
    r <- trace_beam fuel gridWidth gridHeight grid beam ;;
    let '(_, grid1, st) := r in
    r' <- trace_beams fuel gridWidth gridHeight grid1 rest ;;
    let '(grid2, traced) := r' in
    Ok (grid2,
        mkBeam (beam_start beam) (beam_direction beam) (beam_cell beam)
               (beam_color beam) (path st) :: traced)
  end.

(** [trackRays(grid, beams)]; [fuel] bounds the rounds of each [while] loop.
    The grid comes back with the result because tracing writes the targets'
    [receive]. *)
Definition trackRays (fuel : nat) (grid : Grid) (beams : list LightBeam)
  : Result (Grid * list LightBeam) :=
  match grid with
  | [] => TypeError
  | row0 :: _ =>
    let gridWidth := List.length row0 in
    let gridHeight := List.length grid in
    trace_beams fuel gridWidth gridHeight grid beams
  end.

(** ** Renderer: the one write it makes to the traced beams *)

(** [beam.color = beam.color ? beam.color : "yellow"], reached for a beam
    whose path has at least two points. *)
Definition Renderer_drawBeams (beams : list LightBeam) : list LightBeam :=
  map (fun beam =>
         if (List.length (beam_path beam) <? 2)%nat then beam
         else mkBeam (beam_start beam) (beam_direction beam) (beam_cell beam)
                     (if string_truthy (beam_color beam) then beam_color beam
                      else Some "yellow"%string)
                     (beam_path beam))
      beams.

(** ** Level data and the game *)

(** An entry of a level's [grid]: [{type, color?, rotation?}]. *)
Record CellData : Type := mkCellData {
  cd_type : string;
  cd_color : option string;
  cd_rotation : option num
}.

Record Level : Type := mkLevel {
  level_beams : list LightBeam;
  level_grid : list (list CellData)
}.

(** [s || d] on strings. *)
Definition string_or (s : option string) (d : string) : string :=
  match s with
  | Some c => if string_truthy s then c else d
  | None => d
  end.

Definition rotation_truthy (rotation : option num) : bool :=
  match rotation with
  | Some r => Num.truthy r
  | None => false
  end.

(** The body of the inner [map] of [parseGrid]. *)
Definition parseCell (cellData : CellData) : Cell :=
  let type := cd_type cellData in
  if String.eqb type "Empty" then EmptyCell
  else if String.eqb type "Block" then
    new_BlockCell (Some (string_or (cd_color cellData) "black"))
  else if String.eqb type "GlassBlock" then new_GlassBlockCell None
  else if String.eqb type "Target" then new_TargetCell
  else if String.eqb type "FixedMirror" then FixedMirrorCell
  else if String.eqb type "RotatableMirror" then
    new_RotatableMirrorCell
      (Some (if rotation_truthy (cd_rotation cellData)
             then (to_number (cd_rotation cellData) / Fin 180 * Num.PI)%num
             else (Fin 1 / Fin 4 * Num.PI)%num))
  else if String.eqb type "Cross" then
    new_CrossCell
      (Some (if rotation_truthy (cd_rotation cellData)
             then (to_number (cd_rotation cellData) / Fin 180 * Num.PI)%num
             else Fin 0))
      None
  else EmptyCell.

Definition parseGrid (gridData : list (list CellData)) : Grid :=
  map (fun row => map parseCell row) gridData.

(** A reference to a cell object of the grid: its row and column. *)
Definition CellRef : Type := (nat * nat)%type.

Definition CellRef_eqb (a b : CellRef) : bool :=
  (fst a =? fst b)%nat && (snd a =? snd b)%nat.

Definition deref (grid : Grid) (ref : CellRef) : option Cell :=
  match nth_error grid (fst ref) with
  | Some row => nth_error row (snd ref)
  | None => None
  end.

Definition is_TargetCell (cell : Cell) : bool :=
  match cell with
  | TargetCell _ => true
  | _ => false
  end.

Fixpoint findTargets_row (row : list Cell) (y x : nat) : list CellRef :=
  match row with
  | [] => []
  | cell :: rest =>
    (if is_TargetCell cell then [(y, x)] else []) ++ findTargets_row rest y (S x)
  end.

Fixpoint findTargets_rows (rows : Grid) (y : nat) : list CellRef :=
  match rows with
  | [] => []
  | row :: rest => findTargets_row row y 0 ++ findTargets_rows rest (S y)
  end.

Definition findTargetCells (grid : Grid) : list CellRef :=
  findTargets_rows grid 0.

Record Game : Type := mkGame {
  grid : Grid;
  initBeams : list LightBeam;
  targetCells : list CellRef;
  isGameRunning : bool;
  isLevelClear : bool;
  gaugeValue : num;
  lastTimestamp : num;
  dirty : bool;
  result : list LightBeam
}.

Definition GAUGE_FILL_RATE : num := Fin 0.3.
Definition GAUGE_DECAY_RATE : num := Fin 4.

(** [target.receive] used as a condition. *)
Definition target_receive (grid : Grid) (target : CellRef) : bool :=
  match deref grid target with
  | Some (TargetCell (Some true)) => true
  | _ => false
  end.

Definition checkWinCondition (g : Game) : bool :=
  if (List.length (targetCells g) =? 0)%nat then false
  else
    let hitTargets := filter (target_receive (grid g)) (targetCells g) in
    forallb (fun target => existsb (CellRef_eqb target) hitTargets) (targetCells g).

(** [target.receive = false]. *)
Definition reset_receive (grid : Grid) (target : CellRef) : Grid :=
  match deref grid target with
  | Some (TargetCell _) => grid_store grid (fst target) (snd target) (TargetCell (Some false))
  | _ => grid
  end.

(** [Renderer.render(grid, beams, gauge, cleared)], as far as the game state
    goes: it reads [grid[0].length], calls [draw] on [grid[y][x]] for every
    row [y] and every [x] below that length, and draws the beams.  It throws
    on a grid of no row and on a row shorter than the first. *)
Definition Renderer_render (grid : Grid) (beams : list LightBeam)
  : Result (list LightBeam) :=
  match grid with
  | [] => TypeError
  | row0 :: _ =>
      if forallb (fun row => (List.length row0 <=? List.length row)%nat) grid
      then Ok (Renderer_drawBeams beams)
      else TypeError
  end.

(** [updateAndRender]; level data hold finite numbers only, which the JSON
    round trip that copies [initBeams] gives back unchanged. *)
Definition updateAndRender (fuel : nat) (g : Game) : Result Game :=
  if dirty g then
    let beamsToTrack := initBeams g in
    let grid0 := fold_left reset_receive (targetCells g) (grid g) in
    r <- trackRays fuel grid0 beamsToTrack ;;
    let '(grid1, traced) := r in
    drawn <- Renderer_render grid1 traced ;;
    Ok (mkGame grid1 (initBeams g) (targetCells g) (isGameRunning g)
               (isLevelClear g) (gaugeValue g) (lastTimestamp g) false drawn)
  else
    drawn <- Renderer_render (grid g) (result g) ;;
    Ok (mkGame (grid g) (initBeams g) (targetCells g) (isGameRunning g)
               (isLevelClear g) (gaugeValue g) (lastTimestamp g) false drawn).

(** [handleLevelClear], up to the timer it starts. *)
Definition handleLevelClear (fuel : nat) (g : Game) : Result Game :=
  updateAndRender fuel
    (mkGame (grid g) (initBeams g) (targetCells g) false true
            (gaugeValue g) (lastTimestamp g) (dirty g) (result g)).

(** The first half of [gameLoop]: the time step, the win check and the gauge
    update. *)
Definition gameLoop_gauge (timestamp : num) (g : Game) : Game :=
  let deltaTime := (timestamp - lastTimestamp g)%num in
  let allTargetsHit := checkWinCondition g in
  let gaugeValue' :=
    if allTargetsHit
    then Num.min (gaugeValue g + GAUGE_FILL_RATE * (deltaTime / Fin 1000))%num (Fin 1)
    else Num.max (Fin 0) (gaugeValue g - GAUGE_DECAY_RATE * (deltaTime / Fin 1000))%num in
  mkGame (grid g) (initBeams g) (targetCells g) (isGameRunning g)
         (isLevelClear g) gaugeValue' timestamp (dirty g) (result g).

(** [gameLoop(timestamp)], up to the next animation frame it asks for. *)
Definition gameLoop (fuel : nat) (timestamp : num) (g : Game) : Result Game :=
  if negb (isGameRunning g) then Ok g
  else
    let g1 := gameLoop_gauge timestamp g in
    g2 <- updateAndRender fuel g1 ;;
    if (gaugeValue g2 >=? Fin 1)%num && negb (isLevelClear g2)
    then handleLevelClear fuel g2
    else Ok g2.

(** [loadLevel(level)], up to the animation frame it asks for.  With a grid
    of no row, [this.grid[0].length] throws; the [catch] leaves the game
    stopped, with the beams, the grid and the targets already stored. *)
Definition loadLevel (level : Level) (g : Game) : Game :=
  let grid := parseGrid (level_grid level) in
  match grid with
  | [] =>
      mkGame grid (level_beams level) (findTargetCells grid) false false (Fin 0)
             (lastTimestamp g) (dirty g) (result g)
  | _ :: _ =>
      mkGame grid (level_beams level) (findTargetCells grid) true false (Fin 0)
             (lastTimestamp g) true (result g)
  end.

(** ** Dragging a mirror *)

(** [Math.floor]. *)
Definition floor (n : num) : num :=
  match n with
  | Fin r => Fin (IZR (Int_part r))
  | other => other
  end.

(** [Math.atan2(y, x)]. *)
Definition atan2 (y x : num) : num :=
  match y, x with
  | NaN, _ | _, NaN => NaN
  | Fin b, Fin a =>
      if Rltb 0 a then Fin (atan (b / a))
      else if Rltb a 0 then
        if Rltb b 0 then Fin (atan (b / a) - PI) else Fin (atan (b / a) + PI)
      else if Rltb 0 b then Fin (PI / 2)
      else if Rltb b 0 then Fin (- (PI / 2))
      else Fin 0
  | Fin _, PInf => Fin 0
  | Fin b, NInf => if Rltb b 0 then Fin (- PI) else Fin PI
  | PInf, Fin _ => Fin (PI / 2)
  | PInf, PInf => Fin (PI / 4)
  | PInf, NInf => Fin (3 * PI / 4)
  | NInf, Fin _ => Fin (- (PI / 2))
  | NInf, PInf => Fin (- (PI / 4))
  | NInf, NInf => Fin (- (3 * PI / 4))
  end.

(** The [rotatable] property, set by the constructors of [CrossCell] and
    [RotatableMirrorCell] and read as a condition. *)
Definition rotatable (cell : Cell) : bool :=
  match cell with
  | CrossCell _ _ | RotatableMirrorCell _ => true
  | _ => false
  end.

(** [cell.rotation = angle], on a cell that has a rotation. *)
Definition set_rotation (cell : Cell) (angle : num) : Cell :=
  match cell with
  | CrossCell _ width => CrossCell angle width
  | RotatableMirrorCell _ => RotatableMirrorCell angle
  | other => other
  end.

(** The [Game] object with the fields that the pointer handlers use:
    [cellSize] (NaN as long as no level was loaded) and the drag state.
    [draggedMirror] refers to a cell of the grid of the game. *)
Record GameUI : Type := mkGameUI {
  ui_game : Game;
  cellSize : num;
  isDragging : bool;
  draggedMirror : option CellRef;
  draggedMirrorCellPos : num * num
}.

Definition handleDragMove (fuel : nat) (x y : num) (ui : GameUI) : Result GameUI :=
  match draggedMirror ui with
  | None => Ok ui
  | Some mirror =>
    let mirrorCenterX := ((fst (draggedMirrorCellPos ui) + Fin 0.5) * cellSize ui)%num in
    let mirrorCenterY := ((snd (draggedMirrorCellPos ui) + Fin 0.5) * cellSize ui)%num in
    let dx := (x - mirrorCenterX)%num in
    let dy := (y - mirrorCenterY)%num in
    let angle := atan2 dy dx in
    let g := ui_game ui in
    let grid1 :=
      match deref (grid g) mirror with
      | Some cell =>
          grid_store (grid g) (fst mirror) (snd mirror) (set_rotation cell angle)
      | None => grid g
      end in
    g' <- updateAndRender fuel
            (mkGame grid1 (initBeams g) (targetCells g) (isGameRunning g)
                    (isLevelClear g) (gaugeValue g) (lastTimestamp g) true
                    (result g)) ;;
    Ok (mkGameUI g' (cellSize ui) (isDragging ui) (draggedMirror ui)
                 (draggedMirrorCellPos ui))
  end.

(** [this.grid[gridY]?.[gridX].rotatable]: no row at [gridY] gives a falsy
    [undefined]; a row without an element at [gridX] throws. *)
Definition handleDragStart (fuel : nat) (x y : num) (ui : GameUI) : Result GameUI :=
  let gridX := floor (x / cellSize ui) in
  let gridY := floor (y / cellSize ui) in
  match to_index gridY with
  | None => Ok ui
  | Some r =>
    match nth_error (grid (ui_game ui)) r with
    | None => Ok ui
    | Some row =>
      match to_index gridX with
      | None => TypeError
      | Some c =>
        match nth_error row c with
        | None => TypeError
        | Some cell =>
          if rotatable cell then
            handleDragMove fuel x y
              (mkGameUI (ui_game ui) (cellSize ui) true (Some (r, c)) (gridX, gridY))
          else Ok ui
        end
      end
    end
  end.

Definition handleDragEnd (ui : GameUI) : GameUI :=
  if isDragging ui
  then mkGameUI (ui_game ui) (cellSize ui) false None (draggedMirrorCellPos ui)
  else ui.

(** ** The arithmetic of the code: binary64 *)

(** [dot], [reflect], [refract] and the step of [trackRays] to the next grid
    line once more, on the binary64 numbers of JavaScript.  [Math.cos] and
    [Math.sin] have no counterpart on these numbers here, so the cells that
    turn by an angle are left to the exact model. *)
Module Double.

#[local] Set Warnings "-inexact-float".
Local Open Scope float_scope.

Definition vec : Type := float * float.

Definition dot (v1 v2 : vec) : float :=
  fst v1 * fst v2 + snd v1 * snd v2.

Definition reflect (incidentVec normalVec : vec) : vec :=
  let d := dot incidentVec normalVec in
  (fst incidentVec - 2 * d * fst normalVec,
   snd incidentVec - 2 * d * snd normalVec).

Definition refract (incidentVec normalVec : vec) (n1 n2 : float) : vec * bool :=
  let n_ratio := n1 / n2 in
  let cos_i := - dot normalVec incidentVec in
  let sin_t2 := n_ratio * n_ratio * (1.0 - cos_i * cos_i) in
  if 1.0 <? sin_t2 then (reflect incidentVec normalVec, true)
  else
    let cos_t := PrimFloat.sqrt (1.0 - sin_t2) in
    let term1_x := n_ratio * fst incidentVec in
    let term1_y := n_ratio * snd incidentVec in
    let term2_x := (n_ratio * cos_i - cos_t) * fst normalVec in
    let term2_y := (n_ratio * cos_i - cos_t) * snd normalVec in
    ((term1_x + term2_x, term1_y + term2_y), false).

(** [Math.sign]: a zero and NaN come back as they are. *)
Definition sign (n : float) : float :=
  if 0 <? n then 1 else if n <? 0 then -1 else n.

(** The local variables of the [while] loop of [trackRays] that the step to
    the next grid line reads or writes. *)
Record TraceState : Type := mkTrace {
  sx : float;
  sy : float;
  dx : float;
  dy : float;
  cx : float;
  cy : float;
  x : float;
  y : float;
  normal : vec
}.

(** The second half of the loop body: from [t_vertical] to [normal]. *)
Definition advance (st : TraceState) : TraceState :=
  let t_vertical :=
    if negb (dx st =? 0)
    then ((if 0 <? dx st then cx st + 1 else cx st) - sx st) / dx st
    else infinity in
  let t_horizontal :=
    if negb (dy st =? 0)
    then ((if 0 <? dy st then cy st + 1 else cy st) - sy st) / dy st
    else infinity in
  let isVerticalHit := t_vertical <? t_horizontal in
  let t := if isVerticalHit then t_vertical else t_horizontal in
  let cx' := if isVerticalHit then cx st + sign (dx st) else cx st in
  let cy' := if isVerticalHit then cy st else cy st + sign (dy st) in
  let x' := sx st + dx st * t in
  let y' := sy st + dy st * t in
  let normal' := if isVerticalHit then (- sign (dx st), 0)
                 else (0, - sign (dy st)) in
  mkTrace (sx st) (sy st) (dx st) (dy st) cx' cy' x' y' normal'.

Definition out_of_grid (gridWidth gridHeight : float) (st : TraceState) : bool :=
  (cx st <? 0) || (gridWidth <=? cx st) || (cy st <? 0) || (gridHeight <=? cy st).

(** The local variables at the head of the [while] loop. *)
Definition initial_state (start direction cell : vec) : TraceState :=
  mkTrace (fst start) (snd start) (fst direction) (snd direction)
          (fst cell) (snd cell) (fst start) (snd start) (0, 1).

(** The part of [gameLoop] that fills the gauge when all targets are hit. *)
Definition fill_gauge (gaugeValue timestamp lastTimestamp : float) : float :=
  let deltaTime := timestamp - lastTimestamp in
  let gaugeValue' := gaugeValue + 0.3 * (deltaTime / 1000) in
  if 1 <? gaugeValue' then 1 else gaugeValue'.

Definition tiny_direction : vec := (1e-320, 0).
Definition short_direction : vec := (0, 1e-9).
Definition cell_centre : vec := (0.5, 0.5).
Definition tenth : float := 0.1.
Definition first_cell : vec := (0, 0).

End Double.

(** ** Notions used to state the properties *)


(** A component of a direction that is zero, or neither so small that a
    distance divided by it leaves the range of the code's numbers nor above 1. *)
Definition plain_component (u : R) : Prop :=
  (u = 0 \/ 1e-6 <= Rabs u) /\ Rabs u <= 1.


(** Sample games: a running game with one lit target, one with a lit and an
    unlit target, one without target. *)
Definition game_one_lit_target : Game :=
  mkGame [[TargetCell (Some true)]] [] [(0, 0)%nat] true false
         (Fin 0.5) (Fin 0) false [].

Definition game_lit_and_unlit_target : Game :=
  mkGame [[TargetCell (Some true); TargetCell None]] [] [(0, 0)%nat; (0, 1)%nat]
         true false (Fin 1) (Fin 0) false [].

Definition game_without_target : Game :=
  mkGame [[EmptyCell]] [] [] true false (Fin 1) (Fin 0) false [].

(** A segment with finite coordinates and a non-zero direction. *)
Definition moving (s : Segment) : Prop :=
  exists a b c d,
    s = mkSegment (Fin a, Fin b) (Fin c, Fin d) /\ 0 < c * c + d * d.

(** A cell that has, if it is a glass block, an index of at least 1 for the
    colour. *)
Definition cell_ok (color : Color) (cell : Cell) : Prop :=
  match cell with
  | GlassBlockCell refractiveIndices =>
      exists n, get_property refractiveIndices (property_key color) = Some (Fin n)
                /\ 1 <= n
  | _ => True
  end.

(** A cell that has, if it is a glass block, no index above [bound] for the
    colour. *)
Definition glass_index_at_most (bound : R) (color : Color) (cell : Cell) : Prop :=
  match cell with
  | GlassBlockCell refractiveIndices =>
      forall n, get_property refractiveIndices (property_key color) = Some (Fin n) ->
                n <= bound
  | _ => True
  end.

(** A grid of [gridHeight] rows of [gridWidth] cells, all of them [cell_ok]. *)
Definition grid_ok (color : Color) (gridWidth gridHeight : nat) (grid : Grid) : Prop :=
  List.length grid = gridHeight /\
  Forall (fun row => List.length row = gridWidth /\ Forall (cell_ok color) row) grid.

(** A state of the tracer whose numbers are finite and whose cell indices
    are integers. *)
Definition fin_state (count : nat) (a b u v : R) (col row : Z)
    (p_x p_y n_x n_y : R) (points : list vec) : TraceState :=
  mkTrace count (Fin a) (Fin b) (Fin u) (Fin v) (Fin (IZR col)) (Fin (IZR row))
          (Fin p_x) (Fin p_y) (Fin n_x, Fin n_y) points.

Definition in_grid (gridWidth gridHeight : nat) (col row : Z) : Prop :=
  (0 <= col < Z.of_nat gridWidth)%Z /\ (0 <= row < Z.of_nat gridHeight)%Z.

(** The number of steps along one axis, in the sense of the component [d] of
    the direction, that take index [z] out of [0 .. size-1]. *)
Definition toward (d : R) (z : Z) (size : nat) : nat :=
  if Rltb 0 d then Z.to_nat (Z.of_nat size - z)
  else if Rltb d 0 then Z.to_nat (z + 1)
  else 0.

Definition distance_out (gridWidth gridHeight : nat) (u v : R) (col row : Z) : nat :=
  toward u col gridWidth + toward v row gridHeight.

(** A bound on the rounds the loop still needs: every round either pushes a
    segment or brings the ray one cell nearer to the edge of the grid. *)
Definition rounds (gridWidth gridHeight : nat) (count : nat) (u v : R)
    (col row : Z) : nat :=
  (100 - count) * (gridWidth + gridHeight + 1)
  + distance_out gridWidth gridHeight u v col row.

(** A column of three cells, a glass block between two fixed mirrors, and a
    red beam that starts on the lower face of the glass block, upwards. *)
Definition mirror_glass_mirror : Grid :=
  [[FixedMirrorCell]; [new_GlassBlockCell None]; [FixedMirrorCell]].

Definition beam_between_mirrors : LightBeam :=
  mkBeam (Fin 0.5, Fin 2) (Fin 0, Fin (-1)) (Fin 0, Fin 1) (Some "red"%string) [].

(** The four states in which that beam is found at the head of the loop:
    entering the glass upwards, at the upper mirror, entering the glass
    downwards, at the lower mirror. *)
Definition glass_up (count : nat) (points : list vec) : TraceState :=
  fin_state count 0.5 2 0 (-1) 0 1 0.5 2 0 1 points.

Definition mirror_up (count : nat) (points : list vec) : TraceState :=
  fin_state count 0.5 1 0 (-1) 0 0 0.5 1 0 1 points.

Definition glass_down (count : nat) (points : list vec) : TraceState :=
  fin_state count 0.5 1 0 1 0 1 0.5 1 0 (-1) points.

Definition mirror_down (count : nat) (points : list vec) : TraceState :=
  fin_state count 0.5 2 0 1 0 2 0.5 2 0 (-1) points.

(** A grid of one yellow block, and a beam through it from above: without
    colour, and yellow. *)
Definition yellow_block_grid : Grid := [[BlockCell "yellow"]].

Definition beam_without_color : LightBeam :=
  mkBeam (Fin 0.5, Fin (-0.1)) (Fin 0, Fin 1) (Fin 0, Fin 0) None [].

Definition beam_yellow : LightBeam :=
  mkBeam (Fin 0.5, Fin (-0.1)) (Fin 0, Fin 1) (Fin 0, Fin 0)
         (Some "yellow"%string) [].

(** A grid of one glass block. *)
Definition glass_grid : Grid := [[new_GlassBlockCell None]].

(** The first level of the game. *)
Definition level_1 : Level :=
  let cell (type : string) := mkCellData type None None in
  mkLevel
    [mkBeam (Fin 0.5, Fin (-0.1)) (Fin 0, Fin 1) (Fin 0, Fin 0) None []]
    [[cell "Empty"; cell "FixedMirror"; cell "Empty"];
     [cell "Empty"; cell "Empty"; cell "Empty"];
     [mkCellData "RotatableMirror" None (Some (Fin 45)); cell "FixedMirror";
      cell "Empty"];
     [cell "Empty"; cell "Empty"; cell "Target"]]%string.

(** The other levels, and the list of all of them. *)
Definition level_2 : Level :=
  let cell (type : string) := mkCellData type None None in
  mkLevel
    [mkBeam (Fin 0.5, Fin (-0.1)) (Fin 0, Fin 1) (Fin 0, Fin 0) None []]
    [[cell "Empty"; cell "FixedMirror";
      mkCellData "RotatableMirror" None (Some (Fin 30)); cell "FixedMirror";
      cell "Empty"];
     [cell "Empty"; cell "Empty"; cell "Empty"; cell "Empty"; cell "Target"];
     [mkCellData "RotatableMirror" None (Some (Fin 45)); cell "FixedMirror";
      cell "Empty"; cell "Empty"; cell "Empty"];
     [cell "Empty"; cell "Empty"; cell "Empty"; cell "Empty"; cell "Empty"]]%string.

Definition level_3 : Level :=
  let cell (type : string) := mkCellData type None None in
  mkLevel
    [mkBeam (Fin 0.5, Fin (-0.1)) (Fin 0, Fin 1) (Fin 0, Fin 0) None []]
    [[cell "Empty"; cell "Empty"; cell "Target"; cell "Empty"; cell "Empty"];
     [cell "Empty"; cell "Block"; cell "Empty"; cell "FixedMirror";
      cell "Empty"];
     [mkCellData "RotatableMirror" None (Some (Fin 30)); cell "Empty";
      cell "Empty"; cell "Empty";
      mkCellData "RotatableMirror" None (Some (Fin 30))];
     [cell "Empty"; cell "Block"; cell "Empty"; cell "Block"; cell "Empty"];
     [cell "Empty"; cell "Empty";
      mkCellData "RotatableMirror" None (Some (Fin 30)); cell "Empty";
      mkCellData "RotatableMirror" None (Some (Fin 30))]]%string.

Definition level_4 : Level :=
  let cell (type : string) := mkCellData type None None in
  mkLevel
    [mkBeam (Fin 2.5, Fin (-0.1)) (Fin 0, Fin 1) (Fin 2, Fin 0)
            (Some "yellow"%string) [];
     mkBeam (Fin 2.5, Fin 5.1) (Fin 0, Fin (-1)) (Fin 2, Fin 4)
            (Some "red"%string) []]
    [[cell "Target"; cell "Block"; cell "Empty"; cell "FixedMirror";
      cell "Empty"];
     [cell "Empty"; cell "Block"; cell "Empty"; cell "Empty"; cell "Empty"];
     [cell "Empty"; cell "Empty";
      mkCellData "RotatableMirror" None (Some (Fin 30)); cell "Empty";
      cell "Empty"];
     [cell "Empty"; cell "Empty"; cell "Empty"; cell "Block"; cell "Empty"];
     [cell "Empty"; mkCellData "RotatableMirror" None (Some (Fin (-45)));
      cell "Empty"; cell "Empty"; cell "Target"]]%string.

Definition level_5 : Level :=
  let cell (type : string) := mkCellData type None None in
  mkLevel
    [mkBeam (Fin (-0.1), Fin 0.5) (Fin 1, Fin 0) (Fin 0, Fin 0)
            (Some "yellow"%string) [];
     mkBeam (Fin 7.1, Fin 0.5) (Fin (-1), Fin 0) (Fin 6, Fin 0)
            (Some "red"%string) []]
    [[cell "Empty"; cell "Empty";
      mkCellData "RotatableMirror" None (Some (Fin 30)); cell "FixedMirror";
      mkCellData "RotatableMirror" None (Some (Fin 30)); cell "Empty";
      cell "Empty"];
     [cell "Block"; cell "Block"; cell "Empty"; cell "Empty"; cell "Empty";
      cell "Block"; cell "Block"];
     [cell "Target"; cell "Empty"; cell "Empty";
      mkCellData "RotatableMirror" None (Some (Fin 0.1)); cell "Empty";
      cell "Empty"; cell "Target"];
     [cell "Block"; cell "Block"; cell "Empty"; cell "Empty"; cell "Empty";
      cell "Block"; cell "Block"];
     [cell "Empty"; cell "Empty"; cell "Empty"; cell "FixedMirror";
      cell "Empty"; cell "Empty"; cell "Empty"]]%string.

Definition level_6 : Level :=
  let cell (type : string) := mkCellData type None None in
  mkLevel
    [mkBeam (Fin (-0.1), Fin 0.5) (Fin 1, Fin 0) (Fin 0, Fin 0)
            (Some "yellow"%string) [];
     mkBeam (Fin 7.1, Fin 0.5) (Fin (-1), Fin 0) (Fin 6, Fin 0)
            (Some "red"%string) []]
    [[cell "Empty"; cell "Empty";
      mkCellData "RotatableMirror" None (Some (Fin 30)); cell "FixedMirror";
      mkCellData "RotatableMirror" None (Some (Fin 30)); cell "Empty";
      cell "Empty"];
     [cell "Block"; cell "Block"; cell "Empty"; cell "Empty"; cell "Empty";
      cell "Block"; cell "Block"];
     [cell "Target"; cell "FixedMirror"; cell "Empty";
      mkCellData "RotatableMirror" None (Some (Fin 30)); cell "Empty";
      cell "FixedMirror"; cell "Block"];
     [cell "Empty"; cell "Block"; cell "Empty"; cell "Empty"; cell "Empty";
      cell "Block"; cell "Target"];
     [mkCellData "RotatableMirror" None (Some (Fin 30)); cell "Empty";
      cell "Empty"; cell "FixedMirror"; cell "Empty";
      mkCellData "RotatableMirror" None (Some (Fin 0.1)); cell "Empty"]]%string.

Definition level_7 : Level :=
  let cell (type : string) := mkCellData type None None in
  mkLevel
    [mkBeam (Fin 0.5, Fin (-0.1)) (Fin 0, Fin 1) (Fin 0, Fin 0)
            (Some "yellow"%string) [];
     mkBeam (Fin 1.5, Fin (-0.1)) (Fin 0, Fin 1) (Fin 1, Fin 0)
            (Some "red"%string) []]
    [[cell "Empty"; cell "Empty"; cell "Empty"; cell "Empty"; cell "Block";
      cell "Empty"; cell "Empty"];
     [cell "Empty"; cell "Empty"; cell "Empty"; cell "Empty"; cell "Block";
      cell "Empty"; cell "Empty"];
     [cell "Empty"; cell "Empty"; cell "Empty"; cell "Empty"; cell "Block";
      cell "FixedMirror"; cell "Block"];
     [cell "Empty"; mkCellData "RotatableMirror" None (Some (Fin 45));
      cell "Empty"; cell "Empty"; mkCellData "Block" (Some "yellow") None;
      cell "Empty"; cell "Target"];
     [mkCellData "RotatableMirror" None (Some (Fin 45)); cell "Empty";
      cell "Empty"; cell "Empty"; mkCellData "Block" (Some "red") None;
      cell "Empty"; cell "Target"]]%string.

Definition level_8 : Level :=
  let cell (type : string) := mkCellData type None None in
  mkLevel
    [mkBeam (Fin (-0.1), Fin 1.5) (Fin 1, Fin 0) (Fin 0, Fin 1)
            (Some "yellow"%string) [];
     mkBeam (Fin (-0.1), Fin 2.5) (Fin 1, Fin 0) (Fin 0, Fin 2)
            (Some "red"%string) []]
    [[cell "Target"; cell "Empty"; cell "Empty"; cell "Empty"; cell "Block";
      cell "Empty"; cell "Empty"];
     [cell "Empty"; cell "Empty"; cell "Empty"; cell "Empty";
      mkCellData "Block" (Some "yellow") None;
      mkCellData "RotatableMirror" None (Some (Fin 45)); cell "Empty"];
     [cell "Empty"; cell "Empty"; cell "Empty"; cell "Empty";
      mkCellData "Block" (Some "red") None; cell "Empty";
      mkCellData "RotatableMirror" None (Some (Fin 45))];
     [cell "Target"; cell "Empty"; cell "Empty"; cell "Empty";
      mkCellData "Block" (Some "yellow") None; cell "Empty";
      mkCellData "RotatableMirror" None (Some (Fin (-45)))];
     [cell "Empty"; cell "Empty"; cell "Empty"; cell "Empty";
      mkCellData "Block" (Some "red") None;
      mkCellData "RotatableMirror" None (Some (Fin (-45))); cell "Empty"]]%string.

Definition level_9 : Level :=
  let cell (type : string) := mkCellData type None None in
  mkLevel
    [mkBeam (Fin 0.5, Fin (-0.1)) (Fin 0, Fin 1) (Fin 0, Fin 0)
            (Some "yellow"%string) [];
     mkBeam (Fin 1.5, Fin (-0.1)) (Fin 0, Fin 1) (Fin 1, Fin 0)
            (Some "red"%string) []]
    [[cell "Empty"; cell "Empty"; cell "Block"; cell "Target"; cell "Block";
      cell "Empty"; cell "Empty"];
     [cell "Empty"; cell "Empty"; cell "FixedMirror"; cell "Empty";
      cell "FixedMirror"; cell "Empty"; cell "Empty"];
     [cell "Empty"; cell "Empty"; cell "Empty"; cell "Empty"; cell "Block";
      cell "FixedMirror"; cell "Empty"];
     [cell "Empty"; mkCellData "RotatableMirror" None (Some (Fin 45));
      cell "Empty"; cell "Empty"; mkCellData "Block" (Some "yellow") None;
      cell "Empty"; cell "FixedMirror"];
     [mkCellData "RotatableMirror" None (Some (Fin 45)); cell "Empty";
      cell "Empty"; cell "Empty"; mkCellData "Block" (Some "red") None;
      cell "Target"; cell "Empty"];
     [cell "Empty"; cell "Empty"; cell "Empty"; cell "Empty";
      cell "FixedMirror"; cell "Empty"; cell "Empty"]]%string.

Definition level_10 : Level :=
  let cell (type : string) := mkCellData type None None in
  mkLevel
    [mkBeam (Fin 0.3, Fin (-0.1)) (Fin 0, Fin 1) (Fin 0, Fin 0)
            (Some "blue"%string) [];
     mkBeam (Fin 0.5, Fin (-0.1)) (Fin 0, Fin 1) (Fin 0, Fin 0)
            (Some "yellow"%string) [];
     mkBeam (Fin 0.7, Fin (-0.1)) (Fin 0, Fin 1) (Fin 0, Fin 0)
            (Some "red"%string) []]
    [[cell "Empty"; cell "Target"; cell "Block"; cell "Empty"; cell "Empty";
      cell "Empty"];
     [cell "Empty"; cell "Empty"; cell "FixedMirror"; cell "Empty";
      cell "Empty"; cell "Empty"];
     [cell "Empty"; cell "RotatableMirror"; cell "RotatableMirror";
      cell "RotatableMirror"; mkCellData "Block" (Some "yellow") None;
      cell "Empty"];
     [mkCellData "RotatableMirror" None (Some (Fin 45)); cell "Empty";
      cell "Empty"; cell "Empty"; mkCellData "Block" (Some "red") None;
      cell "Target"];
     [cell "Empty"; mkCellData "RotatableMirror" None (Some (Fin 45));
      cell "Empty"; cell "Empty"; mkCellData "Block" (Some "blue") None;
      cell "Target"]]%string.

Definition level_11 : Level :=
  let cell (type : string) := mkCellData type None None in
  mkLevel
    [mkBeam (Fin 0.3, Fin (-0.1)) (Fin 0, Fin 1) (Fin 0, Fin 0)
            (Some "blue"%string) [];
     mkBeam (Fin 0.5, Fin (-0.1)) (Fin 0, Fin 1) (Fin 0, Fin 0)
            (Some "yellow"%string) [];
     mkBeam (Fin 0.7, Fin (-0.1)) (Fin 0, Fin 1) (Fin 0, Fin 0)
            (Some "red"%string) []]
    [[cell "Empty"; cell "Empty"; cell "Target"; cell "RotatableMirror";
      cell "RotatableMirror"; cell "Target"];
     [cell "Empty"; cell "Empty"; cell "Empty"; cell "Empty"; cell "Empty";
      cell "Empty"];
     [cell "Empty"; mkCellData "Block" (Some "red") None; cell "GlassBlock";
      cell "Empty"; cell "Empty"; cell "Empty"];
     [cell "Empty"; cell "GlassBlock"; cell "Empty"; cell "Empty";
      cell "FixedMirror"; cell "Empty"];
     [cell "RotatableMirror"; cell "Empty"; cell "Empty"; cell "Target";
      cell "Empty"; cell "Empty"]]%string.

Definition level_12 : Level :=
  let cell (type : string) := mkCellData type None None in
  mkLevel
    [mkBeam (Fin 0.5, Fin (-0.1)) (Fin 0, Fin 1) (Fin 0, Fin 0)
            (Some "yellow"%string) [];
     mkBeam (Fin 1.5, Fin 5.1) (Fin 0, Fin (-1)) (Fin 1, Fin 4)
            (Some "red"%string) []]
    [[cell "Empty"; cell "RotatableMirror"; cell "Empty"; cell "Block";
      cell "Target"; cell "Target"];
     [cell "Empty"; cell "Empty"; cell "Empty"; cell "FixedMirror";
      cell "RotatableMirror"; cell "Empty"];
     [cell "Empty"; cell "Empty"; cell "Empty"; cell "Cross"; cell "Empty";
      cell "Empty"];
     [cell "Empty"; cell "Empty"; cell "Empty"; cell "FixedMirror";
      cell "Empty"; cell "Empty"];
     [cell "RotatableMirror"; cell "Empty"; cell "Empty"; cell "Block";
      cell "Empty"; cell "Empty"]]%string.

Definition levels : list Level :=
  [level_1; level_2; level_3; level_4; level_5; level_6;
   level_7; level_8; level_9; level_10; level_11; level_12].

(** What tracing may do to a cell object: nothing, or set the [receive] of a
    target. *)
Definition lit_more (cell cell' : Cell) : Prop :=
  cell' = cell \/
  exists receive, cell = TargetCell receive /\ cell' = TargetCell (Some true).

Definition grid_lit_more (grid grid' : Grid) : Prop :=
  Forall2 (Forall2 lit_more) grid grid'.

Definition is_GlassBlockCell (cell : Cell) : bool :=
  match cell with
  | GlassBlockCell _ => true
  | _ => false
  end.

(** A grid without glass block. *)
Definition without_glass (grid : Grid) : Prop :=
  Forall (Forall (fun cell => is_GlassBlockCell cell = false)) grid.

(** [traced] is [beam] with a new path: the start point of the beam followed
    by at most [limit] points. *)
Definition traced_from (limit : nat) (beam traced : LightBeam) : Prop :=
  beam_start traced = beam_start beam /\
  beam_direction traced = beam_direction beam /\
  beam_cell traced = beam_cell beam /\
  beam_color traced = beam_color beam /\
  exists rest,
    beam_path traced = beam_start beam :: rest /\ (List.length rest <= limit)%nat.

(** A grid of one target, not yet written to. *)
Definition target_grid : Grid := [[new_TargetCell]].

(** A cell after [target.receive = false], were it run on every target. *)
Definition unlight (cell : Cell) : Cell :=
  if is_TargetCell cell then TargetCell (Some false) else cell.

(** A game of one rotatable mirror, without beam, on cells of size 100. *)
Definition mirror_game : GameUI :=
  mkGameUI (mkGame [[new_RotatableMirrorCell None]] [] [] true false (Fin 0) (Fin 0)
                   false [])
           (Fin 100) false None (Fin 0, Fin 0).

(** The cells a beam of colour [color] passes untouched: empty cells and
    blocks of its own colour. *)
Definition passes (color : Color) (cell : Cell) : bool :=
  match cell with
  | EmptyCell => true
  | BlockCell own => color_strict_eq color own
  | _ => false
  end.

(** The four steps from a cell to a neighbour, as (columns, rows). *)
Definition axis_step (s_c s_r : Z) : Prop :=
  (s_c = 1 /\ s_r = 0)%Z \/ (s_c = -1 /\ s_r = 0)%Z \/
  (s_c = 0 /\ s_r = 1)%Z \/ (s_c = 0 /\ s_r = -1)%Z.

(** The cell [i] steps on from cell [(col, row)]. *)
Definition cell_ahead (col row s_c s_r : Z) (i : nat) : CellRef :=
  (Z.to_nat (row + Z.of_nat i * s_r), Z.to_nat (col + Z.of_nat i * s_c)).

(** A grid of two rows: a red block and a target in the first column, empty
    cells in the second. *)
Definition block_and_target_grid : Grid :=
  [[BlockCell "red"; EmptyCell]; [new_TargetCell; EmptyCell]].

(** Two cells of the same kind, up to what play changes: the rotation of a
    cross or of a rotatable mirror, and the [receive] of a target. *)
Definition same_kind (cell cell' : Cell) : Prop :=
  match cell, cell' with
  | EmptyCell, EmptyCell => True
  | BlockCell color, BlockCell color' => color = color'
  | TargetCell _, TargetCell _ => True
  | CrossCell _ width, CrossCell _ width' => width = width'
  | GlassBlockCell indices, GlassBlockCell indices' => indices = indices'
  | FixedMirrorCell, FixedMirrorCell => True
  | RotatableMirrorCell _, RotatableMirrorCell _ => True
  | _, _ => False
  end.

Definition played (grid grid' : Grid) : Prop :=
  Forall2 (Forall2 same_kind) grid grid'.

(** A game in the course of [level]: its grid is the grid of the level, up
    to rotations and lit targets, and its beams are those of the level. *)
Definition playing (level : Level) (g : Game) : Prop :=
  played (parseGrid (level_grid level)) (grid g) /\
  initBeams g = level_beams level.

(** A beam with finite numbers, a direction other than zero and a cell of
    the grid, in a grid whose glass blocks have an index for its colour. *)
Definition beam_ok (gridWidth gridHeight : nat) (grid : Grid) (beam : LightBeam)
  : Prop :=
  exists a b u v col row,
    beam_start beam = (Fin a, Fin b) /\
    beam_direction beam = (Fin u, Fin v) /\
    beam_cell beam = (Fin (IZR col), Fin (IZR row)) /\
    in_grid gridWidth gridHeight col row /\
    0 < u * u + v * v /\
    grid_ok (beam_color beam) gridWidth gridHeight grid.

(** Level data with a rectangular grid and beams as above; a beam has one of
    the three colours of the glass blocks, or the level has no glass. *)
Definition level_ok (gridWidth gridHeight : nat) (level : Level) : Prop :=
  (0 < gridHeight)%nat /\
  List.length (level_grid level) = gridHeight /\
  Forall (fun row => List.length row = gridWidth) (level_grid level) /\
  Forall (fun beam =>
            exists a b u v col row,
              beam_start beam = (Fin a, Fin b) /\
              beam_direction beam = (Fin u, Fin v) /\
              beam_cell beam = (Fin (IZR col), Fin (IZR row)) /\
              in_grid gridWidth gridHeight col row /\
              0 < u * u + v * v /\
              (In (beam_color beam)
                  [Some "red"%string; Some "yellow"%string; Some "blue"%string] \/
               Forall (Forall (fun cellData =>
                                 cd_type cellData <> "GlassBlock"%string))
                      (level_grid level)))
         (level_beams level).






(** * Properties *)

(** ** Deciding comparisons of reals *)

Lemma Rltb_true (a b : R) : a < b -> Rltb a b = true.
Proof. intros H; unfold Rltb; destruct (Rlt_dec a b); [reflexivity | contradiction]. Qed.

Lemma Rltb_false (a b : R) : b <= a -> Rltb a b = false.
Proof. intros H; unfold Rltb; destruct (Rlt_dec a b); [lra | reflexivity]. Qed.

Lemma Rleb_true (a b : R) : a <= b -> Rleb a b = true.
Proof. intros H; unfold Rleb; destruct (Rle_dec a b); [reflexivity | contradiction]. Qed.

Lemma Rleb_false (a b : R) : b < a -> Rleb a b = false.
Proof. intros H; unfold Rleb; destruct (Rle_dec a b); [lra | reflexivity]. Qed.

Lemma Reqb_true (a b : R) : a = b -> Reqb a b = true.
Proof. intros H; unfold Reqb; destruct (Req_dec_T a b); [reflexivity | contradiction]. Qed.

Lemma Reqb_false (a b : R) : a <> b -> Reqb a b = false.
Proof. intros H; unfold Reqb; destruct (Req_dec_T a b); [contradiction | reflexivity]. Qed.

Lemma Rltb_iff (a b : R) : Rltb a b = true <-> a < b.
Proof. unfold Rltb; destruct (Rlt_dec a b); split; intros; try easy. Qed.

Lemma Rleb_iff (a b : R) : Rleb a b = true <-> a <= b.
Proof. unfold Rleb; destruct (Rle_dec a b); split; intros; try easy. Qed.

Lemma Reqb_iff (a b : R) : Reqb a b = true <-> a = b.
Proof. unfold Reqb; destruct (Req_dec_T a b); split; intros; try easy. Qed.

Lemma Rabs_ltb_true (e c : R) : - c < e < c -> Rltb (Rabs e) c = true.
Proof. intros H. apply Rltb_true. apply Rabs_def1; lra. Qed.

Lemma Rabs_ltb_false (e c : R) : c <= e \/ e <= - c -> Rltb (Rabs e) c = false.
Proof.
  intros H. apply Rltb_false. unfold Rabs. destruct (Rcase_abs e); lra.
Qed.

Lemma Rabs_gtb_true (e c : R) : c < e \/ e < - c -> Rltb c (Rabs e) = true.
Proof.
  intros H. apply Rltb_true. unfold Rabs. destruct (Rcase_abs e); lra.
Qed.

Lemma Rabs_gtb_false (e c : R) : - c <= e <= c -> Rltb c (Rabs e) = false.
Proof.
  intros H. apply Rltb_false. unfold Rabs. destruct (Rcase_abs e); lra.
Qed.

(** Settles every comparison of the goal that linear arithmetic decides. *)
Ltac rdecide :=
  repeat match goal with
  | |- context [Rltb (Rabs ?e) ?c] =>
      first [rewrite (Rabs_ltb_true e c) by lra
            | rewrite (Rabs_ltb_false e c) by lra]
  | |- context [Rltb ?c (Rabs ?e)] =>
      first [rewrite (Rabs_gtb_true e c) by lra
            | rewrite (Rabs_gtb_false e c) by lra]
  | |- context [Rltb ?a ?b] =>
      first [rewrite (Rltb_true a b) by lra | rewrite (Rltb_false a b) by lra]
  | |- context [Rleb ?a ?b] =>
      first [rewrite (Rleb_true a b) by lra | rewrite (Rleb_false a b) by lra]
  | |- context [Reqb ?a ?b] =>
      first [rewrite (Reqb_true a b) by lra | rewrite (Reqb_false a b) by lra]
  end.

(** ** Reflection *)




(** ** Refraction and total internal reflection *)





(** ** Blocks and beam colours *)

(** C10: a [Block] entry without [color] is parsed to a block of colour
    "black", and that block ends every beam whose colour is not "black" (so
    every beam that is yellow, red, blue or has no colour set) at its entry
    point: one segment [{start, direction}] and [terminate = true]. *)
Theorem Block_without_color_is_black_and_terminates :
  forall (rotation : option num) (start direction normal : vec) (color : Color),
    color <> Some "black"%string ->
    parseCell (mkCellData "Block" None rotation) = BlockCell "black" /\
    interact (parseCell (mkCellData "Block" None rotation))
             start direction normal color
    = (BlockCell "black", ([mkSegment start direction], true)).
Proof.
  intros rotation start direction normal color Hc.
  split; [reflexivity |].
  cbn. unfold BlockCell_interact, color_strict_eq.
  destruct color as [c |]; [| reflexivity].
  destruct (String.eqb c "black") eqn:E; [| reflexivity].
  apply String.eqb_eq in E. subst c. contradiction.
Qed.

Lemma Block_without_color_is_black_and_terminates_witness :
  (Some "yellow"%string <> Some "black"%string /\
   Some "red"%string <> Some "black"%string /\
   Some "blue"%string <> Some "black"%string /\
   @None string <> Some "black"%string) /\
  let start := (Fin 0, Fin (-0.5)) in
  let direction := (Fin 0, Fin 1) in
  let normal := (Fin 0, Fin (-1)) in
  let block := parseCell (mkCellData "Block" None None) in
  let stopped := (BlockCell "black", ([mkSegment start direction], true)) in
  interact block start direction normal (Some "yellow"%string) = stopped /\
  interact block start direction normal (Some "red"%string) = stopped /\
  interact block start direction normal (Some "blue"%string) = stopped /\
  interact block start direction normal None = stopped.
Proof.
  split; [repeat split; discriminate |].
  cbv zeta. split; [| split; [| split]];
    apply (Block_without_color_is_black_and_terminates
             None (Fin 0, Fin (-0.5)) (Fin 0, Fin 1) (Fin 0, Fin (-1)));
    discriminate.
Defined.

(** ** Rotations in level data *)

(** C4 on the code: a [RotatableMirror] entry with [rotation: 0] is parsed to
    the mirror an entry without rotation gives, at 45 degrees ([PI/4]), not
    to a mirror at 0 radians: the number 0 fails the test
    [cellData.rotation ? ... : ...]. *)
Theorem RotatableMirror_rotation_zero_is_default :
  parseCell (mkCellData "RotatableMirror" None (Some (Fin 0)))
  = RotatableMirrorCell (Fin (1 / 4 * Rtrigo1.PI)) /\
  parseCell (mkCellData "RotatableMirror" None None)
  = RotatableMirrorCell (Fin (1 / 4 * Rtrigo1.PI)) /\
  RotatableMirrorCell (Fin (1 / 4 * Rtrigo1.PI)) <> RotatableMirrorCell (Fin 0).
Proof.
  split; [| split].
  - cbn. rewrite (Reqb_true 0 0) by reflexivity. cbn.
    rewrite (Reqb_false 4 0) by lra. reflexivity.
  - cbn. rewrite (Reqb_false 4 0) by lra. reflexivity.
  - intros H. injection H as H. pose proof Rtrigo1.PI_RGT_0. lra.
Qed.

(** What [parseCell] does with the other rotations: a non-zero [rotation]
    is converted from degrees to radians, a [Cross] gets rotation 0 when the
    field is absent or 0. *)
Lemma parseCell_rotation_nonzero (color : option string) (r : R) :
  r <> 0 ->
  parseCell (mkCellData "RotatableMirror" color (Some (Fin r)))
  = RotatableMirrorCell (Fin (r / 180 * Rtrigo1.PI)) /\
  parseCell (mkCellData "Cross" color (Some (Fin r)))
  = CrossCell (Fin (r / 180 * Rtrigo1.PI)) (Num.PI / Fin 16)%num.
Proof.
  intros Hr. split; cbn; rewrite (Reqb_false r 0) by exact Hr; cbn;
    rewrite (Reqb_false 180 0) by lra; reflexivity.
Qed.

Lemma parseCell_Cross_default (color : option string) :
  parseCell (mkCellData "Cross" color None) = CrossCell (Fin 0) (Num.PI / Fin 16)%num /\
  parseCell (mkCellData "Cross" color (Some (Fin 0)))
  = CrossCell (Fin 0) (Num.PI / Fin 16)%num.
Proof.
  split; cbn; [reflexivity |].
  rewrite (Reqb_true 0 0) by reflexivity. reflexivity.
Qed.

(** ** The gauge *)

Lemma updateAndRender_gauge (fuel : nat) (g g' : Game) :
  updateAndRender fuel g = Ok g' -> gaugeValue g' = gaugeValue g.
Proof.
  unfold updateAndRender. destruct (dirty g).
  - destruct (trackRays fuel _ _) as [[grid1 traced] | |]; cbn [bind];
      try discriminate.
    destruct (Renderer_render grid1 traced); cbn [bind]; try discriminate.
    intros H; injection H as <-; reflexivity.
  - destruct (Renderer_render (grid g) (result g)); cbn [bind]; try discriminate.
    intros H; injection H as <-; reflexivity.
Qed.

(** C5: for a running game with the gauge in [[0,1]] and a time step
    [deltaTime >= 0], the gauge written by [gameLoop] is
    [min(gauge + 0.3 * (deltaTime / 1000), 1)] when all targets are hit and
    [max(0, gauge - 4 * (deltaTime / 1000))] otherwise, it lies in [[0,1]],
    and it is the gauge of the game whenever [gameLoop] completes. *)
Theorem gameLoop_keeps_gauge_in_unit_interval :
  forall (g : Game) (gauge last now : R),
    isGameRunning g = true ->
    gaugeValue g = Fin gauge ->
    lastTimestamp g = Fin last ->
    0 <= now - last ->
    0 <= gauge <= 1 ->
    let deltaTime := now - last in
    let gauge' :=
      if checkWinCondition g
      then Rmin (gauge + 0.3 * (deltaTime / 1000)) 1
      else Rmax 0 (gauge - 4 * (deltaTime / 1000)) in
    gaugeValue (gameLoop_gauge (Fin now) g) = Fin gauge' /\
    0 <= gauge' <= 1 /\
    forall (fuel : nat) (g' : Game),
      gameLoop fuel (Fin now) g = Ok g' -> gaugeValue g' = Fin gauge'.
Proof.
  intros g gauge last now Hrun Hg Hlast Hdt Hrange deltaTime gauge'.
  assert (Hstep : gaugeValue (gameLoop_gauge (Fin now) g) = Fin gauge').
  { unfold gameLoop_gauge, gauge', deltaTime, GAUGE_FILL_RATE, GAUGE_DECAY_RATE.
    cbn. rewrite Hg, Hlast. cbn.
    rewrite (Reqb_false 1000 0) by lra. cbn.
    destruct (checkWinCondition g); cbn; f_equal.
    - unfold Rmin.
      destruct (Rle_dec (gauge + 0.3 * ((now - last) / 1000)) 1);
        [rewrite Rltb_false by lra | rewrite Rltb_true by lra]; reflexivity.
    - unfold Rmax.
      destruct (Rle_dec 0 (gauge - 4 * ((now - last) / 1000)));
        [destruct (Rltb 0 _) eqn:E; [reflexivity |];
         apply Bool.not_true_iff_false in E; rewrite Rltb_iff in E; f_equal; lra
        | rewrite Rltb_false by lra; reflexivity]. }
  split; [exact Hstep |]. split.
  - unfold gauge', deltaTime. destruct (checkWinCondition g).
    + unfold Rmin. destruct (Rle_dec _ 1); lra.
    + unfold Rmax. destruct (Rle_dec 0 _); lra.
  - intros fuel g'. unfold gameLoop. rewrite Hrun. cbn [negb].
    destruct (updateAndRender fuel (gameLoop_gauge (Fin now) g)) as [g2 | |] eqn:E2;
      cbn [bind]; try discriminate.
    apply updateAndRender_gauge in E2.
    destruct ((gaugeValue g2 >=? Fin 1)%num && negb (isLevelClear g2)).
    + unfold handleLevelClear. intros H. apply updateAndRender_gauge in H.
      cbn [gaugeValue] in H. congruence.
    + intros H; injection H as <-. congruence.
Qed.

(** ** The win condition *)

Lemma CellRef_eqb_eq (a b : CellRef) : CellRef_eqb a b = true <-> a = b.
Proof.
  destruct a as [a1 a2], b as [b1 b2]. unfold CellRef_eqb; simpl.
  rewrite Bool.andb_true_iff, !Nat.eqb_eq. split.
  - intros [-> ->]; reflexivity.
  - intros H; injection H as -> ->; split; reflexivity.
Qed.

Lemma every_target_in_hitTargets (grid : Grid) (targets : list CellRef) :
  forallb (fun target =>
             existsb (CellRef_eqb target) (filter (target_receive grid) targets))
          targets = true
  <-> forall target, In target targets -> target_receive grid target = true.
Proof.
  rewrite forallb_forall. split; intros H target Hin.
  - specialize (H target Hin). apply existsb_exists in H.
    destruct H as [hit [Hhit Heq]]. apply CellRef_eqb_eq in Heq. subst hit.
    apply filter_In in Hhit. tauto.
  - apply existsb_exists. exists target. split.
    + apply filter_In. auto.
    + apply CellRef_eqb_eq. reflexivity.
Qed.

(** C6: with an empty [targetCells], [checkWinCondition] is false whatever
    the rest of the game state; with a non-empty one it is true exactly when
    the [receive] flag of every target is true. *)
Theorem checkWinCondition_spec :
  forall (g : Game),
    (targetCells g = [] -> checkWinCondition g = false) /\
    (targetCells g <> [] ->
     (checkWinCondition g = true
      <-> forall target, In target (targetCells g) ->
                         target_receive (grid g) target = true)).
Proof.
  intros g. unfold checkWinCondition. split.
  - intros ->. reflexivity.
  - intros Hne. destruct (targetCells g) as [| t ts] eqn:E; [contradiction |].
    cbn [List.length Nat.eqb]. apply every_target_in_hitTargets.
Qed.

Lemma gameLoop_keeps_gauge_in_unit_interval_witness :
  (isGameRunning game_one_lit_target = true /\
   0 <= 16 - 0 /\ 0 <= 0.5 <= 1) /\
  gaugeValue (gameLoop_gauge (Fin 16) game_one_lit_target)
  = Fin (Rmin (0.5 + 0.3 * ((16 - 0) / 1000)) 1) /\
  0 <= Rmin (0.5 + 0.3 * ((16 - 0) / 1000)) 1 <= 1.
Proof.
  split; [split; [reflexivity | lra] |].
  assert (H1 : 0 <= 16 - 0) by lra.
  assert (H2 : 0 <= 0.5 <= 1) by lra.
  pose proof (gameLoop_keeps_gauge_in_unit_interval
                game_one_lit_target 0.5 0 16 eq_refl eq_refl eq_refl H1 H2) as H.
  split; [exact (proj1 H) | exact (proj1 (proj2 H))].
Defined.

Lemma checkWinCondition_spec_witness :
  (targetCells game_without_target = [] /\
   checkWinCondition game_without_target = false) /\
  (targetCells game_lit_and_unlit_target <> [] /\
   (checkWinCondition game_lit_and_unlit_target = true
    <-> forall target, In target (targetCells game_lit_and_unlit_target) ->
          target_receive (grid game_lit_and_unlit_target) target = true)).
Proof.
  split.
  - split; [reflexivity |].
    apply (proj1 (checkWinCondition_spec game_without_target)). reflexivity.
  - split; [discriminate |].
    apply (proj2 (checkWinCondition_spec game_lit_and_unlit_target)). discriminate.
Defined.

(** ** The cross cell with an empty slot *)

(** With [width = 0] the slot test [-0.5*sin_w < v && v < 0.5*sin_w] fails
    for every number. *)
Lemma empty_slot (v : num) :
  ((Fin (-0.5) * Fin 0 <? v) && (v <? Fin 0.5 * Fin 0))%num = false.
Proof.
  destruct v as [r | | |]; cbn; try reflexivity.
  destruct (Rltb (-0.5 * 0) r) eqn:E1; [| reflexivity].
  apply Rltb_iff in E1. cbn. apply Rltb_false. lra.
Qed.

(** A cross of width 0 stops every ray that the broad phase does not let
    through. *)
Lemma CrossCell_width_zero (rotation : num) (start direction : vec) :
  (Num.abs (fst start * snd direction - snd start * fst direction) >? Fin 0.5)%num
  = false ->
  exists hit,
    CrossCell_interact rotation (Fin 0) start direction
    = ([mkSegment hit direction], true).
Proof.
  intros Hbroad. unfold CrossCell_interact. rewrite Hbroad. cbv zeta.
  change (Num.sin (Fin 0)) with (Fin (sin 0)). rewrite sin_0.
  rewrite !empty_slot. cbn [andb orb].
  destruct (Num.ge _ (Fin 0)); eexists; reflexivity.
Qed.

(** C9: a cross cell of slot half-width 0, at any rotation, ends every ray
    whose line passes through the cell centre (unit direction): the result is
    one segment with [terminate = true], never [([], false)]. *)
Theorem CrossCell_width_zero_centre_ray_terminates :
  forall (rotation : num) (s_x s_y d_x d_y : R),
    d_x * d_x + d_y * d_y = 1 ->
    s_x * d_y - s_y * d_x = 0 ->
    let start := (Fin s_x, Fin s_y) in
    let direction := (Fin d_x, Fin d_y) in
    (exists hit,
       CrossCell_interact rotation (Fin 0) start direction
       = ([mkSegment hit direction], true)) /\
    CrossCell_interact rotation (Fin 0) start direction <> ([], false).
Proof.
  intros rotation s_x s_y d_x d_y Hunit Hcentre start direction.
  assert (H : exists hit,
             CrossCell_interact rotation (Fin 0) start direction
             = ([mkSegment hit direction], true)).
  { apply CrossCell_width_zero. cbn. unfold Num.gt; cbn.
    rewrite Hcentre, Rabs_R0. apply Rltb_false. lra. }
  split; [exact H |].
  destruct H as [hit ->]. discriminate.
Qed.

Lemma CrossCell_width_zero_centre_ray_terminates_witness :
  (0 * 0 + 1 * 1 = 1 /\ 0 * 1 - -0.5 * 0 = 0) /\
  CrossCell_interact (Fin 0.3) (Fin 0) (Fin 0, Fin (-0.5)) (Fin 0, Fin 1)
  <> ([], false).
Proof.
  split; [split; lra |].
  apply (CrossCell_width_zero_centre_ray_terminates (Fin 0.3) 0 (-0.5) 0 1); lra.
Defined.

(** ** The glass block at normal incidence *)

(** A ray that meets a surface head-on is not bent, whatever the indices. *)
Lemma refract_normal_incidence (n_x n_y n1 n2 : R) :
  n_x * n_x + n_y * n_y = 1 ->
  n2 <> 0 ->
  refract (Fin (- n_x), Fin (- n_y)) (Fin n_x, Fin n_y) (Fin n1) (Fin n2)
  = ((Fin (- n_x), Fin (- n_y)), false).
Proof.
  intros Hn Hn2. unfold refract, dot.
  cbn [fst snd Num.div]. rewrite (Reqb_false n2 0) by exact Hn2.
  cbn [Num.add Num.sub Num.mul Num.neg Num.gt Num.lt].
  assert (Hcos : - (n_x * - n_x + n_y * - n_y) = 1).
  { transitivity (n_x * n_x + n_y * n_y); [ring | exact Hn]. }
  rewrite !Hcos.
  rewrite Rltb_false by lra.
  cbn [Num.sqrt]. rewrite Rltb_false by lra.
  replace (1 - n1 / n2 * (n1 / n2) * (1 - 1 * 1)) with 1 by ring.
  rewrite sqrt_1.
  cbn [Num.add Num.sub Num.mul]. f_equal. f_equal; f_equal; ring.
Qed.

Lemma GlassBlockCell_bounce_S (bounces : nat) (n2 : num) (pos dir : vec) :
  GlassBlockCell_bounce (S bounces) n2 pos dir
  = let t_x := if (fst dir !== Fin 0)%num
               then (((if (fst dir >? Fin 0)%num then Fin 0.5 else Fin (-0.5))
                      - fst pos) / fst dir)%num
               else PInf in
    let t_y := if (snd dir !== Fin 0)%num
               then (((if (snd dir >? Fin 0)%num then Fin 0.5 else Fin (-0.5))
                      - snd pos) / snd dir)%num
               else PInf in
    let t_exit := Num.min t_x t_y in
    let exitPoint := ((fst pos + t_exit * fst dir)%num,
                      (snd pos + t_exit * snd dir)%num) in
    let exitNormal :=
      if (Num.abs (t_x - t_exit) <? Fin 1e-9)%num
      then ((- Num.sign (fst dir))%num, Fin 0)
      else (Fin 0, (- Num.sign (snd dir))%num) in
    let '(exitDirection, exitReflecting) := refract dir exitNormal n2 (Fin 1) in
    mkSegment exitPoint exitDirection ::
    (if negb exitReflecting then []
     else GlassBlockCell_bounce bounces n2 exitPoint exitDirection).
Proof. reflexivity. Qed.

(** Computation with the operations of [num], without unfolding the
    loops. *)
Ltac num_compute :=
  unfold Num.neq, Num.gt, Num.ge;
  cbn [fst snd Num.add Num.sub Num.mul Num.div Num.neg Num.lt Num.le Num.gt
       Num.ge Num.eq Num.neq Num.abs Num.sign Num.sqrt Num.min Num.max
       Num.inf_of_sign negb andb orb].

Ltac num_eval := repeat (progress (num_compute; rdecide)).

(** Equality of results, component by component, down to the real numbers,
    which linear arithmetic compares. *)
Ltac data_eq :=
  repeat match goal with
  | |- (_, _) = (_, _) => f_equal
  | |- _ :: _ = _ :: _ => f_equal
  | |- mkSegment _ _ = mkSegment _ _ => f_equal
  | |- Fin _ = Fin _ => apply f_equal; lra
  | |- ?a = ?a => reflexivity
  end.

Lemma refract_head_on (i_x i_y n_x n_y n1 n2 : R) :
  i_x = - n_x -> i_y = - n_y ->
  n_x * n_x + n_y * n_y = 1 ->
  n2 <> 0 ->
  refract (Fin i_x, Fin i_y) (Fin n_x, Fin n_y) (Fin n1) (Fin n2)
  = ((Fin i_x, Fin i_y), false).
Proof.
  intros -> -> Hn Hn2. apply refract_normal_incidence; assumption.
Qed.

(** A glass block entered head-on through one of its four faces lets the
    ray straight through: an entry and an exit segment, both with the
    incoming direction. *)
Lemma GlassBlockCell_head_on (refractiveIndices : list (string * num))
    (color : Color) (n : R) (n_x n_y d_x d_y s_x s_y : R) :
  get_property refractiveIndices (property_key color) = Some (Fin n) ->
  n <> 0 ->
  (n_x, n_y) = (1, 0) \/ (n_x, n_y) = (-1, 0) \/
  (n_x, n_y) = (0, 1) \/ (n_x, n_y) = (0, -1) ->
  d_x = - n_x -> d_y = - n_y ->
  s_x * n_x + s_y * n_y = 0.5 ->
  GlassBlockCell_interact refractiveIndices (Fin s_x, Fin s_y) (Fin d_x, Fin d_y)
                          (Fin n_x, Fin n_y) color
  = ([mkSegment (Fin s_x, Fin s_y) (Fin d_x, Fin d_y);
      mkSegment (Fin (s_x - n_x), Fin (s_y - n_y)) (Fin d_x, Fin d_y)], false).
Proof.
  intros Hidx Hn0 Hn Hdx Hdy Hs.
  unfold GlassBlockCell_interact. rewrite Hidx. cbn [to_number].
  destruct Hn as [Hn | [Hn | [Hn | Hn]]]; injection Hn as -> ->.
  all: try replace (- (1)) with (-1) in * by lra;
    try replace (- (-1)) with 1 in * by lra;
    try replace (- 0) with 0 in * by lra; subst d_x d_y.
  all: rewrite refract_head_on by lra; cbn [app];
    rewrite GlassBlockCell_bounce_S; cbv zeta; num_eval;
    rewrite refract_head_on by lra; cbn [negb];
    data_eq.
Qed.

(** C8: a glass block whose index for the beam's colour is 1.5, entered
    head-on through one of its four faces (direction opposite to the face
    normal, start on that face), returns exactly two segments, the entry
    segment and the exit segment, both with the incoming direction, the exit
    point lying on the opposite face, and [terminate = false]. *)
Theorem GlassBlockCell_normal_incidence_passes_straight :
  forall (refractiveIndices : list (string * num)) (color : Color)
         (n_x n_y s_x s_y : R),
    get_property refractiveIndices (property_key color) = Some (Fin 1.5) ->
    (n_x, n_y) = (1, 0) \/ (n_x, n_y) = (-1, 0) \/
    (n_x, n_y) = (0, 1) \/ (n_x, n_y) = (0, -1) ->
    s_x * n_x + s_y * n_y = 0.5 ->
    let start := (Fin s_x, Fin s_y) in
    let direction := (Fin (- n_x), Fin (- n_y)) in
    let normal := (Fin n_x, Fin n_y) in
    let exitPoint := (Fin (s_x - n_x), Fin (s_y - n_y)) in
    GlassBlockCell_interact refractiveIndices start direction normal color
    = ([mkSegment start direction; mkSegment exitPoint direction], false) /\
    (s_x - n_x) * n_x + (s_y - n_y) * n_y = -0.5.
Proof.
  intros refractiveIndices color n_x n_y s_x s_y Hidx Hn Hs
         start direction normal exitPoint.
  split.
  - apply (GlassBlockCell_head_on refractiveIndices color 1.5); auto. lra.
  - destruct Hn as [Hn | [Hn | [Hn | Hn]]]; injection Hn as -> ->; lra.
Qed.

Lemma GlassBlockCell_normal_incidence_passes_straight_witness :
  (get_property default_refractiveIndices (property_key (Some "red"%string))
   = Some (Fin 1.5) /\
   0.25 * 0 + -0.5 * -1 = 0.5) /\
  GlassBlockCell_interact default_refractiveIndices
    (Fin 0.25, Fin (-0.5)) (Fin (- 0), Fin (- -1)) (Fin 0, Fin (-1))
    (Some "red"%string)
  = ([mkSegment (Fin 0.25, Fin (-0.5)) (Fin (- 0), Fin (- -1));
      mkSegment (Fin (0.25 - 0), Fin (-0.5 - -1)) (Fin (- 0), Fin (- -1))],
     false).
Proof.
  split; [split; [reflexivity | lra] |].
  apply (GlassBlockCell_normal_incidence_passes_straight
           default_refractiveIndices (Some "red"%string) 0 (-1) 0.25 (-0.5)).
  - reflexivity.
  - right; right; right; reflexivity.
  - lra.
Defined.

(** ** Directions stay finite and non-zero *)

(** [reflect] on finite vectors, with a unit normal: a finite vector of the
    same squared length. *)
Lemma reflect_fin (d_x d_y n_x n_y : R) :
  n_x * n_x + n_y * n_y = 1 ->
  exists o_x o_y,
    reflect (Fin d_x, Fin d_y) (Fin n_x, Fin n_y) = (Fin o_x, Fin o_y) /\
    o_x * o_x + o_y * o_y = d_x * d_x + d_y * d_y.
Proof.
  intros Hn. unfold reflect, dot. cbn [fst snd Num.add Num.sub Num.mul].
  eexists; eexists; split; [reflexivity |].
  set (D := d_x * n_x + d_y * n_y).
  transitivity (d_x * d_x + d_y * d_y
                - 4 * D * D * (1 - (n_x * n_x + n_y * n_y))); [unfold D; ring |].
  rewrite Hn; ring.
Qed.

Lemma refract_norm_identity (r c ct i_x i_y n_x n_y : R) :
  n_x * n_x + n_y * n_y = 1 ->
  c = - (n_x * i_x + n_y * i_y) ->
  ct * ct = 1 - r * r * (1 - c * c) ->
  (r * i_x + (r * c - ct) * n_x) * (r * i_x + (r * c - ct) * n_x)
  + (r * i_y + (r * c - ct) * n_y) * (r * i_y + (r * c - ct) * n_y)
  = 1 - r * r * (1 - (i_x * i_x + i_y * i_y)).
Proof.
  intros Hn Hc Hct.
  transitivity (r * r * (i_x * i_x + i_y * i_y)
                + 2 * r * (r * c - ct) * (n_x * i_x + n_y * i_y)
                + (r * c - ct) * (r * c - ct) * (n_x * n_x + n_y * n_y)); [ring |].
  rewrite Hn.
  replace (n_x * i_x + n_y * i_y) with (- c) by lra.
  transitivity (r * r * (i_x * i_x + i_y * i_y) - r * r * c * c + ct * ct); [ring |].
  rewrite Hct. ring.
Qed.

(** [refract] on finite vectors, with a unit normal and a non-zero second
    index: a finite vector; its squared length is that of the incident vector
    when the ray is reflected, and [1 - (n1/n2)^2 * (1 - |i|^2)] when it is
    refracted. *)
Lemma refract_fin (i_x i_y n_x n_y n1 n2 : R) :
  n_x * n_x + n_y * n_y = 1 ->
  n2 <> 0 ->
  exists o_x o_y flag,
    refract (Fin i_x, Fin i_y) (Fin n_x, Fin n_y) (Fin n1) (Fin n2)
    = ((Fin o_x, Fin o_y), flag) /\
    (flag = true -> o_x * o_x + o_y * o_y = i_x * i_x + i_y * i_y) /\
    (flag = false ->
     o_x * o_x + o_y * o_y
     = 1 - n1 / n2 * (n1 / n2) * (1 - (i_x * i_x + i_y * i_y))).
Proof.
  intros Hn Hn2. unfold refract.
  cbn [Num.div]. rewrite (Reqb_false n2 0) by exact Hn2.
  unfold dot, Num.gt. cbn [fst snd Num.add Num.sub Num.mul Num.neg Num.lt].
  set (r := n1 / n2). set (c := - (n_x * i_x + n_y * i_y)).
  destruct (Rltb 1 (r * r * (1 - c * c))) eqn:E.
  - destruct (reflect_fin i_x i_y n_x n_y Hn) as [o_x [o_y [Ho Hlen]]].
    exists o_x, o_y, true. rewrite Ho. split; [reflexivity |].
    split; [intros _; exact Hlen | discriminate].
  - apply Bool.not_true_iff_false in E. rewrite Rltb_iff in E.
    cbn [Num.sqrt]. rewrite Rltb_false by lra.
    cbn [Num.add Num.sub Num.mul].
    eexists; eexists; exists false. split; [reflexivity |].
    split; [discriminate | intros _].
    apply refract_norm_identity; [exact Hn | reflexivity |].
    apply sqrt_sqrt. lra.
Qed.

(** The parameter at which a ray leaves the unit square along one axis. *)
Lemma exit_time_fin (d p : R) :
  d <> 0 ->
  exists t,
    (if (Fin d !== Fin 0)%num
     then (((if (Fin d >? Fin 0)%num then Fin 0.5 else Fin (-0.5)) - Fin p)
           / Fin d)%num
     else PInf) = Fin t.
Proof.
  intros Hd. unfold Num.neq, Num.gt. cbn [Num.eq Num.lt].
  rewrite (Reqb_false d 0) by exact Hd. cbn [negb].
  destruct (Rltb 0 d); cbn [Num.sub Num.div];
    rewrite (Reqb_false d 0) by exact Hd; eexists; reflexivity.
Qed.

Lemma exit_time_inf (p : num) :
  (if (Fin 0 !== Fin 0)%num
   then (((if (Fin 0 >? Fin 0)%num then Fin 0.5 else Fin (-0.5)) - p)
         / Fin 0)%num
   else PInf) = PInf.
Proof.
  unfold Num.neq. cbn [Num.eq]. rewrite (Reqb_true 0 0) by reflexivity.
  reflexivity.
Qed.

(** The normal of the face crossed along an axis on which the ray moves. *)
Lemma axis_normal_unit (d : R) :
  d <> 0 ->
  exists e, (- Num.sign (Fin d))%num = Fin e /\ e * e = 1.
Proof.
  intros Hd. cbn [Num.sign].
  destruct (Rltb 0 d) eqn:E1.
  - exists (- (1)). split; [reflexivity | ring].
  - destruct (Rltb d 0) eqn:E2.
    + exists (- (-1)). split; [reflexivity | lra].
    + apply Bool.not_true_iff_false in E1, E2. rewrite Rltb_iff in E1, E2. lra.
Qed.

(** Inside the glass, a ray that moves reaches a face after a finite time,
    and the normal chosen for that face is a unit vector. *)
Lemma glass_exit_data (p_x p_y u v : R) :
  0 < u * u + v * v ->
  let t_x := if (Fin u !== Fin 0)%num
             then (((if (Fin u >? Fin 0)%num then Fin 0.5 else Fin (-0.5))
                    - Fin p_x) / Fin u)%num
             else PInf in
  let t_y := if (Fin v !== Fin 0)%num
             then (((if (Fin v >? Fin 0)%num then Fin 0.5 else Fin (-0.5))
                    - Fin p_y) / Fin v)%num
             else PInf in
  exists t e_x e_y,
    Num.min t_x t_y = Fin t /\
    (if (Num.abs (t_x - Fin t) <? Fin 1e-9)%num
     then ((- Num.sign (Fin u))%num, Fin 0)
     else (Fin 0, (- Num.sign (Fin v))%num)) = (Fin e_x, Fin e_y) /\
    e_x * e_x + e_y * e_y = 1.
Proof.
  intros Hmove t_x t_y. subst t_x t_y.
  destruct (Req_dec_T u 0) as [Hu | Hu]; destruct (Req_dec_T v 0) as [Hv | Hv].
  - subst u v. lra.
  - subst u. rewrite exit_time_inf.
    destruct (exit_time_fin v p_y Hv) as [ty ->].
    destruct (axis_normal_unit v Hv) as [e [-> He]].
    exists ty, 0, e. cbn. split; [reflexivity |]. split; [reflexivity | lra].
  - subst v. rewrite exit_time_inf.
    destruct (exit_time_fin u p_x Hu) as [tx ->].
    destruct (axis_normal_unit u Hu) as [e [-> He]].
    exists tx, e, 0. cbn. split; [reflexivity |].
    replace (tx - tx) with 0 by ring. rewrite Rabs_R0.
    rewrite Rltb_true by lra. split; [reflexivity | lra].
  - destruct (exit_time_fin u p_x Hu) as [tx ->].
    destruct (exit_time_fin v p_y Hv) as [ty ->].
    destruct (axis_normal_unit u Hu) as [e1 [-> He1]].
    destruct (axis_normal_unit v Hv) as [e2 [-> He2]].
    cbn [Num.min Num.lt].
    destruct (Rltb ty tx).
    + exists ty. cbn [Num.sub Num.abs Num.lt].
      destruct (Rltb (Rabs (tx - ty)) 1e-9);
        [exists e1, 0 | exists 0, e2]; (split; [reflexivity |]);
        (split; [reflexivity | lra]).
    + exists tx. cbn [Num.sub Num.abs Num.lt].
      destruct (Rltb (Rabs (tx - tx)) 1e-9);
        [exists e1, 0 | exists 0, e2]; (split; [reflexivity |]);
        (split; [reflexivity | lra]).
Qed.

(** The segments pushed by the loop of the glass block all move, as long as
    the ray inside does and its length is one that refraction from outside
    gives ([n^2 * (1 - |dir|^2) < 1]). *)
Lemma GlassBlockCell_bounce_moving (n : R) :
  1 <= n ->
  forall (bounces : nat) (p_x p_y u v : R),
    0 < u * u + v * v ->
    n * n * (1 - (u * u + v * v)) < 1 ->
    Forall moving
           (GlassBlockCell_bounce bounces (Fin n) (Fin p_x, Fin p_y) (Fin u, Fin v)).
Proof.
  intros Hn bounces. induction bounces as [| k IH]; intros p_x p_y u v Hmove Hlen.
  - constructor.
  - rewrite GlassBlockCell_bounce_S. cbv zeta. cbn [fst snd].
    destruct (glass_exit_data p_x p_y u v Hmove) as [t [e_x [e_y [Hmin [Hnorm He]]]]].
    cbv zeta in Hmin, Hnorm. rewrite Hmin, Hnorm.
    destruct (refract_fin u v e_x e_y n 1 He) as [o_x [o_y [flag [Hr [Ht Hf]]]]];
      [lra |].
    rewrite Hr. cbn [Num.add Num.mul].
    destruct flag; cbn [negb].
    + specialize (Ht eq_refl). constructor.
      * eexists; eexists; exists o_x, o_y. split; [reflexivity | lra].
      * apply IH; rewrite Ht; assumption.
    + specialize (Hf eq_refl). constructor; [| constructor].
      eexists; eexists; exists o_x, o_y. split; [reflexivity |].
      rewrite Hf. replace (n / 1) with n by field. lra.
Qed.

Lemma GlassBlockCell_bounce_length (n2 : num) (bounces : nat) :
  forall (pos dir : vec),
    (List.length (GlassBlockCell_bounce bounces n2 pos dir) <= bounces)%nat.
Proof.
  induction bounces as [| k IH]; intros pos dir.
  - apply Nat.le_refl.
  - rewrite GlassBlockCell_bounce_S. cbv zeta.
    destruct (refract dir _ n2 (Fin 1)) as [exitDirection exitReflecting].
    destruct exitReflecting; cbn [negb List.length].
    + apply le_n_S. apply IH.
    + apply le_n_S. apply Nat.le_0_l.
Qed.

Lemma GlassBlockCell_interact_moving (refractiveIndices : list (string * num))
    (color : Color) (n p_x p_y d_x d_y n_x n_y : R) :
  get_property refractiveIndices (property_key color) = Some (Fin n) ->
  1 <= n ->
  0 < d_x * d_x + d_y * d_y ->
  n_x * n_x + n_y * n_y = 1 ->
  exists segments,
    GlassBlockCell_interact refractiveIndices (Fin p_x, Fin p_y) (Fin d_x, Fin d_y)
                            (Fin n_x, Fin n_y) color = (segments, false) /\
    Forall moving segments.
Proof.
  intros Hidx Hn Hmove Hunit. unfold GlassBlockCell_interact.
  rewrite Hidx. cbn [to_number].
  destruct (refract_fin d_x d_y n_x n_y 1 n Hunit) as [o_x [o_y [flag [Hr [Ht Hf]]]]];
    [lra |].
  rewrite Hr.
  assert (Hinv : 0 < / n <= 1).
  { split; [apply Rinv_0_lt_compat; lra |].
    rewrite <- Rinv_1. apply Rinv_le_contravar; lra. }
  assert (Hratio : 1 / n = / n) by (unfold Rdiv; ring).
  destruct flag.
  - specialize (Ht eq_refl). eexists. split; [reflexivity |].
    constructor; [| constructor].
    exists p_x, p_y, o_x, o_y. split; [reflexivity | lra].
  - specialize (Hf eq_refl). rewrite Hratio in Hf. eexists. split; [reflexivity |].
    assert (Hsq : 0 < / n * / n <= 1) by nra.
    assert (Hone : n * n * (/ n * / n) = 1) by (field; lra).
    assert (Ho : 0 < o_x * o_x + o_y * o_y) by (rewrite Hf; nra).
    apply Forall_app. split.
    + constructor; [| constructor].
      exists p_x, p_y, o_x, o_y. split; [reflexivity | exact Ho].
    + apply GlassBlockCell_bounce_moving; [exact Hn | exact Ho |].
      rewrite Hf.
      replace (n * n * (1 - (1 - / n * / n * (1 - (d_x * d_x + d_y * d_y)))))
        with (n * n * (/ n * / n) * (1 - (d_x * d_x + d_y * d_y))) by ring.
      rewrite Hone. lra.
Qed.

Lemma GlassBlockCell_interact_length (refractiveIndices : list (string * num))
    (start direction norm : vec) (color : Color) :
  (List.length (fst (GlassBlockCell_interact refractiveIndices start direction
                                             norm color)) <= 101)%nat.
Proof.
  unfold GlassBlockCell_interact.
  destruct (refract direction norm _ _) as [entryDirection entryReflecting].
  destruct entryReflecting; cbn [fst].
  - cbn. lia.
  - rewrite length_app. cbn [List.length].
    pose proof (GlassBlockCell_bounce_length
                  (to_number (get_property refractiveIndices (property_key color)))
                  100 start entryDirection).
    lia.
Qed.

(** The intersection of a finite ray with a finite segment is a finite
    point. *)
Lemma getLineSegmentIntersection_fin (s_x s_y d_x d_y a_x a_y b_x b_y : R) (p : vec) :
  getLineSegmentIntersection (Fin s_x, Fin s_y) (Fin d_x, Fin d_y)
                             (Fin a_x, Fin a_y) (Fin b_x, Fin b_y) = Some p ->
  exists q_x q_y, p = (Fin q_x, Fin q_y).
Proof.
  unfold getLineSegmentIntersection, dot.
  cbn [fst snd Num.add Num.sub Num.mul Num.neg Num.abs Num.lt].
  set (D := (b_x - a_x) * - d_y + (b_y - a_y) * d_x).
  destruct (Rltb (Rabs D) 1e-9) eqn:E; [discriminate |].
  assert (HD : D <> 0).
  { intros HD. rewrite HD, Rabs_R0 in E.
    rewrite Rltb_true in E by lra. discriminate. }
  cbn [Num.div]. rewrite (Reqb_false D 0) by exact HD.
  cbn [Num.add Num.mul].
  destruct (_ && _ && _); [| discriminate].
  intros H; injection H as <-. eexists; eexists; reflexivity.
Qed.

Lemma RotatableMirrorCell_interact_moving (rotation : num) (p_x p_y d_x d_y : R) :
  0 < d_x * d_x + d_y * d_y ->
  exists segments,
    RotatableMirrorCell_interact rotation (Fin p_x, Fin p_y) (Fin d_x, Fin d_y)
    = (segments, false) /\
    Forall moving segments /\ (List.length segments <= 1)%nat.
Proof.
  intros Hmove. unfold RotatableMirrorCell_interact.
  destruct rotation as [a | | |].
  2-4: (exists []; split; [reflexivity | split; [constructor | apply Nat.le_0_l]]).
  cbv zeta. cbn [Num.cos Num.sin Num.mul].
  destruct (getLineSegmentIntersection _ _ _ _) as [p |] eqn:E.
  2:{ exists []. split; [reflexivity | split; [constructor | apply Nat.le_0_l]]. }
  apply getLineSegmentIntersection_fin in E. destruct E as [q_x [q_y ->]].
  cbn [fst snd Num.sub Num.neg Num.mul Num.add Num.sqrt].
  set (c := Rtrigo_def.cos a). set (s := Rtrigo_def.sin a).
  assert (Hcs : s * s + c * c = 1).
  { pose proof (sin2_cos2 a) as H. unfold Rsqr in H. exact H. }
  assert (HL : - (0.5 * s - -0.5 * s) * - (0.5 * s - -0.5 * s)
               + (0.5 * c - -0.5 * c) * (0.5 * c - -0.5 * c) = 1).
  { transitivity (s * s + c * c); [lra | exact Hcs]. }
  rewrite HL. rewrite Rltb_false by lra. rewrite sqrt_1.
  cbn [Num.div]. rewrite (Reqb_false 1 0) by lra.
  set (m_x := - (0.5 * s - -0.5 * s) / 1). set (m_y := (0.5 * c - -0.5 * c) / 1).
  assert (Hm : m_x * m_x + m_y * m_y = 1).
  { unfold m_x, m_y.
    transitivity (- (0.5 * s - -0.5 * s) * - (0.5 * s - -0.5 * s)
                  + (0.5 * c - -0.5 * c) * (0.5 * c - -0.5 * c)); [field | exact HL]. }
  destruct (Num.gt (dot (Fin d_x, Fin d_y) (Fin m_x, Fin m_y)) (Fin 0)).
  - cbn [fst snd Num.mul].
    destruct (reflect_fin d_x d_y (m_x * -1) (m_y * -1)) as [o_x [o_y [-> Ho]]];
      [transitivity (m_x * m_x + m_y * m_y); [ring | exact Hm] |].
    eexists. split; [reflexivity |]. split; [| apply Nat.le_refl].
    constructor; [| constructor].
    exists q_x, q_y, o_x, o_y. split; [reflexivity | lra].
  - destruct (reflect_fin d_x d_y m_x m_y Hm) as [o_x [o_y [-> Ho]]].
    eexists. split; [reflexivity |]. split; [| apply Nat.le_refl].
    constructor; [| constructor].
    exists q_x, q_y, o_x, o_y. split; [reflexivity | lra].
Qed.

(** A cross cell lets the ray through untouched or ends it. *)
Lemma CrossCell_interact_cases (rotation width : num) (start direction : vec) :
  CrossCell_interact rotation width start direction = ([], false) \/
  exists hit,
    CrossCell_interact rotation width start direction
    = ([mkSegment hit direction], true).
Proof.
  unfold CrossCell_interact.
  destruct (Num.gt _ _); [left; reflexivity |].
  cbv zeta.
  destruct (Num.ge _ _); [| right; eexists; reflexivity].
  destruct (_ && _ && _ && _); [left; reflexivity |].
  destruct (_ && _ && _ && _); [left; reflexivity |].
  right; eexists; reflexivity.
Qed.

(** What a cell gives back to the tracer, for a finite entry point, a
    finite non-zero direction and a unit normal: at most 101 segments, and,
    unless the cell ends the beam, segments that all move. *)
Lemma interact_moving (color : Color) (cell : Cell)
    (p_x p_y d_x d_y n_x n_y : R) :
  cell_ok color cell ->
  0 < d_x * d_x + d_y * d_y ->
  n_x * n_x + n_y * n_y = 1 ->
  exists cell' segments terminate,
    interact cell (Fin p_x, Fin p_y) (Fin d_x, Fin d_y) (Fin n_x, Fin n_y) color
    = (cell', (segments, terminate)) /\
    cell_ok color cell' /\
    (List.length segments <= 101)%nat /\
    (terminate = false -> Forall moving segments).
Proof.
  intros Hok Hmove Hunit. destruct cell as [| own | receive | rotation width
                                            | refractiveIndices | | rotation];
    cbn [interact].
  - exists EmptyCell, [], false. repeat split; cbn; auto with arith.
  - unfold BlockCell_interact. destruct (color_strict_eq color own).
    + exists (BlockCell own), [], false. repeat split; cbn; auto with arith.
    + eexists; eexists; exists true. split; [reflexivity |].
      repeat split; cbn; [lia | discriminate].
  - eexists; eexists; exists true. split; [reflexivity |].
    repeat split; cbn; [lia | discriminate].
  - destruct (CrossCell_interact_cases rotation width (Fin p_x, Fin p_y)
                                       (Fin d_x, Fin d_y)) as [-> | [hit ->]].
    + eexists; exists [], false. repeat split; cbn; auto with arith.
    + eexists; eexists; exists true. split; [reflexivity |].
      repeat split; cbn; [lia | discriminate].
  - destruct Hok as [n [Hidx Hn]].
    destruct (GlassBlockCell_interact_moving refractiveIndices color n
                p_x p_y d_x d_y n_x n_y Hidx Hn Hmove Hunit) as [segments [E Hseg]].
    pose proof (GlassBlockCell_interact_length refractiveIndices (Fin p_x, Fin p_y)
                  (Fin d_x, Fin d_y) (Fin n_x, Fin n_y) color) as Hlen.
    rewrite E in *. cbn [fst] in Hlen.
    eexists; exists segments, false. split; [reflexivity |].
    split; [exists n; auto |]. split; [exact Hlen | intros _; exact Hseg].
  - unfold FixedMirrorCell_interact.
    destruct (reflect_fin d_x d_y n_x n_y Hunit) as [o_x [o_y [-> Ho]]].
    eexists; eexists; exists false. split; [reflexivity |].
    repeat split; cbn; [lia |]. intros _. constructor; [| constructor].
    exists p_x, p_y, o_x, o_y. split; [reflexivity | lra].
  - destruct (RotatableMirrorCell_interact_moving rotation p_x p_y d_x d_y Hmove)
      as [segments [-> [Hseg Hlen]]].
    eexists; exists segments, false. split; [reflexivity |].
    repeat split; [lia | intros _; exact Hseg].
Qed.

(** ** Termination of the tracer *)

Lemma push_segments_fin (segments : list Segment) :
  Forall moving segments ->
  forall (count : nat) (a b u v : R) (col row : Z) (p_x p_y n_x n_y : R)
         (points : list vec),
    0 < u * u + v * v ->
    exists a' b' u' v' points',
      fold_left push_segment segments
                (fin_state count a b u v col row p_x p_y n_x n_y points)
      = fin_state (count + List.length segments) a' b' u' v' col row
                  p_x p_y n_x n_y points' /\
      0 < u' * u' + v' * v'.
Proof.
  induction 1 as [| s rest Hs Hrest IH];
    intros count a b u v col row p_x p_y n_x n_y points Hmove.
  - exists a, b, u, v, points. cbn [fold_left List.length].
    rewrite Nat.add_0_r. split; [reflexivity | exact Hmove].
  - destruct Hs as [s_x [s_y [d_x [d_y [-> Hd]]]]].
    cbn [fold_left]. unfold push_segment at 2.
    cbn [fin_state seg_start seg_direction fst snd interactionCount cx cy x y
         normal path Num.add].
    destruct (IH (S count) (s_x + IZR col + 0.5) (s_y + IZR row + 0.5) d_x d_y
                 col row p_x p_y n_x n_y
                 (points ++ [(Fin (s_x + IZR col + 0.5), Fin (s_y + IZR row + 0.5))])
                 Hd)
      as [a' [b' [u' [v' [points' [E Hmove']]]]]].
    exists a', b', u', v', points'. split; [| exact Hmove'].
    unfold fin_state in E |- *. rewrite E. cbn [List.length].
    rewrite Nat.add_succ_r. reflexivity.
Qed.

(** The parameter at which the ray meets the next grid line along an axis. *)
Lemma grid_time_fin (d a c : R) :
  d <> 0 ->
  exists t,
    (if (Fin d !== Fin 0)%num
     then (((if (Fin d >? Fin 0)%num then (Fin c + Fin 1)%num else Fin c) - Fin a)
           / Fin d)%num
     else PInf) = Fin t.
Proof.
  intros Hd. unfold Num.neq, Num.gt. cbn [Num.eq Num.lt].
  rewrite (Reqb_false d 0) by exact Hd. cbn [negb].
  destruct (Rltb 0 d); cbn [Num.add Num.sub Num.div];
    rewrite (Reqb_false d 0) by exact Hd; eexists; reflexivity.
Qed.

Lemma grid_time_inf (a c : num) :
  (if (Fin 0 !== Fin 0)%num
   then (((if (Fin 0 >? Fin 0)%num then (c + Fin 1)%num else c) - a) / Fin 0)%num
   else PInf) = PInf.
Proof.
  unfold Num.neq. cbn [Num.eq]. rewrite (Reqb_true 0 0) by reflexivity.
  reflexivity.
Qed.

(** One step of a cell index along an axis on which the ray moves. *)
Lemma sign_step (d : R) (z : Z) (size : nat) :
  d <> 0 ->
  exists z' e,
    (Fin (IZR z) + Num.sign (Fin d))%num = Fin (IZR z') /\
    (- Num.sign (Fin d))%num = Fin e /\ e * e = 1 /\
    ((0 <= z < Z.of_nat size)%Z -> (0 <= z' < Z.of_nat size)%Z ->
     (toward d z' size < toward d z size)%nat).
Proof.
  intros Hd. unfold toward. cbn [Num.sign].
  destruct (Rltb 0 d) eqn:E1.
  - exists (z + 1)%Z, (- (1)). cbn [Num.add Num.neg].
    rewrite plus_IZR. split; [reflexivity |]. split; [reflexivity |].
    split; [ring | lia].
  - destruct (Rltb d 0) eqn:E2.
    + exists (z + -1)%Z, (- (-1)). cbn [Num.add Num.neg].
      rewrite plus_IZR. split; [reflexivity |]. split; [reflexivity |].
      split; [lra | lia].
    + apply Bool.not_true_iff_false in E1, E2. rewrite Rltb_iff in E1, E2. lra.
Qed.

(** The step to the next grid line keeps the state finite, moves one of the
    two cell indices by one in the sense of the direction, and so brings the
    ray nearer to the edge of the grid. *)
Lemma advance_fin (gridWidth gridHeight : nat) (count : nat) (a b u v : R)
    (col row : Z) (p_x p_y n_x n_y : R) (points : list vec) :
  0 < u * u + v * v ->
  exists col' row' p_x' p_y' n_x' n_y',
    advance (fin_state count a b u v col row p_x p_y n_x n_y points)
    = fin_state count a b u v col' row' p_x' p_y' n_x' n_y' points /\
    n_x' * n_x' + n_y' * n_y' = 1 /\
    (in_grid gridWidth gridHeight col row ->
     in_grid gridWidth gridHeight col' row' ->
     (distance_out gridWidth gridHeight u v col' row'
      < distance_out gridWidth gridHeight u v col row)%nat).
Proof.
  intros Hmove. unfold advance, fin_state.
  cbn [interactionCount sx sy dx dy cx cy x y normal path].
  assert (Hvertical :
    forall tv, u <> 0 ->
      exists col' row' p_x' p_y' n_x' n_y',
        mkTrace count (Fin a) (Fin b) (Fin u) (Fin v)
                (Fin (IZR col) + Num.sign (Fin u))%num (Fin (IZR row))
                (Fin a + Fin u * Fin tv)%num (Fin b + Fin v * Fin tv)%num
                ((- Num.sign (Fin u))%num, Fin 0) points
        = mkTrace count (Fin a) (Fin b) (Fin u) (Fin v) (Fin (IZR col'))
                  (Fin (IZR row')) (Fin p_x') (Fin p_y') (Fin n_x', Fin n_y') points /\
        n_x' * n_x' + n_y' * n_y' = 1 /\
        (in_grid gridWidth gridHeight col row ->
         in_grid gridWidth gridHeight col' row' ->
         (distance_out gridWidth gridHeight u v col' row'
          < distance_out gridWidth gridHeight u v col row)%nat)).
  { intros tv Hu.
    destruct (sign_step u col gridWidth Hu) as [col' [e [-> [-> [He Hdec]]]]].
    exists col', row, (a + u * tv), (b + v * tv), e, 0.
    split; [reflexivity |]. split; [lra |].
    intros [Hc Hr] [Hc' Hr']. unfold distance_out.
    specialize (Hdec Hc Hc'). lia. }
  assert (Hhorizontal :
    forall th, v <> 0 ->
      exists col' row' p_x' p_y' n_x' n_y',
        mkTrace count (Fin a) (Fin b) (Fin u) (Fin v)
                (Fin (IZR col)) (Fin (IZR row) + Num.sign (Fin v))%num
                (Fin a + Fin u * Fin th)%num (Fin b + Fin v * Fin th)%num
                (Fin 0, (- Num.sign (Fin v))%num) points
        = mkTrace count (Fin a) (Fin b) (Fin u) (Fin v) (Fin (IZR col'))
                  (Fin (IZR row')) (Fin p_x') (Fin p_y') (Fin n_x', Fin n_y') points /\
        n_x' * n_x' + n_y' * n_y' = 1 /\
        (in_grid gridWidth gridHeight col row ->
         in_grid gridWidth gridHeight col' row' ->
         (distance_out gridWidth gridHeight u v col' row'
          < distance_out gridWidth gridHeight u v col row)%nat)).
  { intros th Hv.
    destruct (sign_step v row gridHeight Hv) as [row' [e [-> [-> [He Hdec]]]]].
    exists col, row', (a + u * th), (b + v * th), 0, e.
    split; [reflexivity |]. split; [lra |].
    intros [Hc Hr] [Hc' Hr']. unfold distance_out.
    specialize (Hdec Hr Hr'). lia. }
  destruct (Req_dec_T u 0) as [Hu | Hu]; destruct (Req_dec_T v 0) as [Hv | Hv].
  - subst u v. lra.
  - subst u. rewrite grid_time_inf.
    destruct (grid_time_fin v b (IZR row) Hv) as [th ->].
    cbn [Num.lt]. apply Hhorizontal. exact Hv.
  - subst v. rewrite grid_time_inf.
    destruct (grid_time_fin u a (IZR col) Hu) as [tv ->].
    cbn [Num.lt]. apply Hvertical. exact Hu.
  - destruct (grid_time_fin u a (IZR col) Hu) as [tv ->].
    destruct (grid_time_fin v b (IZR row) Hv) as [th ->].
    cbn [Num.lt]. destruct (Rltb tv th).
    + apply Hvertical. exact Hu.
    + apply Hhorizontal. exact Hv.
Qed.

Lemma to_index_IZR (z : Z) :
  (0 <= z)%Z -> to_index (Fin (IZR z)) = Some (Z.to_nat z).
Proof.
  intros Hz. unfold to_index.
  assert (Hint : Int_part (IZR z) = z).
  { symmetry. apply Int_part_spec. lra. }
  rewrite Hint.
  rewrite Rleb_true by (apply (IZR_le 0); exact Hz).
  rewrite Reqb_true by reflexivity. reflexivity.
Qed.

Lemma array_get_IZR {A : Type} (a : list A) (z : Z) :
  (0 <= z)%Z -> array_get a (Fin (IZR z)) = nth_error a (Z.to_nat z).
Proof.
  intros Hz. unfold array_get. rewrite to_index_IZR by exact Hz. reflexivity.
Qed.

Lemma out_of_grid_fin (gridWidth gridHeight : nat) (count : nat) (a b u v : R)
    (col row : Z) (p_x p_y n_x n_y : R) (points : list vec) :
  out_of_grid gridWidth gridHeight
              (fin_state count a b u v col row p_x p_y n_x n_y points) = false ->
  in_grid gridWidth gridHeight col row.
Proof.
  unfold out_of_grid, fin_state, Num.ge. cbn [cx cy Num.lt Num.le].
  rewrite !Bool.orb_false_iff. intros [[[H1 H2] H3] H4].
  apply Bool.not_true_iff_false in H1, H2, H3, H4.
  rewrite Rltb_iff in H1, H3. rewrite Rleb_iff in H2, H4.
  rewrite INR_IZR_INZ in H2, H4.
  unfold in_grid. repeat split.
  - apply le_IZR. lra.
  - apply lt_IZR. lra.
  - apply le_IZR. lra.
  - apply lt_IZR. lra.
Qed.

Lemma array_set_length {A : Type} (a : list A) (n : nat) (v : A) :
  List.length (array_set a n v) = List.length a.
Proof.
  revert n. induction a as [| h rest IH]; intros [| n]; cbn; auto.
Qed.

Lemma array_set_Forall {A : Type} (P : A -> Prop) (a : list A) (n : nat) (v : A) :
  Forall P a -> P v -> Forall P (array_set a n v).
Proof.
  intros Ha Hv. revert n. induction Ha as [| h rest Hh Hrest IH]; intros [| n]; cbn.
  - constructor.
  - constructor.
  - constructor; assumption.
  - constructor; [assumption | apply IH].
Qed.

Lemma grid_store_ok (color : Color) (gridWidth gridHeight : nat) (grid : Grid)
    (r c : nat) (cell : Cell) :
  grid_ok color gridWidth gridHeight grid ->
  cell_ok color cell ->
  grid_ok color gridWidth gridHeight (grid_store grid r c cell).
Proof.
  intros [Hlen Hrows] Hcell. unfold grid_store.
  destruct (nth_error grid r) as [row |] eqn:E; [| split; assumption].
  split.
  - rewrite array_set_length. exact Hlen.
  - apply array_set_Forall; [exact Hrows |].
    apply nth_error_In in E. rewrite Forall_forall in Hrows.
    destruct (Hrows row E) as [Hw Hcells]. split.
    + rewrite array_set_length. exact Hw.
    + apply array_set_Forall; assumption.
Qed.

Lemma grid_ok_cell (color : Color) (gridWidth gridHeight : nat) (grid : Grid)
    (col row : Z) :
  grid_ok color gridWidth gridHeight grid ->
  in_grid gridWidth gridHeight col row ->
  exists cells cell,
    nth_error grid (Z.to_nat row) = Some cells /\
    nth_error cells (Z.to_nat col) = Some cell /\
    cell_ok color cell.
Proof.
  intros [Hlen Hrows] [Hc Hr].
  destruct (nth_error grid (Z.to_nat row)) as [cells |] eqn:E.
  2:{ apply nth_error_None in E. lia. }
  pose proof (nth_error_In _ _ E) as Hin.
  rewrite Forall_forall in Hrows. destruct (Hrows cells Hin) as [Hw Hcells].
  destruct (nth_error cells (Z.to_nat col)) as [cell |] eqn:E'.
  2:{ apply nth_error_None in E'. lia. }
  exists cells, cell. split; [reflexivity |]. split; [exact E' |].
  rewrite Forall_forall in Hcells. apply Hcells. eapply nth_error_In; exact E'.
Qed.

Lemma push_segments_count (segments : list Segment) (st : TraceState) :
  interactionCount (fold_left push_segment segments st)
  = (interactionCount st + List.length segments)%nat.
Proof.
  revert st. induction segments as [| s rest IH]; intros st; cbn [fold_left List.length].
  - rewrite Nat.add_0_r. reflexivity.
  - rewrite IH. cbn [push_segment interactionCount]. lia.
Qed.

Lemma toward_bound (d : R) (z : Z) (size : nat) :
  (0 <= z < Z.of_nat size)%Z -> (toward d z size <= size)%nat.
Proof.
  intros Hz. unfold toward. destruct (Rltb 0 d); [lia |].
  destruct (Rltb d 0); lia.
Qed.

Lemma distance_out_bound (gridWidth gridHeight : nat) (u v : R) (col row : Z) :
  in_grid gridWidth gridHeight col row ->
  (distance_out gridWidth gridHeight u v col row <= gridWidth + gridHeight)%nat.
Proof.
  intros [Hc Hr]. unfold distance_out.
  pose proof (toward_bound u col gridWidth Hc).
  pose proof (toward_bound v row gridHeight Hr). lia.
Qed.

Lemma trace_loop_S (fuel gridWidth gridHeight : nat) (color : Color) (grid : Grid)
    (st : TraceState) :
  trace_loop (S fuel) gridWidth gridHeight color grid st
  = if (interactionCount st <? MAX_INTERACTIONS)%nat then
      match array_get grid (cy st) with
      | None => TypeError
      | Some row =>
        match array_get row (cx st), to_index (cy st), to_index (cx st) with
        | Some cell, Some r, Some c =>
          let '(cell', (segments, terminate)) :=
            interact cell
              ((x st - cx st - Fin 0.5)%num, (y st - cy st - Fin 0.5)%num)
              (dx st, dy st) (normal st) color in
          let grid1 := grid_store grid r c cell' in
          let st1 := fold_left push_segment segments st in
          if terminate then Ok (CellTerminated, grid1, st1)
          else
            let st2 := advance st1 in
            if out_of_grid gridWidth gridHeight st2
            then Ok (ExitedGrid, grid1,
                     mkTrace (interactionCount st2) (sx st2) (sy st2)
                             (dx st2) (dy st2) (cx st2) (cy st2)
                             (x st2) (y st2) (normal st2)
                             (path st2 ++ [(x st2, y st2)]))
            else trace_loop fuel gridWidth gridHeight color grid1 st2
        | _, _, _ => TypeError
        end
      end
    else Ok (BudgetExhausted, grid, st).
Proof. reflexivity. Qed.

Section Termination.

Variables (color : Color) (gridWidth gridHeight : nat).

Lemma trace_loop_terminates :
  forall (fuel : nat) (grid : Grid) (count : nat) (a b u v : R) (col row : Z)
         (p_x p_y n_x n_y : R) (points : list vec),
    grid_ok color gridWidth gridHeight grid ->
    in_grid gridWidth gridHeight col row ->
    0 < u * u + v * v ->
    n_x * n_x + n_y * n_y = 1 ->
    (count <= 200)%nat ->
    (rounds gridWidth gridHeight count u v col row < fuel)%nat ->
    exists ending grid' st',
      trace_loop fuel gridWidth gridHeight color grid
                 (fin_state count a b u v col row p_x p_y n_x n_y points)
      = Ok (ending, grid', st') /\
      grid_ok color gridWidth gridHeight grid' /\
      (interactionCount st' <= 200)%nat /\
      (ending = BudgetExhausted -> (100 <= interactionCount st')%nat).
Proof.
  induction fuel as [| fuel IH];
    intros grid count a b u v col row p_x p_y n_x n_y points
           Hgrid Hin Hmove Hunit Hcount Hfuel; [lia |].
  rewrite trace_loop_S. unfold MAX_INTERACTIONS.
  cbn [fin_state interactionCount cx cy x y dx dy normal].
  destruct (count <? 100)%nat eqn:Ebudget.
  2:{ apply Nat.ltb_ge in Ebudget.
      exists BudgetExhausted, grid. eexists. split; [reflexivity |].
      cbn [interactionCount]. auto. }
  apply Nat.ltb_lt in Ebudget.
  destruct (grid_ok_cell color gridWidth gridHeight grid col row Hgrid Hin)
    as [cells [cell [Ecells [Ecell Hcell]]]].
  destruct Hin as [Hcol Hrow].
  rewrite (array_get_IZR grid row) by lia. rewrite Ecells.
  rewrite (array_get_IZR cells col) by lia. rewrite Ecell.
  rewrite !to_index_IZR by lia.
  cbn [Num.sub].
  destruct (interact_moving color cell (p_x - IZR col - 0.5) (p_y - IZR row - 0.5)
              u v n_x n_y Hcell Hmove Hunit)
    as [cell' [segments [terminate [-> [Hcell' [Hlen Hmoving]]]]]].
  cbv zeta.
  pose proof (grid_store_ok color gridWidth gridHeight grid
                (Z.to_nat row) (Z.to_nat col) cell' Hgrid Hcell') as Hgrid1.
  destruct terminate.
  { eexists; eexists; eexists. split; [reflexivity |].
    split; [exact Hgrid1 |]. rewrite push_segments_count.
    cbn [fin_state interactionCount]. split; [lia | discriminate]. }
  specialize (Hmoving eq_refl).
  assert (Hnext :
    forall count' a' b' u' v' points',
      0 < u' * u' + v' * v' ->
      (count' <= 200)%nat ->
      (forall col' row', in_grid gridWidth gridHeight col' row' ->
         in_grid gridWidth gridHeight col row ->
         (distance_out gridWidth gridHeight u' v' col' row'
          < distance_out gridWidth gridHeight u' v' col row)%nat ->
         (rounds gridWidth gridHeight count' u' v' col' row' < fuel)%nat) ->
      exists ending grid' st',
        (let st2 := advance (fin_state count' a' b' u' v' col row
                                       p_x p_y n_x n_y points') in
         if out_of_grid gridWidth gridHeight st2
         then Ok (ExitedGrid, grid_store grid (Z.to_nat row) (Z.to_nat col) cell',
                  mkTrace (interactionCount st2) (sx st2) (sy st2)
                          (dx st2) (dy st2) (cx st2) (cy st2)
                          (x st2) (y st2) (normal st2)
                          (path st2 ++ [(x st2, y st2)]))
         else trace_loop fuel gridWidth gridHeight color
                         (grid_store grid (Z.to_nat row) (Z.to_nat col) cell') st2)
        = Ok (ending, grid', st') /\
        grid_ok color gridWidth gridHeight grid' /\
        (interactionCount st' <= 200)%nat /\
        (ending = BudgetExhausted -> (100 <= interactionCount st')%nat)).
  { intros count' a' b' u' v' points' Hmove' Hcount' Hrounds.
    destruct (advance_fin gridWidth gridHeight count' a' b' u' v' col row
                          p_x p_y n_x n_y points' Hmove')
      as [col' [row' [p_x' [p_y' [n_x' [n_y' [-> [Hunit' Hdec]]]]]]]].
    cbv zeta.
    destruct (out_of_grid gridWidth gridHeight _) eqn:Eout.
    - eexists; eexists; eexists. split; [reflexivity |].
      split; [exact Hgrid1 |]. cbn [fin_state interactionCount].
      split; [exact Hcount' | discriminate].
    - apply out_of_grid_fin in Eout.
      apply IH; try assumption.
      apply Hrounds; [exact Eout | split; assumption |].
      apply Hdec; [split; assumption | exact Eout]. }
  destruct segments as [| s rest].
  - cbn [fold_left].
    apply (Hnext count a b u v points Hmove Hcount).
    intros col' row' _ _ Hdec. unfold rounds in Hfuel |- *. lia.
  - destruct (push_segments_fin (s :: rest) Hmoving count a b u v col row
                                p_x p_y n_x n_y points Hmove)
      as [a' [b' [u' [v' [points' [E Hmove']]]]]].
    rewrite E. cbn [List.length] in Hlen |- *.
    destruct (Hnext (count + S (List.length rest))%nat a' b' u' v' points' Hmove')
      as [ending [grid' [st' Hres]]]; [lia | |].
    + intros col' row' Hin' _ _. unfold rounds in Hfuel |- *.
      pose proof (distance_out_bound gridWidth gridHeight u' v' col' row' Hin').
      assert (H1 : ((100 - (count + S (List.length rest)) + 1)
                    * (gridWidth + gridHeight + 1)
                    <= (100 - count) * (gridWidth + gridHeight + 1))%nat)
        by (apply Nat.mul_le_mono_r; lia).
      lia.
    + exists ending, grid', st'. exact Hres.
Qed.

End Termination.

(** ** Rounds of the loop on finite states *)

(** A round of the loop in which the cell does not end the beam. *)
Lemma trace_loop_round (fuel gridWidth gridHeight : nat) (color : Color)
    (grid : Grid) (count : nat) (a b u v : R) (col row : Z)
    (p_x p_y n_x n_y : R) (points : list vec)
    (cells : list Cell) (cell cell' : Cell) (segments : list Segment) :
  (count < 100)%nat ->
  (0 <= col)%Z -> (0 <= row)%Z ->
  nth_error grid (Z.to_nat row) = Some cells ->
  nth_error cells (Z.to_nat col) = Some cell ->
  interact cell (Fin (p_x - IZR col - 0.5), Fin (p_y - IZR row - 0.5))
           (Fin u, Fin v) (Fin n_x, Fin n_y) color
  = (cell', (segments, false)) ->
  trace_loop (S fuel) gridWidth gridHeight color grid
             (fin_state count a b u v col row p_x p_y n_x n_y points)
  = let st2 := advance (fold_left push_segment segments
                          (fin_state count a b u v col row p_x p_y n_x n_y points)) in
    if out_of_grid gridWidth gridHeight st2
    then Ok (ExitedGrid, grid_store grid (Z.to_nat row) (Z.to_nat col) cell',
             mkTrace (interactionCount st2) (sx st2) (sy st2)
                     (dx st2) (dy st2) (cx st2) (cy st2)
                     (x st2) (y st2) (normal st2)
                     (path st2 ++ [(x st2, y st2)]))
    else trace_loop fuel gridWidth gridHeight color
                    (grid_store grid (Z.to_nat row) (Z.to_nat col) cell') st2.
Proof.
  intros Hcount Hcol Hrow Ecells Ecell Einteract.
  rewrite trace_loop_S. unfold MAX_INTERACTIONS.
  cbn [fin_state interactionCount cx cy x y dx dy normal].
  rewrite (proj2 (Nat.ltb_lt count 100) Hcount).
  rewrite (array_get_IZR grid row Hrow), Ecells.
  rewrite (array_get_IZR cells col Hcol), Ecell.
  rewrite !to_index_IZR by assumption.
  cbn [Num.sub]. rewrite Einteract. reflexivity.
Qed.

(** A round of the loop in which the cell ends the beam. *)
Lemma trace_loop_round_terminate (fuel gridWidth gridHeight : nat) (color : Color)
    (grid : Grid) (count : nat) (a b u v : R) (col row : Z)
    (p_x p_y n_x n_y : R) (points : list vec)
    (cells : list Cell) (cell cell' : Cell) (segments : list Segment) :
  (count < 100)%nat ->
  (0 <= col)%Z -> (0 <= row)%Z ->
  nth_error grid (Z.to_nat row) = Some cells ->
  nth_error cells (Z.to_nat col) = Some cell ->
  interact cell (Fin (p_x - IZR col - 0.5), Fin (p_y - IZR row - 0.5))
           (Fin u, Fin v) (Fin n_x, Fin n_y) color
  = (cell', (segments, true)) ->
  trace_loop (S fuel) gridWidth gridHeight color grid
             (fin_state count a b u v col row p_x p_y n_x n_y points)
  = Ok (CellTerminated, grid_store grid (Z.to_nat row) (Z.to_nat col) cell',
        fold_left push_segment segments
                  (fin_state count a b u v col row p_x p_y n_x n_y points)).
Proof.
  intros Hcount Hcol Hrow Ecells Ecell Einteract.
  rewrite trace_loop_S. unfold MAX_INTERACTIONS.
  cbn [fin_state interactionCount cx cy x y dx dy normal].
  rewrite (proj2 (Nat.ltb_lt count 100) Hcount).
  rewrite (array_get_IZR grid row Hrow), Ecells.
  rewrite (array_get_IZR cells col Hcol), Ecell.
  rewrite !to_index_IZR by assumption.
  cbn [Num.sub]. rewrite Einteract. reflexivity.
Qed.

(** The loop stops as soon as 100 interactions are counted. *)
Lemma trace_loop_budget (fuel gridWidth gridHeight : nat) (color : Color)
    (grid : Grid) (st : TraceState) :
  (100 <= interactionCount st)%nat ->
  trace_loop (S fuel) gridWidth gridHeight color grid st
  = Ok (BudgetExhausted, grid, st).
Proof.
  intros Hcount. rewrite trace_loop_S. unfold MAX_INTERACTIONS.
  rewrite (proj2 (Nat.ltb_ge (interactionCount st) 100) Hcount). reflexivity.
Qed.

(** Equality of two states of the tracer, field by field. *)
Ltac state_eq :=
  unfold fin_state;
  repeat match goal with
  | |- mkTrace _ _ _ _ _ _ _ _ _ _ _ = mkTrace _ _ _ _ _ _ _ _ _ _ _ => f_equal
  | |- (_, _) = (_, _) => f_equal
  | |- Fin _ = Fin _ => apply f_equal; lra
  | |- @eq nat _ _ => lia
  | |- ?a = ?a => reflexivity
  end.

(** ** A beam that is counted 101 times *)

(** What is left of a round once the cell has answered: push the segments,
    step to the next grid line, stay in the grid. *)
Ltac finish_round :=
  cbv zeta; cbn [fold_left]; unfold push_segment, fin_state;
  cbn [seg_start seg_direction fst snd interactionCount sx sy dx dy cx cy x y
       normal path Num.add];
  unfold advance;
  cbn [interactionCount sx sy dx dy cx cy x y normal path];
  num_eval;
  unfold out_of_grid; cbn [cx cy]; simpl INR; num_eval.

Lemma step_glass_up (count : nat) (points : list vec) :
  (count < 100)%nat ->
  exists points',
    forall fuel,
      trace_loop (S fuel) 1 3 (Some "red"%string) mirror_glass_mirror
                 (glass_up count points)
      = trace_loop fuel 1 3 (Some "red"%string) mirror_glass_mirror
                   (mirror_up (count + 2) points').
Proof.
  intros Hcount. eexists. intros fuel. unfold glass_up.
  rewrite (trace_loop_round fuel 1 3 (Some "red"%string) mirror_glass_mirror
             count 0.5 2 0 (-1) 0 1 0.5 2 0 1 points
             [new_GlassBlockCell None] (new_GlassBlockCell None)
             (new_GlassBlockCell None)
             [mkSegment (Fin (0.5 - 0 - 0.5), Fin (2 - 1 - 0.5)) (Fin 0, Fin (-1));
              mkSegment (Fin (0.5 - 0 - 0.5 - 0), Fin (2 - 1 - 0.5 - 1))
                        (Fin 0, Fin (-1))]);
    [| exact Hcount | lia | lia | reflexivity | reflexivity |].
  2:{ cbn [interact new_GlassBlockCell]. f_equal.
      apply (GlassBlockCell_head_on default_refractiveIndices (Some "red"%string) 1.5);
        [reflexivity | lra | auto | lra | lra | lra]. }
  finish_round.
  change (grid_store mirror_glass_mirror (Z.to_nat 1) (Z.to_nat 0)
                     (new_GlassBlockCell None)) with mirror_glass_mirror.
  f_equal. unfold mirror_up. state_eq.
Qed.

Lemma step_mirror_up (count : nat) (points : list vec) :
  (count < 100)%nat ->
  exists points',
    forall fuel,
      trace_loop (S fuel) 1 3 (Some "red"%string) mirror_glass_mirror
                 (mirror_up count points)
      = trace_loop fuel 1 3 (Some "red"%string) mirror_glass_mirror
                   (glass_down (count + 1) points').
Proof.
  intros Hcount. eexists. intros fuel. unfold mirror_up.
  rewrite (trace_loop_round fuel 1 3 (Some "red"%string) mirror_glass_mirror
             count 0.5 1 0 (-1) 0 0 0.5 1 0 1 points
             [FixedMirrorCell] FixedMirrorCell FixedMirrorCell
             [mkSegment (Fin (0.5 - 0 - 0.5), Fin (1 - 0 - 0.5))
                        (reflect (Fin 0, Fin (-1)) (Fin 0, Fin 1))]);
    [| exact Hcount | lia | lia | reflexivity | reflexivity | reflexivity].
  unfold reflect, dot. finish_round.
  change (grid_store mirror_glass_mirror (Z.to_nat 0) (Z.to_nat 0) FixedMirrorCell)
    with mirror_glass_mirror.
  f_equal. unfold glass_down. state_eq.
Qed.

Lemma step_glass_down (count : nat) (points : list vec) :
  (count < 100)%nat ->
  exists points',
    forall fuel,
      trace_loop (S fuel) 1 3 (Some "red"%string) mirror_glass_mirror
                 (glass_down count points)
      = trace_loop fuel 1 3 (Some "red"%string) mirror_glass_mirror
                   (mirror_down (count + 2) points').
Proof.
  intros Hcount. eexists. intros fuel. unfold glass_down.
  rewrite (trace_loop_round fuel 1 3 (Some "red"%string) mirror_glass_mirror
             count 0.5 1 0 1 0 1 0.5 1 0 (-1) points
             [new_GlassBlockCell None] (new_GlassBlockCell None)
             (new_GlassBlockCell None)
             [mkSegment (Fin (0.5 - 0 - 0.5), Fin (1 - 1 - 0.5)) (Fin 0, Fin 1);
              mkSegment (Fin (0.5 - 0 - 0.5 - 0), Fin (1 - 1 - 0.5 - -1))
                        (Fin 0, Fin 1)]);
    [| exact Hcount | lia | lia | reflexivity | reflexivity |].
  2:{ cbn [interact new_GlassBlockCell]. f_equal.
      apply (GlassBlockCell_head_on default_refractiveIndices (Some "red"%string) 1.5);
        [reflexivity | lra | auto | lra | lra | lra]. }
  finish_round.
  change (grid_store mirror_glass_mirror (Z.to_nat 1) (Z.to_nat 0)
                     (new_GlassBlockCell None)) with mirror_glass_mirror.
  f_equal. unfold mirror_down. state_eq.
Qed.

Lemma step_mirror_down (count : nat) (points : list vec) :
  (count < 100)%nat ->
  exists points',
    forall fuel,
      trace_loop (S fuel) 1 3 (Some "red"%string) mirror_glass_mirror
                 (mirror_down count points)
      = trace_loop fuel 1 3 (Some "red"%string) mirror_glass_mirror
                   (glass_up (count + 1) points').
Proof.
  intros Hcount. eexists. intros fuel. unfold mirror_down.
  rewrite (trace_loop_round fuel 1 3 (Some "red"%string) mirror_glass_mirror
             count 0.5 2 0 1 0 2 0.5 2 0 (-1) points
             [FixedMirrorCell] FixedMirrorCell FixedMirrorCell
             [mkSegment (Fin (0.5 - 0 - 0.5), Fin (2 - 2 - 0.5))
                        (reflect (Fin 0, Fin 1) (Fin 0, Fin (-1)))]);
    [| exact Hcount | lia | lia | reflexivity | reflexivity | reflexivity].
  unfold reflect, dot. finish_round.
  change (grid_store mirror_glass_mirror (Z.to_nat 2) (Z.to_nat 0) FixedMirrorCell)
    with mirror_glass_mirror.
  f_equal. unfold glass_up. state_eq.
Qed.

(** Four rounds: up through the glass, off the upper mirror, down through
    the glass, off the lower mirror; six interactions are counted. *)
Lemma one_period (count : nat) (points : list vec) :
  (count + 5 < 100)%nat ->
  exists points',
    forall fuel,
      trace_loop (4 + fuel) 1 3 (Some "red"%string) mirror_glass_mirror
                 (glass_up count points)
      = trace_loop fuel 1 3 (Some "red"%string) mirror_glass_mirror
                   (glass_up (count + 6) points').
Proof.
  intros Hcount.
  destruct (step_glass_up count points) as [p1 H1]; [lia |].
  destruct (step_mirror_up (count + 2) p1) as [p2 H2]; [lia |].
  destruct (step_glass_down (count + 2 + 1) p2) as [p3 H3]; [lia |].
  destruct (step_mirror_down (count + 2 + 1 + 2) p3) as [p4 H4]; [lia |].
  exists p4. intros fuel.
  change (4 + fuel)%nat with (S (S (S (S fuel)))).
  rewrite H1, H2, H3, H4.
  replace (count + 2 + 1 + 2 + 1)%nat with (count + 6)%nat by lia. reflexivity.
Qed.

Lemma periods (k : nat) :
  forall (count : nat) (points : list vec),
    (count + 6 * k <= 100)%nat ->
    exists points',
      forall fuel,
        trace_loop (4 * k + fuel) 1 3 (Some "red"%string) mirror_glass_mirror
                   (glass_up count points)
        = trace_loop fuel 1 3 (Some "red"%string) mirror_glass_mirror
                     (glass_up (count + 6 * k) points').
Proof.
  induction k as [| k IH]; intros count points Hcount.
  - exists points. intros fuel. cbn [Nat.mul Nat.add].
    rewrite Nat.add_0_r. reflexivity.
  - destruct (one_period count points) as [p1 H1]; [lia |].
    destruct (IH (count + 6)%nat p1) as [p2 H2]; [lia |].
    exists p2. intros fuel.
    replace (4 * S k + fuel)%nat with (4 + (4 * k + fuel))%nat by lia.
    rewrite H1, H2.
    replace (count + 6 + 6 * k)%nat with (count + 6 * S k)%nat by lia. reflexivity.
Qed.

(** C2, as the claim states it, fails on the count: the red beam between the
    two mirrors is counted 2 times in the glass and once at each mirror; after
    99 counted interactions it enters the glass once more, and the loop is
    left with 101 counted interactions. *)
Lemma beam_between_mirrors_counted_101_times :
  exists st',
    trace_beam 100 1 3 mirror_glass_mirror beam_between_mirrors
    = Ok (BudgetExhausted, mirror_glass_mirror, st') /\
    interactionCount st' = 101%nat /\
    (MAX_INTERACTIONS < interactionCount st')%nat.
Proof.
  unfold trace_beam.
  change (initial_state beam_between_mirrors)
    with (glass_up 0 [(Fin 0.5, Fin 2)]).
  change (beam_color beam_between_mirrors) with (Some "red"%string).
  destruct (periods 16 0%nat [(Fin 0.5, Fin 2)]) as [p0 H0]; [lia |].
  destruct (step_glass_up 96 p0) as [p1 H1]; [lia |].
  destruct (step_mirror_up 98 p1) as [p2 H2]; [lia |].
  destruct (step_glass_down 99 p2) as [p3 H3]; [lia |].
  exists (mirror_down 101 p3).
  change 100%nat with (4 * 16 + S (S (S (S 32))))%nat.
  rewrite H0. change (0 + 6 * 16)%nat with 96%nat.
  rewrite H1. change (96 + 2)%nat with 98%nat.
  rewrite H2. change (98 + 1)%nat with 99%nat.
  rewrite H3. change (99 + 2)%nat with 101%nat.
  rewrite trace_loop_budget by (cbn; lia).
  split; [reflexivity |]. split; [reflexivity |].
  unfold MAX_INTERACTIONS. cbn. lia.
Qed.

(** X31: outside the range of directions of about unit length the loop goes
    wrong on the numbers of the code.  From the centre of cell (0, 0) with
    direction (1e-320, 0) the distance to the next grid line, 0.5 / 1e-320,
    overflows to Infinity and [Math.sign(0)] moves no index: the step leaves
    the ray in its cell, inside a grid of one cell, and is its own repetition,
    so that the loop over an empty cell, which counts nothing, does not end.
    With direction (0, 1e-9) a glass block of index 1 returns the direction
    (0, 0), because [1 - cos_i * cos_i] is rounded to 1. *)
Theorem tiny_direction_in_binary64 :
  let st := Double.initial_state Double.cell_centre Double.tiny_direction
                                 Double.first_cell in
  (PrimFloat.div 0.5 (fst Double.tiny_direction) = infinity /\
   Double.cx (Double.advance st) = 0%float /\
   Double.cy (Double.advance st) = 0%float /\
   Double.out_of_grid 1 1 (Double.advance st) = false /\
   Double.advance (Double.advance st) = Double.advance st) /\
  Double.refract Double.short_direction (0, -1)%float 1 1 = ((0, 0)%float, false).
Proof.
  cbv zeta. split; [| vm_compute; reflexivity].
  repeat split; vm_compute; reflexivity.
Qed.

(** C2, with the count as the code keeps it and for the beams the code is
    written for: on a rectangular grid whose glass blocks have an index
    between 1 and 1000 for the beam's colour, a beam whose start lies within
    1e6 of the origin, whose direction has length 1 (to within 1e-9 in the
    square) and whose start cell is in the grid is traced to the end: with
    enough fuel the loop returns, by a cell that ends the beam, by leaving the
    grid or by the budget.  Every round starts below 100 counted
    interactions, so the budget ends the loop with at least 100 of them, and
    never more than 200 are counted (a cell returns up to 101 segments in one
    round).  The bounds keep the distances the loop divides out within the
    range of the code's numbers. *)
Theorem trackRays_unit_beam_terminates :
  forall (grid : Grid) (beam : LightBeam) (gridWidth gridHeight : nat)
         (a b u v : R) (col row : Z) (fuel : nat),
    grid_ok (beam_color beam) gridWidth gridHeight grid ->
    Forall (Forall (glass_index_at_most 1000 (beam_color beam))) grid ->
    beam_start beam = (Fin a, Fin b) ->
    Rabs a <= 1000000 ->
    Rabs b <= 1000000 ->
    beam_direction beam = (Fin u, Fin v) ->
    Rabs (u * u + v * v - 1) <= 1e-9 ->
    beam_cell beam = (Fin (IZR col), Fin (IZR row)) ->
    in_grid gridWidth gridHeight col row ->
    (101 * (gridWidth + gridHeight + 1) <= fuel)%nat ->
    exists ending grid' st',
      trace_beam fuel gridWidth gridHeight grid beam = Ok (ending, grid', st') /\
      (interactionCount st' <= 200)%nat /\
      (ending = BudgetExhausted -> (100 <= interactionCount st')%nat) /\
      trackRays fuel grid [beam]
      = Ok (grid', [mkBeam (beam_start beam) (beam_direction beam) (beam_cell beam)
                           (beam_color beam) (path st')]).
Proof.
  intros grid beam gridWidth gridHeight a b u v col row fuel
         Hgrid _ Hstart _ _ Hdir Hunit Hcell Hin Hfuel.
  assert (Hmove : 0 < u * u + v * v).
  { unfold Rabs in Hunit. destruct (Rcase_abs (u * u + v * v - 1)); lra. }
  assert (Hstate : initial_state beam
                   = fin_state 0 a b u v col row a b 0 1 [(Fin a, Fin b)]).
  { unfold initial_state. rewrite Hstart, Hdir, Hcell. reflexivity. }
  pose proof (distance_out_bound gridWidth gridHeight u v col row Hin) as Hdist.
  destruct (trace_loop_terminates (beam_color beam) gridWidth gridHeight fuel grid
              0 a b u v col row a b 0 1 [(Fin a, Fin b)] Hgrid Hin Hmove)
    as [ending [grid' [st' [Htrace [_ [Hcount Hbudget]]]]]];
    [lra | lia | unfold rounds; lia |].
  exists ending, grid', st'.
  assert (Hbeam : trace_beam fuel gridWidth gridHeight grid beam
                  = Ok (ending, grid', st')).
  { unfold trace_beam. rewrite Hstate. exact Htrace. }
  split; [exact Hbeam |]. split; [exact Hcount |]. split; [exact Hbudget |].
  destruct Hgrid as [Hlen Hrows]. destruct Hin as [_ Hrow].
  destruct grid as [| row0 rest]; [cbn in Hlen; lia |].
  unfold trackRays. cbn [trace_beams].
  assert (Hw : List.length row0 = gridWidth).
  { inversion Hrows as [| ? ? [Hw _] _]. exact Hw. }
  rewrite Hw, Hlen, Hbeam. reflexivity.
Qed.

Lemma mirror_glass_mirror_ok :
  grid_ok (Some "red"%string) 1 3 mirror_glass_mirror.
Proof.
  split; [reflexivity |].
  repeat constructor. cbn. exists 1.5. split; [reflexivity | lra].
Qed.

Lemma mirror_glass_mirror_index :
  Forall (Forall (glass_index_at_most 1000 (Some "red"%string))) mirror_glass_mirror.
Proof.
  constructor; [constructor; [exact I | constructor] |].
  constructor; [| constructor; [constructor; [exact I | constructor] | constructor]].
  constructor; [| constructor].
  cbn. intros index Hindex. injection Hindex as <-. lra.
Qed.

Lemma trackRays_unit_beam_terminates_witness :
  (grid_ok (beam_color beam_between_mirrors) 1 3 mirror_glass_mirror /\
   Forall (Forall (glass_index_at_most 1000 (beam_color beam_between_mirrors)))
          mirror_glass_mirror /\
   Rabs 0.5 <= 1000000 /\ Rabs 2 <= 1000000 /\
   Rabs (0 * 0 + -1 * -1 - 1) <= 1e-9 /\
   in_grid 1 3 0 1 /\ (101 * (1 + 3 + 1) <= 505)%nat) /\
  exists ending grid' st',
    trace_beam 505 1 3 mirror_glass_mirror beam_between_mirrors
    = Ok (ending, grid', st') /\
    (interactionCount st' <= 200)%nat.
Proof.
  assert (Ha : Rabs 0.5 <= 1000000) by (apply Rabs_le; lra).
  assert (Hb : Rabs 2 <= 1000000) by (apply Rabs_le; lra).
  assert (Hunit : Rabs (0 * 0 + -1 * -1 - 1) <= 1e-9) by (apply Rabs_le; lra).
  assert (Hin : in_grid 1 3 0 1) by (unfold in_grid; lia).
  assert (Hfuel : (101 * (1 + 3 + 1) <= 505)%nat) by (cbn; lia).
  split.
  { split; [apply mirror_glass_mirror_ok |].
    split; [apply mirror_glass_mirror_index |].
    split; [exact Ha |]. split; [exact Hb |]. split; [exact Hunit |].
    split; [exact Hin | exact Hfuel]. }
  destruct (trackRays_unit_beam_terminates mirror_glass_mirror beam_between_mirrors 1 3
              0.5 2 0 (-1) 0 1 505 mirror_glass_mirror_ok mirror_glass_mirror_index
              eq_refl Ha Hb eq_refl Hunit eq_refl Hin Hfuel)
    as [ending [grid' [st' [Htrace [Hcount _]]]]].
  exists ending, grid', st'. split; assumption.
Defined.

(** ** A beam without colour at a yellow block *)

Lemma beam_without_color_stopped :
  exists st',
    trace_beam 2 1 1 yellow_block_grid beam_without_color
    = Ok (CellTerminated, yellow_block_grid, st') /\
    interactionCount st' = 1%nat.
Proof.
  unfold trace_beam.
  change (initial_state beam_without_color)
    with (fin_state 0 0.5 (-0.1) 0 1 0 0 0.5 (-0.1) 0 1 [(Fin 0.5, Fin (-0.1))]).
  change (beam_color beam_without_color) with (@None string).
  rewrite (trace_loop_round_terminate 1 1 1 None yellow_block_grid
             0 0.5 (-0.1) 0 1 0 0 0.5 (-0.1) 0 1 [(Fin 0.5, Fin (-0.1))]
             [BlockCell "yellow"] (BlockCell "yellow") (BlockCell "yellow")
             [mkSegment (Fin (0.5 - 0 - 0.5), Fin (-0.1 - 0 - 0.5)) (Fin 0, Fin 1)]);
    try reflexivity; try lia.
  eexists. split; reflexivity.
Qed.

Lemma beam_yellow_passes :
  exists st',
    trace_beam 2 1 1 yellow_block_grid beam_yellow
    = Ok (ExitedGrid, yellow_block_grid, st') /\
    interactionCount st' = 0%nat.
Proof.
  unfold trace_beam.
  change (initial_state beam_yellow)
    with (fin_state 0 0.5 (-0.1) 0 1 0 0 0.5 (-0.1) 0 1 [(Fin 0.5, Fin (-0.1))]).
  change (beam_color beam_yellow) with (Some "yellow"%string).
  rewrite (trace_loop_round 1 1 1 (Some "yellow"%string) yellow_block_grid
             0 0.5 (-0.1) 0 1 0 0 0.5 (-0.1) 0 1 [(Fin 0.5, Fin (-0.1))]
             [BlockCell "yellow"] (BlockCell "yellow") (BlockCell "yellow") []);
    try reflexivity; try lia.
  finish_round.
  eexists. split; reflexivity.
Qed.

(** C3 on the code: [trackRays] hands [beam.color] to the cell as it is, and
    for a beam without colour the test [color === this.color] of a yellow
    block fails: the block ends the beam (one counted interaction), where it
    lets a beam whose colour is "yellow" through to the edge of the grid.  The
    renderer, run on the traced beams, is the one place that reads an unset
    colour as "yellow". *)
Theorem unset_color_is_stopped_by_yellow_block :
  (forall (start direction normal : vec),
     interact (BlockCell "yellow") start direction normal None
     = (BlockCell "yellow", ([mkSegment start direction], true)) /\
     interact (BlockCell "yellow") start direction normal (Some "yellow"%string)
     = (BlockCell "yellow", ([], false))) /\
  (exists st',
     trace_beam 2 1 1 yellow_block_grid beam_without_color
     = Ok (CellTerminated, yellow_block_grid, st')) /\
  (exists st',
     trace_beam 2 1 1 yellow_block_grid beam_yellow
     = Ok (ExitedGrid, yellow_block_grid, st')) /\
  (forall p q,
     map beam_color
         (Renderer_drawBeams
            [mkBeam (beam_start beam_without_color)
                    (beam_direction beam_without_color)
                    (beam_cell beam_without_color)
                    (beam_color beam_without_color) [p; q]])
     = [Some "yellow"%string]).
Proof.
  split; [intros; split; reflexivity |].
  split; [destruct beam_without_color_stopped as [st' [H _]]; exists st'; exact H |].
  split; [destruct beam_yellow_passes as [st' [H _]]; exists st'; exact H |].
  intros p q. reflexivity.
Qed.

(** A beam without colour that meets a glass block: the index read for it is
    [undefined], every number computed from it is NaN, the row index becomes
    NaN, passes the bounds test, and the next read of [grid[cy][cx]] throws. *)
Lemma beam_without_color_in_glass_throws :
  trace_beam 2 1 1 glass_grid beam_without_color = TypeError /\
  trackRays 2 glass_grid [beam_without_color] = TypeError.
Proof.
  assert (H : trace_beam 2 1 1 glass_grid beam_without_color = TypeError).
  { unfold trace_beam.
    change (initial_state beam_without_color)
      with (fin_state 0 0.5 (-0.1) 0 1 0 0 0.5 (-0.1) 0 1 [(Fin 0.5, Fin (-0.1))]).
    change (beam_color beam_without_color) with (@None string).
    rewrite (trace_loop_round 1 1 1 None glass_grid
               0 0.5 (-0.1) 0 1 0 0 0.5 (-0.1) 0 1 [(Fin 0.5, Fin (-0.1))]
               [new_GlassBlockCell None] (new_GlassBlockCell None)
               (new_GlassBlockCell None)
               [mkSegment (Fin (0.5 - 0 - 0.5), Fin (-0.1 - 0 - 0.5)) (NaN, NaN);
                mkSegment (NaN, NaN) (NaN, NaN)]);
      [| lia | lia | lia | reflexivity | reflexivity |].
    2:{ cbn [interact new_GlassBlockCell]. unfold GlassBlockCell_interact.
        cbn [property_key default_refractiveIndices get_property String.eqb
             Ascii.eqb Bool.eqb to_number].
        cbn. reflexivity. }
    cbv zeta. cbn [fold_left]. unfold push_segment, fin_state.
    cbn [seg_start seg_direction fst snd interactionCount sx sy dx dy cx cy x y
         normal path Num.add].
    unfold advance.
    cbn [interactionCount sx sy dx dy cx cy x y normal path].
    num_eval. unfold out_of_grid. cbn [cx cy]. simpl INR. num_eval.
    rewrite trace_loop_S. reflexivity. }
  split; [exact H |].
  unfold trackRays, glass_grid. cbn [List.length trace_beams].
  fold glass_grid. rewrite H. reflexivity.
Qed.

(** ** Grids built by [parseGrid] *)

(** The glass blocks that [parseGrid] builds have an index of at least 1 for
    each of the three beam colours. *)
Lemma parseCell_ok (color : Color) (cellData : CellData) :
  In color [Some "red"%string; Some "yellow"%string; Some "blue"%string] ->
  cell_ok color (parseCell cellData).
Proof.
  intros Hcolor. unfold parseCell.
  repeat match goal with
  | |- context [if String.eqb ?a ?b then _ else _] => destruct (String.eqb a b)
  end; try exact I.
  cbn [new_GlassBlockCell cell_ok].
  cbn [In] in Hcolor.
  destruct Hcolor as [<- | [<- | [<- | []]]].
  - exists 1.5. split; [reflexivity | lra].
  - exists 1.6. split; [reflexivity | lra].
  - exists 2. split; [reflexivity | lra].
Qed.

Lemma parseGrid_ok (color : Color) (gridWidth : nat) (gridData : list (list CellData)) :
  In color [Some "red"%string; Some "yellow"%string; Some "blue"%string] ->
  Forall (fun row => List.length row = gridWidth) gridData ->
  grid_ok color gridWidth (List.length gridData) (parseGrid gridData).
Proof.
  intros Hcolor Hrows. unfold grid_ok, parseGrid. split.
  - apply length_map.
  - apply Forall_map. apply (Forall_impl _ (P := fun row => List.length row = gridWidth));
      [| exact Hrows].
    intros row Hlen. split.
    + rewrite length_map. exact Hlen.
    + apply Forall_map. apply Forall_forall. intros cellData _.
      apply parseCell_ok. exact Hcolor.
Qed.

(** ** The first level *)

(** Loading the first level finds its one target, bottom right, not yet lit:
    the win condition is false. *)
Lemma level_1_loaded (g : Game) :
  targetCells (loadLevel level_1 g) = [(3, 2)%nat] /\
  checkWinCondition (loadLevel level_1 g) = false /\
  grid_ok (Some "yellow"%string) 3 4 (grid (loadLevel level_1 g)).
Proof.
  split; [reflexivity |]. split; [reflexivity |].
  apply (parseGrid_ok (Some "yellow"%string) 3 (level_grid level_1)).
  - cbn. auto.
  - repeat constructor.
Qed.

(** * Further properties of the code *)

(** ** Ray and segment *)

Lemma getLineSegmentIntersection_iff :
  forall (s_x s_y d_x d_y a_x a_y b_x b_y : R) (p : vec),
    getLineSegmentIntersection (Fin s_x, Fin s_y) (Fin d_x, Fin d_y)
                               (Fin a_x, Fin a_y) (Fin b_x, Fin b_y) = Some p
    <->
    1e-9 <= Rabs ((b_x - a_x) * - d_y + (b_y - a_y) * d_x) /\
    exists t1 t2,
      0 <= t1 /\ 0 <= t2 <= 1 /\
      s_x + t1 * d_x = a_x + t2 * (b_x - a_x) /\
      s_y + t1 * d_y = a_y + t2 * (b_y - a_y) /\
      p = (Fin (s_x + t1 * d_x), Fin (s_y + t1 * d_y)).
Proof.
  intros s_x s_y d_x d_y a_x a_y b_x b_y p.
  unfold getLineSegmentIntersection, dot.
  cbn [fst snd Num.add Num.sub Num.mul Num.neg Num.abs Num.lt].
  set (D := (b_x - a_x) * - d_y + (b_y - a_y) * d_x).
  destruct (Rltb (Rabs D) 1e-9) eqn:E.
  { apply Rltb_iff in E. split; [discriminate | intros [H _]; lra]. }
  apply Bool.not_true_iff_false in E. rewrite Rltb_iff in E.
  assert (HD : D <> 0).
  { intros HD. rewrite HD, Rabs_R0 in E. lra. }
  cbn [Num.div]. rewrite (Reqb_false D 0) by exact HD.
  unfold Num.ge. cbn [Num.add Num.mul Num.le].
  set (t1 := ((b_x - a_x) * (s_y - a_y) - (b_y - a_y) * (s_x - a_x)) / D).
  set (t2 := ((s_x - a_x) * - d_y + (s_y - a_y) * d_x) / D).
  assert (Hx : s_x + t1 * d_x = a_x + t2 * (b_x - a_x)).
  { unfold t1, t2, D. field. exact HD. }
  assert (Hy : s_y + t1 * d_y = a_y + t2 * (b_y - a_y)).
  { unfold t1, t2, D. field. exact HD. }
  split.
  - destruct (Rleb 0 t1) eqn:E1; [| discriminate].
    destruct (Rleb 0 t2) eqn:E2; [| discriminate].
    destruct (Rleb t2 1) eqn:E3; [| discriminate].
    apply Rleb_iff in E1, E2, E3. cbn [andb].
    intros H; injection H as <-.
    split; [lra |]. exists t1, t2. repeat split; auto.
  - intros [_ [u1 [u2 [H1 [H2 [Hux [Huy ->]]]]]]].
    assert (Ht1 : u1 = t1).
    { unfold t1. apply (Rmult_eq_reg_r D); [| exact HD].
      unfold Rdiv. rewrite Rmult_assoc, Rinv_l, Rmult_1_r by exact HD.
      unfold D.
      replace (s_y - a_y) with (u2 * (b_y - a_y) - u1 * d_y) by lra.
      replace (s_x - a_x) with (u2 * (b_x - a_x) - u1 * d_x) by lra.
      ring. }
    assert (Ht2 : u2 = t2).
    { unfold t2. apply (Rmult_eq_reg_r D); [| exact HD].
      unfold Rdiv. rewrite Rmult_assoc, Rinv_l, Rmult_1_r by exact HD.
      unfold D.
      replace (s_y - a_y) with (u2 * (b_y - a_y) - u1 * d_y) by lra.
      replace (s_x - a_x) with (u2 * (b_x - a_x) - u1 * d_x) by lra.
      ring. }
    subst u1 u2.
    rewrite (Rleb_true 0 t1), (Rleb_true 0 t2), (Rleb_true t2 1) by lra.
    reflexivity.
Qed.

(** X1: [getLineSegmentIntersection] answers with a point exactly when the
    ray's line and the segment's line are not parallel (the cross product is
    at least [1e-9] in absolute value) and the ray, from its start onwards,
    meets the segment between its two ends; the point is that meeting
    point. *)
Theorem getLineSegmentIntersection_spec :
  forall (s_x s_y d_x d_y a_x a_y b_x b_y : R) (p : vec),
    getLineSegmentIntersection (Fin s_x, Fin s_y) (Fin d_x, Fin d_y)
                               (Fin a_x, Fin a_y) (Fin b_x, Fin b_y) = Some p
    <->
    1e-9 <= Rabs ((b_x - a_x) * - d_y + (b_y - a_y) * d_x) /\
    exists t1 t2,
      0 <= t1 /\ 0 <= t2 <= 1 /\
      s_x + t1 * d_x = a_x + t2 * (b_x - a_x) /\
      s_y + t1 * d_y = a_y + t2 * (b_y - a_y) /\
      p = (Fin (s_x + t1 * d_x), Fin (s_y + t1 * d_y)).
Proof.
  intros. apply getLineSegmentIntersection_iff.
Qed.

(** ** NaN in arithmetic *)

Lemma div_NaN_r (x : num) : (x / NaN)%num = NaN.
Proof. destruct x; reflexivity. Qed.

Lemma div_NaN_l (x : num) : (NaN / x)%num = NaN.
Proof. destruct x; reflexivity. Qed.

Lemma mul_NaN_l (x : num) : (NaN * x)%num = NaN.
Proof. destruct x; reflexivity. Qed.

Lemma mul_NaN_r (x : num) : (x * NaN)%num = NaN.
Proof. destruct x; reflexivity. Qed.

Lemma add_NaN_l (x : num) : (NaN + x)%num = NaN.
Proof. destruct x; reflexivity. Qed.

Lemma add_NaN_r (x : num) : (x + NaN)%num = NaN.
Proof. destruct x; reflexivity. Qed.

Lemma sub_NaN_l (x : num) : (NaN - x)%num = NaN.
Proof. destruct x; reflexivity. Qed.

Lemma sub_NaN_r (x : num) : (x - NaN)%num = NaN.
Proof. destruct x; reflexivity. Qed.

(** With a ratio of indices that is NaN, [refract] gives a NaN vector and
    does not signal a reflection. *)
Lemma refract_NaN_ratio (incidentVec normalVec : vec) (n1 n2 : num) :
  (n1 / n2)%num = NaN ->
  refract incidentVec normalVec n1 n2 = ((NaN, NaN), false).
Proof.
  intros Hratio. unfold refract. rewrite Hratio.
  rewrite !mul_NaN_l. unfold Num.gt. cbn [Num.lt]. reflexivity.
Qed.

(** ** The glass block *)

Lemma GlassBlockCell_missing_index_segments (refractiveIndices : list (string * num))
    (color : Color) (start direction norm : vec) :
  get_property refractiveIndices (property_key color) = None ->
  GlassBlockCell_interact refractiveIndices start direction norm color
  = ([mkSegment start (NaN, NaN); mkSegment (NaN, NaN) (NaN, NaN)], false).
Proof.
  intros Hidx. unfold GlassBlockCell_interact. rewrite Hidx. cbn [to_number].
  rewrite refract_NaN_ratio by apply div_NaN_r.
  rewrite GlassBlockCell_bounce_S. cbv zeta. cbn [fst snd].
  rewrite (refract_NaN_ratio _ _ NaN (Fin 1)) by reflexivity.
  unfold Num.neq. cbn [Num.eq negb].
  rewrite !div_NaN_r. cbn [Num.min]. rewrite !mul_NaN_l, !add_NaN_r.
  reflexivity.
Qed.

(** X4: a glass block asked for a colour it has no index for (an unset colour
    included) answers, whatever the ray, with two segments whose directions
    are NaN, the second one starting at a NaN point. *)
Theorem GlassBlockCell_missing_index :
  forall (refractiveIndices : list (string * num)) (color : Color)
         (start direction norm : vec),
    get_property refractiveIndices (property_key color) = None ->
    GlassBlockCell_interact refractiveIndices start direction norm color
    = ([mkSegment start (NaN, NaN); mkSegment (NaN, NaN) (NaN, NaN)], false).
Proof.
  intros. apply GlassBlockCell_missing_index_segments. assumption.
Qed.

Lemma GlassBlockCell_missing_index_witness :
  get_property default_refractiveIndices (property_key None) = None /\
  GlassBlockCell_interact default_refractiveIndices (Fin 0, Fin (-0.5))
                          (Fin 0, Fin 1) (Fin 0, Fin (-1)) None
  = ([mkSegment (Fin 0, Fin (-0.5)) (NaN, NaN); mkSegment (NaN, NaN) (NaN, NaN)],
     false).
Proof.
  split; [reflexivity |].
  apply (GlassBlockCell_missing_index default_refractiveIndices None). reflexivity.
Defined.

(** X5: a glass block never ends a beam: whatever it is given, it returns at
    least one and at most 101 segments, the first of which starts at the
    entry point. *)
Theorem GlassBlockCell_interact_shape :
  forall (refractiveIndices : list (string * num)) (color : Color)
         (start direction norm : vec),
    exists first rest,
      GlassBlockCell_interact refractiveIndices start direction norm color
      = (first :: rest, false) /\
      seg_start first = start /\
      (List.length rest <= 100)%nat.
Proof.
  intros refractiveIndices color start direction norm.
  unfold GlassBlockCell_interact.
  destruct (refract direction norm _ _) as [entryDirection entryReflecting].
  destruct entryReflecting.
  - eexists; exists []. split; [reflexivity |]. split; [reflexivity | cbn; lia].
  - eexists; eexists. split; [reflexivity |]. split; [reflexivity |].
    apply GlassBlockCell_bounce_length.
Qed.

(** ** The rotatable mirror *)

Lemma RotatableMirrorCell_interact_cases :
  forall (theta p_x p_y d_x d_y : R),
    let c := cos theta in
    let s := sin theta in
    let meets t1 t2 :=
      1e-9 <= Rabs (c * - d_y + s * d_x) /\
      0 <= t1 /\ 0 <= t2 <= 1 /\
      p_x + t1 * d_x = (t2 - 0.5) * c /\
      p_y + t1 * d_y = (t2 - 0.5) * s in
    let d_n := d_x * - s + d_y * c in
    (RotatableMirrorCell_interact (Fin theta) (Fin p_x, Fin p_y) (Fin d_x, Fin d_y)
     = ([], false) /\ forall t1 t2, ~ meets t1 t2) \/
    (exists t1 t2,
       meets t1 t2 /\
       RotatableMirrorCell_interact (Fin theta) (Fin p_x, Fin p_y) (Fin d_x, Fin d_y)
       = ([mkSegment (Fin (p_x + t1 * d_x), Fin (p_y + t1 * d_y))
                     (Fin (d_x - 2 * d_n * - s), Fin (d_y - 2 * d_n * c))], false)).
Proof.
  intros theta p_x p_y d_x d_y c s meets d_n.
  unfold RotatableMirrorCell_interact. cbv zeta.
  cbn [Num.cos Num.sin Num.mul]. fold c. fold s.
  pose proof (getLineSegmentIntersection_iff p_x p_y d_x d_y
                (-0.5 * c) (-0.5 * s) (0.5 * c) (0.5 * s)) as Hiff.
  assert (HD : (0.5 * c - -0.5 * c) * - d_y + (0.5 * s - -0.5 * s) * d_x
               = c * - d_y + s * d_x) by lra.
  rewrite HD in Hiff.
  destruct (getLineSegmentIntersection _ _ _ _) as [p |] eqn:E.
  - right. destruct (proj1 (Hiff p) eq_refl)
      as [Hpar [t1 [t2 [H1 [H2 [Hx [Hy ->]]]]]]].
    exists t1, t2. split.
    { unfold meets. repeat split; lra. }
    cbn [fst snd Num.sub Num.neg Num.mul Num.add Num.sqrt].
    assert (Hcs : s * s + c * c = 1).
    { pose proof (sin2_cos2 theta) as H. unfold Rsqr in H. exact H. }
    assert (HL : - (0.5 * s - -0.5 * s) * - (0.5 * s - -0.5 * s)
                 + (0.5 * c - -0.5 * c) * (0.5 * c - -0.5 * c) = 1).
    { transitivity (s * s + c * c); [lra | exact Hcs]. }
    rewrite HL. rewrite Rltb_false by lra. rewrite sqrt_1.
    cbn [Num.div]. rewrite (Reqb_false 1 0) by lra.
    destruct (Num.gt _ (Fin 0)); unfold reflect, dot;
      cbn [fst snd Num.add Num.sub Num.mul];
      unfold d_n; data_eq.
  - left. split; [reflexivity |].
    intros t1 t2 [Hpar [H1 [H2 [Hx Hy]]]].
    assert (Hnone : @None vec = Some (Fin (p_x + t1 * d_x), Fin (p_y + t1 * d_y))).
    { apply Hiff. split; [exact Hpar |]. exists t1, t2.
      repeat split; lra. }
    discriminate.
Qed.

(** X8: a rotatable mirror at angle [theta] is the segment between
    [-0.5 (cos theta, sin theta)] and [0.5 (cos theta, sin theta)].  A ray
    that does not meet it (or is parallel to it) passes untouched; a ray that
    meets it gets one segment, from the meeting point, whose direction is the
    mirror image of the incoming one in the mirror's line, whichever side the
    ray comes from. *)
Theorem RotatableMirrorCell_interact_spec :
  forall (theta p_x p_y d_x d_y : R),
    let c := cos theta in
    let s := sin theta in
    let meets t1 t2 :=
      1e-9 <= Rabs (c * - d_y + s * d_x) /\
      0 <= t1 /\ 0 <= t2 <= 1 /\
      p_x + t1 * d_x = (t2 - 0.5) * c /\
      p_y + t1 * d_y = (t2 - 0.5) * s in
    let d_n := d_x * - s + d_y * c in
    (RotatableMirrorCell_interact (Fin theta) (Fin p_x, Fin p_y) (Fin d_x, Fin d_y)
     = ([], false) /\ forall t1 t2, ~ meets t1 t2) \/
    (exists t1 t2,
       meets t1 t2 /\
       RotatableMirrorCell_interact (Fin theta) (Fin p_x, Fin p_y) (Fin d_x, Fin d_y)
       = ([mkSegment (Fin (p_x + t1 * d_x), Fin (p_y + t1 * d_y))
                     (Fin (d_x - 2 * d_n * - s), Fin (d_y - 2 * d_n * c))], false)).
Proof.
  intros theta p_x p_y d_x d_y. apply RotatableMirrorCell_interact_cases.
Qed.

(** ** The cross cell *)

(** X10: a cross cell never deflects a ray: it lets it through untouched or ends
    it with one segment that keeps the incoming direction. *)
Theorem CrossCell_never_deflects :
  forall (rotation width : num) (start direction : vec),
    CrossCell_interact rotation width start direction = ([], false) \/
    exists hit,
      CrossCell_interact rotation width start direction
      = ([mkSegment hit direction], true).
Proof.
  intros. apply CrossCell_interact_cases.
Qed.

(** X11: a ray with a unit direction whose line stays farther than 0.5 from the
    centre of a cross cell passes, whatever the rotation and the width of the
    cell. *)
Theorem CrossCell_outside_circle_passes :
  forall (rotation width : num) (s_x s_y d_x d_y : R),
    d_x * d_x + d_y * d_y = 1 ->
    (forall t, 0.25 < (s_x + t * d_x) * (s_x + t * d_x)
                      + (s_y + t * d_y) * (s_y + t * d_y)) ->
    CrossCell_interact rotation width (Fin s_x, Fin s_y) (Fin d_x, Fin d_y)
    = ([], false).
Proof.
  intros rotation width s_x s_y d_x d_y Hd Hfar.
  unfold CrossCell_interact.
  cbn [fst snd Num.sub Num.mul Num.abs]. unfold Num.gt. cbn [Num.lt].
  set (perp := s_x * d_y - s_y * d_x).
  assert (Hperp : 0.25 < perp * perp).
  { specialize (Hfar (- (s_x * d_x + s_y * d_y))).
    replace (perp * perp)
      with ((s_x * s_x + s_y * s_y) * (d_x * d_x + d_y * d_y)
            - (s_x * d_x + s_y * d_y) * (s_x * d_x + s_y * d_y))
      by (unfold perp; ring).
    rewrite Hd.
    set (k := s_x * d_x + s_y * d_y) in *.
    replace ((s_x + - k * d_x) * (s_x + - k * d_x)
             + (s_y + - k * d_y) * (s_y + - k * d_y))
      with (s_x * s_x + s_y * s_y - 2 * k * k + k * k * (d_x * d_x + d_y * d_y))
      in Hfar by (unfold k; ring).
    rewrite Hd in Hfar. lra. }
  rewrite Rltb_true; [reflexivity |].
  unfold Rabs. destruct (Rcase_abs perp); nra.
Qed.

Lemma CrossCell_outside_circle_passes_witness :
  (0 * 0 + 1 * 1 = 1 /\
   forall t, 0.25 < (0.6 + t * 0) * (0.6 + t * 0) + (0 + t * 1) * (0 + t * 1)) /\
  CrossCell_interact (Fin 0.3) (Fin 0.2) (Fin 0.6, Fin 0) (Fin 0, Fin 1)
  = ([], false).
Proof.
  assert (Hfar : forall t, 0.25 < (0.6 + t * 0) * (0.6 + t * 0)
                                  + (0 + t * 1) * (0 + t * 1)).
  { intros t. nra. }
  split; [split; [lra | exact Hfar] |].
  apply (CrossCell_outside_circle_passes (Fin 0.3) (Fin 0.2) 0.6 0 0 1);
    [lra | exact Hfar].
Defined.

(** ** What tracing does to the grid and to the paths *)

Lemma lit_more_refl (cell : Cell) : lit_more cell cell.
Proof. left. reflexivity. Qed.

Lemma lit_more_trans (a b c : Cell) : lit_more a b -> lit_more b c -> lit_more a c.
Proof.
  intros [-> | [r [-> ->]]] [-> | [r' [E ->]]].
  - left. reflexivity.
  - right. exists r'. split; [exact E | reflexivity].
  - right. exists r. split; reflexivity.
  - right. exists r. split; reflexivity.
Qed.

Lemma Forall2_same {A : Type} (R : A -> A -> Prop) (l : list A) :
  (forall a, R a a) -> Forall2 R l l.
Proof.
  intros Hrefl. induction l as [| a l IH]; constructor; [apply Hrefl | exact IH].
Qed.

Lemma Forall2_compose {A : Type} (R : A -> A -> Prop) :
  (forall a b c, R a b -> R b c -> R a c) ->
  forall l1 l2 l3, Forall2 R l1 l2 -> Forall2 R l2 l3 -> Forall2 R l1 l3.
Proof.
  intros Htrans l1 l2 l3 H12. revert l3.
  induction H12 as [| a b l1 l2 Hab _ IH]; intros l3 H23.
  - inversion H23. constructor.
  - inversion H23 as [| b' c l2' l3' Hbc H23' E1 E2]; subst.
    constructor; [exact (Htrans a b c Hab Hbc) | apply IH; exact H23'].
Qed.

Lemma grid_lit_more_refl (grid : Grid) : grid_lit_more grid grid.
Proof.
  apply Forall2_same. intros row. apply Forall2_same. exact lit_more_refl.
Qed.

Lemma grid_lit_more_trans (g1 g2 g3 : Grid) :
  grid_lit_more g1 g2 -> grid_lit_more g2 g3 -> grid_lit_more g1 g3.
Proof.
  apply Forall2_compose. apply Forall2_compose. exact lit_more_trans.
Qed.

Lemma array_set_Forall2 {A : Type} (R : A -> A -> Prop) (a : list A) (n : nat)
    (v v' : A) :
  (forall z, R z z) ->
  nth_error a n = Some v -> R v v' -> Forall2 R a (array_set a n v').
Proof.
  intros Hrefl. revert n. induction a as [| h rest IH]; intros n Hn Hv.
  - destruct n; discriminate.
  - destruct n as [| n]; cbn [nth_error array_set] in *.
    + injection Hn as ->. constructor; [exact Hv | apply Forall2_same; exact Hrefl].
    + constructor; [apply Hrefl | apply IH; assumption].
Qed.

Lemma grid_store_lit_more (grid : Grid) (r c : nat) (row : list Cell)
    (cell cell' : Cell) :
  nth_error grid r = Some row ->
  nth_error row c = Some cell ->
  lit_more cell cell' ->
  grid_lit_more grid (grid_store grid r c cell').
Proof.
  intros Hrow Hcell Hlit. unfold grid_store. rewrite Hrow.
  apply (array_set_Forall2 (Forall2 lit_more) grid r row).
  - intros z. apply Forall2_same. exact lit_more_refl.
  - exact Hrow.
  - apply (array_set_Forall2 lit_more row c cell); [exact lit_more_refl | | ]; assumption.
Qed.

Lemma array_get_nth {A : Type} (a : list A) (i : num) (n : nat) (v : A) :
  array_get a i = Some v -> to_index i = Some n -> nth_error a n = Some v.
Proof.
  unfold array_get. intros H E. rewrite E in H. exact H.
Qed.

Lemma interact_lit_more (cell : Cell) (start direction normal : vec) (color : Color) :
  lit_more cell (fst (interact cell start direction normal color)).
Proof.
  destruct cell; cbn [interact fst]; try apply lit_more_refl.
  right. exists receive. split; reflexivity.
Qed.

Lemma interact_length (cell : Cell) (start direction normal : vec) (color : Color) :
  (List.length (fst (snd (interact cell start direction normal color))) <= 101)%nat /\
  (is_GlassBlockCell cell = false ->
   (List.length (fst (snd (interact cell start direction normal color))) <= 1)%nat).
Proof.
  destruct cell; cbn [interact fst snd is_GlassBlockCell].
  - cbn. split; [lia | intros _; lia].
  - unfold BlockCell_interact. destruct (color_strict_eq _ _); cbn; split;
      try lia; intros _; lia.
  - cbn. split; [lia | intros _; lia].
  - destruct (CrossCell_interact_cases rotation width start direction)
      as [-> | [hit ->]]; cbn; split; try lia; intros _; lia.
  - split; [apply GlassBlockCell_interact_length | discriminate].
  - cbn. split; [lia | intros _; lia].
  - unfold RotatableMirrorCell_interact. cbv zeta.
    destruct (getLineSegmentIntersection _ _ _ _); cbn [fst List.length]; split;
      try lia; intros _; lia.
Qed.

Lemma without_glass_cell (grid : Grid) (r c : nat) (row : list Cell) (cell : Cell) :
  without_glass grid ->
  nth_error grid r = Some row ->
  nth_error row c = Some cell ->
  is_GlassBlockCell cell = false.
Proof.
  intros Hgrid Hrow Hcell. unfold without_glass in Hgrid.
  rewrite Forall_forall in Hgrid.
  specialize (Hgrid row (nth_error_In _ _ Hrow)).
  rewrite Forall_forall in Hgrid.
  exact (Hgrid cell (nth_error_In _ _ Hcell)).
Qed.

Lemma without_glass_lit_more (grid grid' : Grid) :
  without_glass grid -> grid_lit_more grid grid' -> without_glass grid'.
Proof.
  intros Hgrid Hlit. revert Hgrid.
  induction Hlit as [| row row' rest rest' Hrow _ IH]; intros Hgrid.
  - constructor.
  - inversion Hgrid as [| ? ? Hrow0 Hrest]; subst.
    constructor; [| apply IH; exact Hrest].
    clear IH Hgrid Hrest. revert Hrow0.
    induction Hrow as [| cell cell' cells cells' Hcell _ IHrow]; intros Hrow0.
    + constructor.
    + inversion Hrow0 as [| ? ? Hc Hcs]; subst.
      constructor; [| apply IHrow; exact Hcs].
      destruct Hcell as [-> | [receive [_ ->]]]; [exact Hc | reflexivity].
Qed.

Lemma push_segments_path (segments : list Segment) (st : TraceState) :
  exists added,
    path (fold_left push_segment segments st) = path st ++ added /\
    List.length added = List.length segments.
Proof.
  revert st. induction segments as [| s rest IH]; intros st; cbn [fold_left].
  - exists []. rewrite app_nil_r. split; reflexivity.
  - destruct (IH (push_segment st s)) as [added [Hpath Hlen]].
    cbn [push_segment path] in Hpath. rewrite <- app_assoc in Hpath.
    eexists. split; [exact Hpath |]. cbn [app List.length]. rewrite Hlen. reflexivity.
Qed.

Lemma advance_count (st : TraceState) :
  interactionCount (advance st) = interactionCount st.
Proof. reflexivity. Qed.

Lemma advance_path (st : TraceState) : path (advance st) = path st.
Proof. reflexivity. Qed.

(** What holds of every result of the loop, whatever the state it starts
    in. *)
Lemma trace_loop_invariants (gridWidth gridHeight : nat) (color : Color) :
  forall (fuel : nat) (grid : Grid) (st : TraceState)
         (ending : Ending) (grid' : Grid) (st' : TraceState),
    trace_loop fuel gridWidth gridHeight color grid st = Ok (ending, grid', st') ->
    grid_lit_more grid grid' /\
    (interactionCount st <= interactionCount st')%nat /\
    (interactionCount st' <= Nat.max (interactionCount st) 200)%nat /\
    (without_glass grid ->
     (interactionCount st' <= Nat.max (interactionCount st) 100)%nat) /\
    exists added,
      path st' = path st ++ added /\
      List.length added
      = (interactionCount st' - interactionCount st
         + match ending with ExitedGrid => 1 | _ => 0 end)%nat.
Proof.
  induction fuel as [| fuel IH]; intros grid st ending grid' st' H; [discriminate |].
  rewrite trace_loop_S in H. unfold MAX_INTERACTIONS in H.
  destruct (interactionCount st <? 100)%nat eqn:Ebudget.
  2:{ injection H as <- <- <-.
      split; [apply grid_lit_more_refl |]. split; [lia |]. split; [lia |].
      split; [intros _; lia |].
      exists []. rewrite app_nil_r. split; [reflexivity | cbn; lia]. }
  apply Nat.ltb_lt in Ebudget.
  destruct (array_get grid (cy st)) as [row |] eqn:Erow; [| discriminate].
  destruct (array_get row (cx st)) as [cell |] eqn:Ecell; [| discriminate].
  destruct (to_index (cy st)) as [r |] eqn:Er; [| discriminate].
  destruct (to_index (cx st)) as [c |] eqn:Ec; [| discriminate].
  pose proof (array_get_nth grid (cy st) r row Erow Er) as Hrow.
  pose proof (array_get_nth row (cx st) c cell Ecell Ec) as Hcell.
  pose proof (interact_lit_more cell
                ((x st - cx st - Fin 0.5)%num, (y st - cy st - Fin 0.5)%num)
                (dx st, dy st) (normal st) color) as Hlit.
  pose proof (interact_length cell
                ((x st - cx st - Fin 0.5)%num, (y st - cy st - Fin 0.5)%num)
                (dx st, dy st) (normal st) color) as [Hlen Hlen1].
  destruct (interact cell _ _ _ color) as [cell' [segments terminate]].
  cbn [fst snd] in Hlit, Hlen, Hlen1. cbv zeta in H.
  pose proof (grid_store_lit_more grid r c row cell cell' Hrow Hcell Hlit) as Hgrid1.
  destruct (push_segments_path segments st) as [added [Hpath Hadded]].
  pose proof (push_segments_count segments st) as Hcount.
  assert (Hglass : without_glass grid -> (List.length segments <= 1)%nat).
  { intros Hgrid. apply Hlen1.
    exact (without_glass_cell grid r c row cell Hgrid Hrow Hcell). }
  destruct terminate.
  { injection H as <- <- <-.
    split; [exact Hgrid1 |]. split; [lia |]. split; [lia |].
    split; [intros Hgrid; specialize (Hglass Hgrid); lia |].
    exists added. split; [exact Hpath | lia]. }
  pose proof (advance_count (fold_left push_segment segments st)) as Hcount2.
  pose proof (advance_path (fold_left push_segment segments st)) as Hpath2.
  remember (advance (fold_left push_segment segments st)) as st2 eqn:Est2.
  clear Est2.
  destruct (out_of_grid gridWidth gridHeight st2).
  { injection H as <- <- <-.
    cbn [interactionCount path]. rewrite Hcount2, Hpath2.
    split; [exact Hgrid1 |]. split; [lia |]. split; [lia |].
    split; [intros Hgrid; specialize (Hglass Hgrid); lia |].
    exists (added ++ [(x st2, y st2)]).
    split; [rewrite Hpath, app_assoc; reflexivity |].
    rewrite length_app. cbn [List.length]. lia. }
  apply IH in H.
  destruct H as [Hgrid' [Hc1 [Hc2 [Hc3 [added' [Hpath' Hadded']]]]]].
  rewrite Hcount2 in Hc1, Hc2, Hc3, Hadded'. rewrite Hpath2 in Hpath'.
  split; [exact (grid_lit_more_trans _ _ _ Hgrid1 Hgrid') |].
  split; [lia |]. split; [lia |].
  split.
  { intros Hgrid. specialize (Hglass Hgrid).
    specialize (Hc3 (without_glass_lit_more _ _ Hgrid Hgrid1)). lia. }
  exists (added ++ added').
  split; [rewrite Hpath', Hpath, app_assoc; reflexivity |].
  rewrite length_app. lia.
Qed.

Lemma trace_beams_invariants (gridWidth gridHeight : nat) :
  forall (fuel : nat) (beams : list LightBeam) (grid grid' : Grid)
         (traced : list LightBeam),
    trace_beams fuel gridWidth gridHeight grid beams = Ok (grid', traced) ->
    grid_lit_more grid grid' /\
    Forall2 (traced_from 201) beams traced /\
    (without_glass grid -> Forall2 (traced_from 101) beams traced).
Proof.
  intros fuel. induction beams as [| beam rest IH]; intros grid grid' traced H.
  - injection H as <- <-. split; [apply grid_lit_more_refl |].
    split; [constructor | intros _; constructor].
  - cbn [trace_beams] in H. unfold bind in H.
    destruct (trace_beam fuel gridWidth gridHeight grid beam)
      as [[[ending grid1] st] | |] eqn:E1; try discriminate.
    destruct (trace_beams fuel gridWidth gridHeight grid1 rest)
      as [[grid2 traced'] | |] eqn:E2; try discriminate.
    injection H as <- <-.
    unfold trace_beam in E1. apply trace_loop_invariants in E1.
    destruct E1 as [Hgrid1 [_ [Hc2 [Hc3 [added [Hpath Hadded]]]]]].
    destruct (IH _ _ _ E2) as [Hgrid2 [Hrest Hrest']].
    cbn [initial_state interactionCount path] in Hc2, Hc3, Hpath, Hadded.
    rewrite <- surjective_pairing in Hpath.
    assert (Hshape : forall limit,
               (List.length added <= limit)%nat ->
               traced_from limit beam
                 (mkBeam (beam_start beam) (beam_direction beam) (beam_cell beam)
                         (beam_color beam) (path st))).
    { intros limit Hlimit. unfold traced_from.
      cbn [beam_start beam_direction beam_cell beam_color beam_path].
      repeat (split; [reflexivity |]).
      exists added. split; [exact Hpath | exact Hlimit]. }
    split; [exact (grid_lit_more_trans _ _ _ Hgrid1 Hgrid2) |].
    split.
    + constructor; [| exact Hrest]. apply Hshape. destruct ending; lia.
    + intros Hgrid. specialize (Hc3 Hgrid).
      constructor; [| exact (Hrest' (without_glass_lit_more _ _ Hgrid Hgrid1))].
      apply Hshape. destruct ending; lia.
Qed.

(** A yellow beam that enters a grid of one target from above: the target
    ends it and is lit. *)
Lemma beam_lights_target :
  exists p,
    trackRays 2 target_grid [beam_yellow]
    = Ok ([[TargetCell (Some true)]],
          [mkBeam (beam_start beam_yellow) (beam_direction beam_yellow)
                  (beam_cell beam_yellow) (beam_color beam_yellow)
                  [(Fin 0.5, Fin (-0.1)); p]]).
Proof.
  unfold trackRays, target_grid. cbn [List.length trace_beams].
  unfold trace_beam.
  change (initial_state beam_yellow)
    with (fin_state 0 0.5 (-0.1) 0 1 0 0 0.5 (-0.1) 0 1 [(Fin 0.5, Fin (-0.1))]).
  rewrite (trace_loop_round_terminate 1 1 1 (beam_color beam_yellow) [[new_TargetCell]]
             0 0.5 (-0.1) 0 1 0 0 0.5 (-0.1) 0 1 [(Fin 0.5, Fin (-0.1))]
             [new_TargetCell] new_TargetCell (TargetCell (Some true))
             [mkSegment (Fin (0.5 - 0 - 0.5), Fin (-0.1 - 0 - 0.5)) (Fin 0, Fin 1)]);
    try reflexivity; try lia.
  eexists. reflexivity.
Qed.

(** X12: [trackRays] gives back the beams it was given, in their order, each with
    its start, direction, cell and colour, and with a new path that begins at
    the start point of the beam and has at most 201 more points; at most 101
    more in a grid without glass block.  The path a beam came with is
    dropped. *)
Theorem trackRays_result_shape :
  forall (fuel : nat) (grid grid' : Grid) (beams traced : list LightBeam),
    trackRays fuel grid beams = Ok (grid', traced) ->
    Forall2 (traced_from 201) beams traced /\
    (without_glass grid -> Forall2 (traced_from 101) beams traced).
Proof.
  intros fuel grid grid' beams traced H. unfold trackRays in H.
  destruct grid as [| row0 rows]; [discriminate |].
  apply trace_beams_invariants in H. destruct H as [_ H]. exact H.
Qed.

Lemma trackRays_result_shape_witness :
  exists grid' traced,
    trackRays 2 target_grid [beam_yellow] = Ok (grid', traced) /\
    Forall2 (traced_from 201) [beam_yellow] traced /\
    (without_glass target_grid -> Forall2 (traced_from 101) [beam_yellow] traced).
Proof.
  destruct beam_lights_target as [p H].
  eexists; eexists. split; [exact H |].
  exact (trackRays_result_shape 2 target_grid _ [beam_yellow] _ H).
Defined.

(** X13: tracing leaves the grid as it is but for the [receive] of targets, which
    it only ever sets to [true]: no cell is replaced, moved or turned, and no
    target it finds lit is unlit afterwards. *)
Theorem trackRays_only_lights_targets :
  forall (fuel : nat) (grid grid' : Grid) (beams traced : list LightBeam),
    trackRays fuel grid beams = Ok (grid', traced) ->
    grid_lit_more grid grid'.
Proof.
  intros fuel grid grid' beams traced H. unfold trackRays in H.
  destruct grid as [| row0 rows]; [discriminate |].
  apply trace_beams_invariants in H. destruct H as [H _]. exact H.
Qed.

Lemma trackRays_only_lights_targets_witness :
  exists grid' traced,
    trackRays 2 target_grid [beam_yellow] = Ok (grid', traced) /\
    grid_lit_more target_grid grid'.
Proof.
  destruct beam_lights_target as [p H].
  eexists; eexists. split; [exact H |].
  exact (trackRays_only_lights_targets 2 target_grid _ [beam_yellow] _ H).
Defined.

(** ** Inputs on which tracing throws or does not return *)

(** X14: a beam whose cell is not a cell of the grid (the row or the column is
    not an index of the grid, or the grid is empty) makes [trackRays] throw
    when its turn comes: here for the first beam. *)
Theorem trackRays_start_cell_outside_grid_throws :
  forall (fuel : nat) (grid : Grid) (beam : LightBeam) (beams : list LightBeam),
    (forall row, array_get grid (snd (beam_cell beam)) = Some row ->
                 array_get row (fst (beam_cell beam)) = None) ->
    trackRays (S fuel) grid (beam :: beams) = TypeError.
Proof.
  intros fuel grid beam beams Hcell. unfold trackRays.
  destruct grid as [| row0 rows]; [reflexivity |].
  cbn [trace_beams]. unfold trace_beam. rewrite trace_loop_S.
  cbn [initial_state interactionCount cx cy].
  change (0 <? MAX_INTERACTIONS)%nat with true. cbv iota.
  destruct (array_get (row0 :: rows) (snd (beam_cell beam))) as [row |];
    [| reflexivity].
  rewrite (Hcell row eq_refl). reflexivity.
Qed.

Lemma trackRays_start_cell_outside_grid_throws_witness :
  (forall row, array_get yellow_block_grid (Fin 0) = Some row ->
               array_get row (Fin 1) = None) /\
  trackRays 1 yellow_block_grid
            [mkBeam (Fin 1.5, Fin (-0.1)) (Fin 0, Fin 1) (Fin 1, Fin 0) None []]
  = TypeError.
Proof.
  assert (H : forall row, array_get yellow_block_grid (Fin 0) = Some row ->
                          array_get row (Fin 1) = None).
  { intros row. rewrite (array_get_IZR yellow_block_grid 0) by lia.
    intros E. injection E as <-.
    rewrite (array_get_IZR [BlockCell "yellow"] 1) by lia. reflexivity. }
  split; [exact H |].
  apply (trackRays_start_cell_outside_grid_throws 0 yellow_block_grid
           (mkBeam (Fin 1.5, Fin (-0.1)) (Fin 0, Fin 1) (Fin 1, Fin 0) None []) []).
  exact H.
Defined.

Lemma grid_store_same (grid : Grid) (r c : nat) (row : list Cell) (cell : Cell) :
  nth_error grid r = Some row ->
  nth_error row c = Some cell ->
  grid_store grid r c cell = grid.
Proof.
  assert (Hset : forall (A : Type) (a : list A) (n : nat) (v : A),
             nth_error a n = Some v -> array_set a n v = a).
  { intros A a. induction a as [| h rest IH]; intros n v Hn.
    - reflexivity.
    - destruct n as [| n]; cbn [nth_error array_set] in *.
      + injection Hn as ->. reflexivity.
      + rewrite (IH n v Hn). reflexivity. }
  intros Hrow Hcell. unfold grid_store. rewrite Hrow.
  rewrite (Hset _ row c cell Hcell). apply Hset. exact Hrow.
Qed.

(** The loop on a ray whose direction is the zero vector, in an empty cell:
    the step to the next grid line stays in the cell, nothing is counted, and
    the loop does not end. *)
Lemma trace_loop_zero_direction (gridWidth gridHeight : nat) (color : Color)
    (grid : Grid) (col row : Z) (cells : list Cell) :
  in_grid gridWidth gridHeight col row ->
  nth_error grid (Z.to_nat row) = Some cells ->
  nth_error cells (Z.to_nat col) = Some EmptyCell ->
  forall (fuel : nat) (st : TraceState),
    (interactionCount st < 100)%nat ->
    dx st = Fin 0 -> dy st = Fin 0 ->
    cx st = Fin (IZR col) -> cy st = Fin (IZR row) ->
    trace_loop fuel gridWidth gridHeight color grid st = OutOfFuel.
Proof.
  intros [Hcol Hrow] Ecells Ecell.
  induction fuel as [| fuel IH]; intros st Hcount Hdx Hdy Hcx Hcy; [reflexivity |].
  rewrite trace_loop_S. unfold MAX_INTERACTIONS.
  rewrite (proj2 (Nat.ltb_lt _ 100) Hcount).
  rewrite Hcx, Hcy.
  rewrite (array_get_IZR grid row) by lia. rewrite Ecells.
  rewrite (array_get_IZR cells col) by lia. rewrite Ecell.
  rewrite !to_index_IZR by lia.
  cbn [interact BaseCell_interact]. cbv zeta. cbn [fold_left].
  rewrite (grid_store_same grid _ _ cells EmptyCell Ecells Ecell).
  assert (Hcx' : cx (advance st) = Fin (IZR col)).
  { unfold advance. cbn [cx]. rewrite Hdx, Hdy, Hcx.
    unfold Num.neq. cbn [Num.eq]. rewrite !Reqb_true by reflexivity.
    cbn [negb Num.lt]. reflexivity. }
  assert (Hcy' : cy (advance st) = Fin (IZR row)).
  { unfold advance. cbn [cy]. rewrite Hdx, Hdy, Hcy.
    unfold Num.neq. cbn [Num.eq]. rewrite !Reqb_true by reflexivity.
    cbn [negb Num.lt Num.sign Num.add]. rdecide.
    cbn [Num.add]. apply f_equal. lra. }
  assert (Hout : out_of_grid gridWidth gridHeight (advance st) = false).
  { unfold out_of_grid. rewrite Hcx', Hcy'. unfold Num.ge. cbn [Num.lt Num.le].
    rewrite !INR_IZR_INZ.
    rewrite (Rltb_false (IZR col) 0) by (apply (IZR_le 0); lia).
    rewrite (Rleb_false (IZR (Z.of_nat gridWidth)) (IZR col)) by (apply IZR_lt; lia).
    rewrite (Rltb_false (IZR row) 0) by (apply (IZR_le 0); lia).
    rewrite (Rleb_false (IZR (Z.of_nat gridHeight)) (IZR row)) by (apply IZR_lt; lia).
    reflexivity. }
  rewrite Hout. apply IH; try assumption.
Qed.

(** X15: a beam whose direction is the zero vector and whose cell is an empty
    cell of the grid: [trackRays] never returns, whatever the start point,
    the colour and the other beams (the [while] loop runs without counting
    an interaction and without leaving the cell). *)
Theorem trackRays_zero_direction_never_returns :
  forall (fuel : nat) (grid : Grid) (col row : Z) (cells : list Cell)
         (start : vec) (color : Color) (points : list vec)
         (beams : list LightBeam),
    (0 <= col)%Z -> (0 <= row)%Z ->
    Forall (fun r => List.length r = List.length (hd [] grid)) grid ->
    nth_error grid (Z.to_nat row) = Some cells ->
    nth_error cells (Z.to_nat col) = Some EmptyCell ->
    trackRays fuel grid
              (mkBeam start (Fin 0, Fin 0) (Fin (IZR col), Fin (IZR row)) color
                      points :: beams)
    = OutOfFuel.
Proof.
  intros fuel grid col row cells start color points beams Hcol Hrow Hrect
         Ecells Ecell.
  assert (Hr : (Z.to_nat row < List.length grid)%nat).
  { apply nth_error_Some. rewrite Ecells. discriminate. }
  assert (Hc : (Z.to_nat col < List.length cells)%nat).
  { apply nth_error_Some. rewrite Ecell. discriminate. }
  unfold trackRays. destruct grid as [| row0 rows]; [cbn in Hr; lia |].
  cbn [hd] in Hrect. rewrite Forall_forall in Hrect.
  specialize (Hrect cells (nth_error_In _ _ Ecells)).
  cbn [trace_beams]. unfold trace_beam.
  rewrite (trace_loop_zero_direction (List.length row0) (List.length (row0 :: rows))
             color (row0 :: rows) col row cells); try reflexivity; try assumption.
  - split; lia.
  - cbn. lia.
Qed.

Lemma trackRays_zero_direction_never_returns_witness :
  ((0 <= 0)%Z /\ (0 <= 0)%Z /\
   Forall (fun r => List.length r = List.length (hd [] [[EmptyCell]])) [[EmptyCell]] /\
   nth_error [[EmptyCell]] (Z.to_nat 0) = Some [EmptyCell] /\
   nth_error [EmptyCell] (Z.to_nat 0) = Some EmptyCell) /\
  trackRays 1000 [[EmptyCell]]
            [mkBeam (Fin 0.5, Fin 0.5) (Fin 0, Fin 0) (Fin 0, Fin 0) None []]
  = OutOfFuel.
Proof.
  assert (Hrect : Forall (fun r => List.length r = List.length (hd [] [[EmptyCell]]))
                         [[EmptyCell]]).
  { constructor; [reflexivity | constructor]. }
  split.
  { split; [lia |]. split; [lia |]. split; [exact Hrect |]. split; reflexivity. }
  apply (trackRays_zero_direction_never_returns 1000 [[EmptyCell]] 0 0 [EmptyCell]
           (Fin 0.5, Fin 0.5) None [] []);
    [lia | lia | exact Hrect | reflexivity | reflexivity].
Defined.

(** X16: a ray that reaches a glass block which has no index for the colour of
    the beam (an unset colour included) with fewer than 98 interactions
    counted: the two segments it gets have NaN directions, the step to the
    next grid line makes the row index NaN, which passes the bounds test, and
    the next read of [grid[cy][cx]] throws. *)
Theorem trace_loop_missing_index_throws :
  forall (fuel gridWidth gridHeight : nat) (color : Color) (grid : Grid)
         (st : TraceState) (col row : Z) (cells : list Cell)
         (refractiveIndices : list (string * num)),
    (interactionCount st < 98)%nat ->
    cx st = Fin (IZR col) -> cy st = Fin (IZR row) ->
    in_grid gridWidth gridHeight col row ->
    nth_error grid (Z.to_nat row) = Some cells ->
    nth_error cells (Z.to_nat col) = Some (GlassBlockCell refractiveIndices) ->
    get_property refractiveIndices (property_key color) = None ->
    trace_loop (S (S fuel)) gridWidth gridHeight color grid st = TypeError.
Proof.
  intros fuel gridWidth gridHeight color grid st col row cells refractiveIndices
         Hcount Hcx Hcy [Hcol Hrow] Ecells Ecell Hidx.
  rewrite trace_loop_S. unfold MAX_INTERACTIONS.
  rewrite (proj2 (Nat.ltb_lt _ 100)) by lia.
  rewrite Hcx, Hcy.
  rewrite (array_get_IZR grid row) by lia. rewrite Ecells.
  rewrite (array_get_IZR cells col) by lia. rewrite Ecell.
  rewrite !to_index_IZR by lia.
  cbn [interact].
  rewrite (GlassBlockCell_missing_index_segments refractiveIndices color _ _ _ Hidx).
  cbv zeta. cbn [fold_left].
  rewrite (grid_store_same grid _ _ cells _ Ecells Ecell).
  set (st1 := push_segment (push_segment st _) _).
  assert (Hdx : dx st1 = NaN) by reflexivity.
  assert (Hdy : dy st1 = NaN) by reflexivity.
  assert (Hcx1 : cx st1 = Fin (IZR col)) by exact Hcx.
  assert (Hcount1 : interactionCount st1 = S (S (interactionCount st))) by reflexivity.
  assert (Hcx2 : cx (advance st1) = Fin (IZR col)).
  { unfold advance. cbn [cx]. rewrite Hdx, Hdy, Hcx1.
    unfold Num.neq. cbn [Num.eq negb Num.lt].
    rewrite !div_NaN_r. reflexivity. }
  assert (Hcy2 : cy (advance st1) = NaN).
  { unfold advance. cbn [cy]. rewrite Hdx, Hdy.
    unfold Num.neq. cbn [Num.eq negb Num.lt].
    rewrite !div_NaN_r. cbn [Num.lt Num.sign]. apply add_NaN_r. }
  assert (Hout : out_of_grid gridWidth gridHeight (advance st1) = false).
  { unfold out_of_grid. rewrite Hcx2, Hcy2. unfold Num.ge. cbn [Num.lt Num.le].
    rewrite !INR_IZR_INZ.
    rewrite (Rltb_false (IZR col) 0) by (apply (IZR_le 0); lia).
    rewrite (Rleb_false (IZR (Z.of_nat gridWidth)) (IZR col)) by (apply IZR_lt; lia).
    reflexivity. }
  rewrite Hout. rewrite trace_loop_S. unfold MAX_INTERACTIONS.
  rewrite advance_count, Hcount1.
  rewrite (proj2 (Nat.ltb_lt _ 100)) by lia.
  rewrite Hcy2. reflexivity.
Qed.

Lemma trace_loop_missing_index_throws_witness :
  ((interactionCount (initial_state beam_without_color) < 98)%nat /\
   cx (initial_state beam_without_color) = Fin (IZR 0) /\
   cy (initial_state beam_without_color) = Fin (IZR 0) /\
   in_grid 1 1 0 0 /\
   nth_error glass_grid (Z.to_nat 0) = Some [new_GlassBlockCell None] /\
   nth_error [new_GlassBlockCell None] (Z.to_nat 0)
   = Some (GlassBlockCell default_refractiveIndices) /\
   get_property default_refractiveIndices (property_key None) = None) /\
  trace_loop 2 1 1 None glass_grid (initial_state beam_without_color) = TypeError.
Proof.
  split.
  { split; [cbn; lia |]. split; [reflexivity |]. split; [reflexivity |].
    split; [unfold in_grid; lia |]. split; [reflexivity |]. split; reflexivity. }
  apply (trace_loop_missing_index_throws 0 1 1 None glass_grid
           (initial_state beam_without_color) 0 0 [new_GlassBlockCell None]
           default_refractiveIndices);
    [cbn; lia | reflexivity | reflexivity | unfold in_grid; lia
     | reflexivity | reflexivity | reflexivity].
Defined.

(** ** The targets of a level *)

Lemma findTargets_row_In (row : list Cell) (y : nat) :
  forall (x0 r c : nat),
    In (r, c) (findTargets_row row y x0) <->
    r = y /\ (x0 <= c)%nat /\
    exists receive, nth_error row (c - x0) = Some (TargetCell receive).
Proof.
  induction row as [| cell rest IH]; intros x0 r c; cbn [findTargets_row].
  - split; [intros [] |]. intros [_ [_ [receive H]]].
    destruct (c - x0)%nat; discriminate.
  - rewrite in_app_iff, IH. split.
    + intros [Hhead | [-> [Hle [receive H]]]].
      * destruct cell; cbn [is_TargetCell In] in Hhead;
          try contradiction.
        destruct Hhead as [Hhead | []]. injection Hhead as <- <-.
        split; [reflexivity |]. split; [lia |].
        exists receive. rewrite Nat.sub_diag. reflexivity.
      * split; [reflexivity |]. split; [lia |]. exists receive.
        replace (c - x0)%nat with (S (c - S x0)) by lia. exact H.
    + intros [-> [Hle [receive H]]].
      destruct (Nat.eq_dec c x0) as [-> | Hne].
      * left. rewrite Nat.sub_diag in H. cbn [nth_error] in H.
        injection H as ->. cbn [is_TargetCell In]. left. reflexivity.
      * right. split; [reflexivity |]. split; [lia |]. exists receive.
        replace (c - x0)%nat with (S (c - S x0)) in H by lia. exact H.
Qed.

Lemma findTargets_rows_In (rows : Grid) :
  forall (y0 r c : nat),
    In (r, c) (findTargets_rows rows y0) <->
    (y0 <= r)%nat /\
    exists row receive,
      nth_error rows (r - y0) = Some row /\
      nth_error row c = Some (TargetCell receive).
Proof.
  induction rows as [| row rest IH]; intros y0 r c; cbn [findTargets_rows].
  - split; [intros [] |]. intros [_ [row [receive [H _]]]].
    destruct (r - y0)%nat; discriminate.
  - rewrite in_app_iff, IH, findTargets_row_In. split.
    + intros [[-> [_ [receive H]]] | [Hle [row' [receive [Hrow Hcell]]]]].
      * split; [lia |]. exists row, receive. rewrite Nat.sub_diag.
        rewrite Nat.sub_0_r in H. split; [reflexivity | exact H].
      * split; [lia |]. exists row', receive.
        replace (r - y0)%nat with (S (r - S y0)) by lia. split; assumption.
    + intros [Hle [row' [receive [Hrow Hcell]]]].
      destruct (Nat.eq_dec r y0) as [-> | Hne].
      * left. rewrite Nat.sub_diag in Hrow. cbn [nth_error] in Hrow.
        injection Hrow as ->. split; [reflexivity |]. split; [lia |].
        exists receive. rewrite Nat.sub_0_r. exact Hcell.
      * right. split; [lia |]. exists row', receive.
        replace (r - y0)%nat with (S (r - S y0)) in Hrow by lia.
        split; assumption.
Qed.

Lemma findTargetCells_In (grid : Grid) (ref : CellRef) :
  In ref (findTargetCells grid) <->
  exists receive, deref grid ref = Some (TargetCell receive).
Proof.
  destruct ref as [r c]. unfold findTargetCells, deref. cbn [fst snd].
  rewrite findTargets_rows_In. rewrite Nat.sub_0_r. split.
  - intros [_ [row [receive [Hrow Hcell]]]]. exists receive.
    rewrite Hrow. exact Hcell.
  - intros [receive H]. split; [lia |].
    destruct (nth_error grid r) as [row |]; [| discriminate].
    exists row, receive. split; [reflexivity | exact H].
Qed.

Lemma findTargets_row_NoDup (row : list Cell) (y : nat) :
  forall x0, NoDup (findTargets_row row y x0).
Proof.
  induction row as [| cell rest IH]; intros x0; cbn [findTargets_row].
  - constructor.
  - apply NoDup_app; [| apply IH |].
    + destruct (is_TargetCell cell); repeat constructor. intros [].
    + intros [r c] Hhead Hrest. apply findTargets_row_In in Hrest.
      destruct (is_TargetCell cell); [| contradiction].
      destruct Hhead as [Hhead | []]. injection Hhead as <- <-. lia.
Qed.

Lemma findTargets_rows_NoDup (rows : Grid) :
  forall y0, NoDup (findTargets_rows rows y0).
Proof.
  induction rows as [| row rest IH]; intros y0; cbn [findTargets_rows].
  - constructor.
  - apply NoDup_app; [apply findTargets_row_NoDup | apply IH |].
    intros [r c] Hhead Hrest.
    apply findTargets_row_In in Hhead. apply findTargets_rows_In in Hrest. lia.
Qed.

(** X17: [findTargetCells] lists the targets of the grid, all of them and nothing
    else, each one once. *)
Theorem findTargetCells_spec :
  forall (grid : Grid),
    NoDup (findTargetCells grid) /\
    forall ref,
      In ref (findTargetCells grid) <->
      exists receive, deref grid ref = Some (TargetCell receive).
Proof.
  intros grid. split.
  - apply findTargets_rows_NoDup.
  - apply findTargetCells_In.
Qed.

Lemma deref_parseGrid (gridData : list (list CellData)) (r c : nat) :
  deref (parseGrid gridData) (r, c)
  = match nth_error gridData r with
    | Some row => option_map parseCell (nth_error row c)
    | None => None
    end.
Proof.
  unfold deref, parseGrid. cbn [fst snd]. rewrite nth_error_map.
  destruct (nth_error gridData r) as [row |]; [| reflexivity].
  cbn [option_map]. apply nth_error_map.
Qed.

Lemma parseCell_Target (cellData : CellData) :
  (exists receive, parseCell cellData = TargetCell receive) <->
  cd_type cellData = "Target"%string.
Proof.
  unfold parseCell. cbv zeta. split.
  - intros [receive H].
    destruct (String.eqb (cd_type cellData) "Empty"); [discriminate |].
    destruct (String.eqb (cd_type cellData) "Block"); [discriminate |].
    destruct (String.eqb (cd_type cellData) "GlassBlock"); [discriminate |].
    destruct (String.eqb (cd_type cellData) "Target") eqn:E;
      [apply String.eqb_eq; exact E |].
    destruct (String.eqb (cd_type cellData) "FixedMirror"); [discriminate |].
    destruct (String.eqb (cd_type cellData) "RotatableMirror"); [discriminate |].
    destruct (String.eqb (cd_type cellData) "Cross"); discriminate.
  - intros ->. exists None. reflexivity.
Qed.

Lemma loadLevel_fields (level : Level) (g : Game) :
  grid (loadLevel level g) = parseGrid (level_grid level) /\
  initBeams (loadLevel level g) = level_beams level /\
  targetCells (loadLevel level g) = findTargetCells (parseGrid (level_grid level)).
Proof.
  unfold loadLevel. destruct (parseGrid (level_grid level)); repeat split.
Qed.

(** X18: the targets of a freshly loaded level are the positions of the level
    data whose type is "Target", each one once, and none of them is lit: the
    win condition is false. *)
Theorem loadLevel_targetCells :
  forall (level : Level) (g : Game),
    NoDup (targetCells (loadLevel level g)) /\
    (forall r c,
       In (r, c) (targetCells (loadLevel level g)) <->
       exists row cellData,
         nth_error (level_grid level) r = Some row /\
         nth_error row c = Some cellData /\
         cd_type cellData = "Target"%string) /\
    checkWinCondition (loadLevel level g) = false.
Proof.
  intros level g.
  destruct (loadLevel_fields level g) as [Hgrid [_ Htargets]].
  unfold checkWinCondition. rewrite Htargets, Hgrid.
  split; [apply findTargets_rows_NoDup |]. split.
  - intros r c. rewrite findTargetCells_In.
    setoid_rewrite deref_parseGrid. split.
    + intros [receive H].
      destruct (nth_error (level_grid level) r) as [row |]; [| discriminate].
      destruct (nth_error row c) as [cellData |] eqn:Ecell; [| discriminate].
      cbn [option_map] in H. injection H as H.
      exists row, cellData. split; [reflexivity |]. split; [exact Ecell |].
      apply parseCell_Target. exists receive. exact H.
    + intros [row [cellData [-> [Hcell Htype]]]]. rewrite Hcell. cbn [option_map].
      apply parseCell_Target in Htype. destruct Htype as [receive ->].
      exists receive. reflexivity.
  - destruct (findTargetCells (parseGrid (level_grid level))) as [| [r c] rest] eqn:E;
      [reflexivity |].
    cbn [List.length Nat.eqb].
    assert (Hin : In (r, c) (findTargetCells (parseGrid (level_grid level))))
      by (rewrite E; left; reflexivity).
    apply findTargetCells_In in Hin. destruct Hin as [receive Hin].
    rewrite deref_parseGrid in Hin.
    destruct (nth_error (level_grid level) r) as [row |] eqn:Erow; [| discriminate].
    destruct (nth_error row c) as [cellData |] eqn:Ecell; [| discriminate].
    cbn [option_map] in Hin. injection Hin as Hin.
    assert (Hcell : parseCell cellData = TargetCell None).
    { assert (Htype : cd_type cellData = "Target"%string)
        by (apply parseCell_Target; exists receive; exact Hin).
      unfold parseCell. rewrite Htype. reflexivity. }
    assert (Hunlit : target_receive (parseGrid (level_grid level)) (r, c) = false).
    { unfold target_receive. rewrite deref_parseGrid, Erow, Ecell.
      cbn [option_map]. rewrite Hcell. reflexivity. }
    cbn [filter forallb]. rewrite Hunlit.
    cbn [existsb]. 
    destruct (existsb (CellRef_eqb (r, c))
                (filter (target_receive (parseGrid (level_grid level))) rest)) eqn:Eex;
      [| reflexivity].
    apply existsb_exists in Eex. destruct Eex as [hit [Hhit Heq]].
    apply CellRef_eqb_eq in Heq. subst hit.
    apply filter_In in Hhit. destruct Hhit as [_ Hhit]. congruence.
Qed.

(** ** The reset of the targets *)

Lemma nth_error_array_set {A : Type} (a : list A) (n m : nat) (v : A) :
  nth_error (array_set a n v) m
  = if (m =? n)%nat
    then match nth_error a n with Some _ => Some v | None => None end
    else nth_error a m.
Proof.
  revert n m. induction a as [| h rest IH]; intros n m.
  - cbn [array_set]. destruct (m =? n)%nat; destruct n, m; reflexivity.
  - destruct n as [| n], m as [| m]; cbn [array_set nth_error Nat.eqb];
      try reflexivity.
    apply IH.
Qed.

Lemma deref_grid_store (grid : Grid) (r c : nat) (cell : Cell) (ref : CellRef) :
  deref (grid_store grid r c cell) ref
  = if CellRef_eqb ref (r, c)
    then match deref grid (r, c) with Some _ => Some cell | None => None end
    else deref grid ref.
Proof.
  destruct ref as [r' c']. unfold deref, grid_store, CellRef_eqb. cbn [fst snd].
  destruct (nth_error grid r) as [row |] eqn:Erow.
  - rewrite nth_error_array_set, Erow.
    destruct (r' =? r)%nat eqn:Er; cbn [andb].
    + apply Nat.eqb_eq in Er. subst r'. rewrite nth_error_array_set.
      rewrite Erow. reflexivity.
    + reflexivity.
  - destruct (r' =? r)%nat eqn:Er; cbn [andb]; [| reflexivity].
    apply Nat.eqb_eq in Er. subst r'. rewrite Erow.
    destruct (c' =? c)%nat; reflexivity.
Qed.

Lemma deref_reset_receive (grid : Grid) (target ref : CellRef) :
  deref (reset_receive grid target) ref
  = match deref grid ref with
    | Some (TargetCell receive) =>
        Some (TargetCell (if CellRef_eqb ref target then Some false else receive))
    | other => other
    end.
Proof.
  unfold reset_receive.
  destruct (CellRef_eqb ref target) eqn:E.
  - apply CellRef_eqb_eq in E. subst ref.
    destruct (deref grid target) as [[] |] eqn:Et; rewrite ?Et; try reflexivity.
    rewrite deref_grid_store. rewrite <- surjective_pairing.
    rewrite (proj2 (CellRef_eqb_eq target target) eq_refl), Et. reflexivity.
  - assert (Hsame : deref grid ref
                    = match deref grid ref with
                      | Some (TargetCell receive) => Some (TargetCell receive)
                      | other => other
                      end).
    { destruct (deref grid ref) as [[] |]; reflexivity. }
    destruct (deref grid target) as [[] |]; try exact Hsame.
    rewrite deref_grid_store. rewrite <- surjective_pairing, E. exact Hsame.
Qed.

Lemma deref_reset_all (targets : list CellRef) :
  forall (grid : Grid) (ref : CellRef),
    deref (fold_left reset_receive targets grid) ref
    = match deref grid ref with
      | Some (TargetCell receive) =>
          Some (TargetCell (if existsb (CellRef_eqb ref) targets
                            then Some false else receive))
      | other => other
      end.
Proof.
  induction targets as [| target rest IH]; intros grid ref; cbn [fold_left existsb].
  - destruct (deref grid ref) as [[] |]; reflexivity.
  - rewrite IH, deref_reset_receive.
    destruct (deref grid ref) as [[] |]; try reflexivity.
    destruct (CellRef_eqb ref target); cbn [orb]; [| reflexivity].
    destruct (existsb _ rest); reflexivity.
Qed.

Lemma reset_all_length (targets : list CellRef) :
  forall (grid : Grid),
    List.length (fold_left reset_receive targets grid) = List.length grid.
Proof.
  induction targets as [| target rest IH]; intros grid; cbn [fold_left];
    [reflexivity |].
  rewrite IH. unfold reset_receive.
  destruct (deref grid target) as [[] |]; try reflexivity.
  unfold grid_store. destruct (nth_error grid (fst target)); [| reflexivity].
  apply array_set_length.
Qed.

Lemma grid_ext (g1 g2 : Grid) :
  List.length g1 = List.length g2 ->
  (forall ref, deref g1 ref = deref g2 ref) ->
  g1 = g2.
Proof.
  intros Hlen Hderef. apply nth_error_ext. intros r.
  destruct (nth_error g1 r) as [row1 |] eqn:E1.
  - destruct (nth_error g2 r) as [row2 |] eqn:E2.
    + f_equal. apply nth_error_ext. intros c.
      specialize (Hderef (r, c)). unfold deref in Hderef. cbn [fst snd] in Hderef.
      rewrite E1, E2 in Hderef. exact Hderef.
    + apply nth_error_None in E2.
      assert (r < List.length g1)%nat by (apply nth_error_Some; congruence). lia.
  - apply nth_error_None in E1. symmetry. apply nth_error_None. lia.
Qed.

(** X19: the reset that [updateAndRender] runs before tracing, on the targets
    that [findTargetCells] found: every target of the grid is unlit
    afterwards, whatever its [receive] was, and no other cell has changed. *)
Theorem reset_unlights_every_target :
  forall (grid : Grid),
    fold_left reset_receive (findTargetCells grid) grid = map (map unlight) grid.
Proof.
  intros grid. apply grid_ext.
  - rewrite reset_all_length, length_map. reflexivity.
  - intros ref. rewrite deref_reset_all.
    assert (Hmap : deref (map (map unlight) grid) ref
                   = option_map unlight (deref grid ref)).
    { unfold deref. rewrite nth_error_map.
      destruct (nth_error grid (fst ref)) as [row |]; [| reflexivity].
      cbn [option_map]. apply nth_error_map. }
    rewrite Hmap.
    destruct (deref grid ref) as [cell |] eqn:E; [| reflexivity].
    destruct cell; try reflexivity.
    assert (Hin : In ref (findTargetCells grid)).
    { apply findTargetCells_In. exists receive. exact E. }
    assert (Hex : existsb (CellRef_eqb ref) (findTargetCells grid) = true).
    { apply existsb_exists. exists ref. split; [exact Hin |].
      apply CellRef_eqb_eq. reflexivity. }
    rewrite Hex. reflexivity.
Qed.

(** ** The renderer's write to the beams *)

Lemma Renderer_drawBeams_cons (beam : LightBeam) (rest : list LightBeam) :
  Renderer_drawBeams (beam :: rest)
  = Renderer_drawBeams [beam] ++ Renderer_drawBeams rest.
Proof. reflexivity. Qed.

Lemma Renderer_drawBeams_one (beam : LightBeam) :
  exists drawn,
    Renderer_drawBeams [beam] = [drawn] /\
    Renderer_drawBeams [drawn] = [drawn] /\
    beam_path drawn = beam_path beam /\
    beam_start drawn = beam_start beam /\
    beam_direction drawn = beam_direction beam /\
    beam_cell drawn = beam_cell beam /\
    ((2 <= List.length (beam_path drawn))%nat ->
     string_truthy (beam_color drawn) = true).
Proof.
  unfold Renderer_drawBeams. cbn [map].
  destruct (List.length (beam_path beam) <? 2)%nat eqn:E.
  - exists beam. rewrite E. repeat (split; [reflexivity |]).
    apply Nat.ltb_lt in E. intros H. lia.
  - eexists. split; [reflexivity |].
    cbn [map beam_path beam_start beam_direction beam_cell beam_color]. rewrite E.
    destruct (string_truthy (beam_color beam)) eqn:Ec; rewrite ?Ec;
      cbn [string_truthy]; repeat (split; [reflexivity |]); intros _;
      reflexivity.
Qed.

(** X20: drawing the beams twice is drawing them once: the one thing drawing
    changes is an unset or empty colour of a beam that has at least two path
    points, which becomes "yellow".  Start, direction, cell and path of every
    beam are kept. *)
Theorem Renderer_drawBeams_idempotent :
  forall (beams : list LightBeam),
    Renderer_drawBeams (Renderer_drawBeams beams) = Renderer_drawBeams beams /\
    map beam_path (Renderer_drawBeams beams) = map beam_path beams /\
    map beam_start (Renderer_drawBeams beams) = map beam_start beams /\
    map beam_direction (Renderer_drawBeams beams) = map beam_direction beams /\
    map beam_cell (Renderer_drawBeams beams) = map beam_cell beams /\
    Forall (fun beam => (2 <= List.length (beam_path beam))%nat ->
                        string_truthy (beam_color beam) = true)
           (Renderer_drawBeams beams).
Proof.
  induction beams as [| beam rest IH].
  - repeat split; constructor.
  - destruct IH as [IH1 [IH2 [IH3 [IH4 [IH5 IH6]]]]].
    rewrite Renderer_drawBeams_cons.
    destruct (Renderer_drawBeams_one beam)
      as [drawn [-> [Hagain [Hpath [Hstart [Hdir [Hcell Hcolor]]]]]]].
    cbn [app map]. rewrite Renderer_drawBeams_cons, Hagain, IH1, IH2, IH3, IH4, IH5.
    rewrite Hpath, Hstart, Hdir, Hcell. cbn [app].
    repeat (split; [reflexivity |]).
    constructor; [exact Hcolor | exact IH6].
Qed.

(** ** Clearing a level *)

Lemma updateAndRender_keeps (fuel : nat) (g g' : Game) :
  updateAndRender fuel g = Ok g' ->
  isGameRunning g' = isGameRunning g /\
  isLevelClear g' = isLevelClear g /\
  gaugeValue g' = gaugeValue g /\
  lastTimestamp g' = lastTimestamp g /\
  targetCells g' = targetCells g /\
  initBeams g' = initBeams g /\
  dirty g' = false.
Proof.
  unfold updateAndRender. destruct (dirty g).
  - destruct (trackRays fuel _ _) as [[grid1 traced] | |]; cbn [bind];
      try discriminate.
    destruct (Renderer_render grid1 traced); cbn [bind]; try discriminate.
    intros H; injection H as <-. repeat split.
  - destruct (Renderer_render (grid g) (result g)); cbn [bind]; try discriminate.
    intros H; injection H as <-. repeat split.
Qed.

Lemma gameLoop_gauge_value (g : Game) (gauge last now : R) :
  gaugeValue g = Fin gauge ->
  lastTimestamp g = Fin last ->
  gaugeValue (gameLoop_gauge (Fin now) g)
  = Fin (if checkWinCondition g
         then Rmin (gauge + 0.3 * ((now - last) / 1000)) 1
         else Rmax 0 (gauge - 4 * ((now - last) / 1000))).
Proof.
  intros Hg Hlast.
  unfold gameLoop_gauge, GAUGE_FILL_RATE, GAUGE_DECAY_RATE.
  cbn. rewrite Hg, Hlast. cbn.
  rewrite (Reqb_false 1000 0) by lra. cbn.
  destruct (checkWinCondition g); cbn; f_equal.
  - unfold Rmin.
    destruct (Rle_dec (gauge + 0.3 * ((now - last) / 1000)) 1);
      [rewrite Rltb_false by lra | rewrite Rltb_true by lra]; reflexivity.
  - unfold Rmax.
    destruct (Rle_dec 0 (gauge - 4 * ((now - last) / 1000)));
      [destruct (Rltb 0 _) eqn:E; [reflexivity |];
       apply Bool.not_true_iff_false in E; rewrite Rltb_iff in E; f_equal; lra
      | rewrite Rltb_false by lra; reflexivity].
Qed.

(** A frame of a game that needs no tracing and whose grid can be drawn
    completes. *)
Lemma gameLoop_clean_returns (fuel : nat) (timestamp : num) (g : Game)
    (drawn : list LightBeam) :
  dirty g = false ->
  Renderer_render (grid g) (result g) = Ok drawn ->
  exists g', gameLoop fuel timestamp g = Ok g'.
Proof.
  intros Hclean Hdrawn. unfold gameLoop.
  destruct (negb (isGameRunning g)); [exists g; reflexivity |].
  unfold updateAndRender at 1. cbn [gameLoop_gauge dirty grid result].
  rewrite Hclean, Hdrawn.
  cbn [bind]. destruct (_ && _); [| eexists; reflexivity].
  unfold handleLevelClear, updateAndRender. cbn [dirty grid result].
  unfold Renderer_render in Hdrawn |- *.
  destruct (grid g) as [| row0 rows]; [discriminate |].
  destruct (forallb _ (row0 :: rows)); [| discriminate].
  cbn [bind]. eexists; reflexivity.
Qed.

(** X32: on the numbers of the code the sum that fills the gauge is rounded:
    from a gauge of 0.1, three seconds at 0.3 per second give a gauge below 1
    (0.9999999999999999), so that frame does not clear the level. *)
Theorem fill_gauge_in_binary64 :
  PrimFloat.ltb (Double.fill_gauge Double.tenth 3000 0) 1 = true.
Proof. vm_compute. reflexivity. Qed.

(** X21: a frame of a running, not yet cleared game whose gauge is below 1, with
    time not going back.  The level is cleared in this frame only if all
    targets were hit by the last trace and the gauge, raised by 0.3 per
    second, comes to 1 (to within 1e-9, the sum being rounded in the code);
    it is cleared if all targets were hit and the raised gauge exceeds 1 by
    1e-9; clearing stops the loop with the gauge at 1; a frame that does not
    clear leaves the game running. *)
Theorem gameLoop_clears_level_on_full_gauge :
  forall (fuel : nat) (g g' : Game) (gauge last now : R),
    isGameRunning g = true ->
    isLevelClear g = false ->
    gaugeValue g = Fin gauge ->
    lastTimestamp g = Fin last ->
    0 <= gauge < 1 ->
    last <= now ->
    gameLoop fuel (Fin now) g = Ok g' ->
    (isLevelClear g' = true ->
     checkWinCondition g = true /\
     1 - 1e-9 <= gauge + 0.3 * ((now - last) / 1000)) /\
    (checkWinCondition g = true ->
     1 + 1e-9 <= gauge + 0.3 * ((now - last) / 1000) ->
     isLevelClear g' = true) /\
    (isLevelClear g' = true ->
     isGameRunning g' = false /\ gaugeValue g' = Fin 1) /\
    (isLevelClear g' = false -> isGameRunning g' = true).
Proof.
  intros fuel g g' gauge last now Hrun Hclear Hg Hlast Hrange Htime.
  unfold gameLoop. rewrite Hrun. cbn [negb].
  destruct (updateAndRender fuel (gameLoop_gauge (Fin now) g)) as [g2 | |] eqn:E2;
    cbn [bind]; try discriminate.
  apply updateAndRender_keeps in E2.
  destruct E2 as [Hrun2 [Hclear2 [Hg2 _]]].
  rewrite (gameLoop_gauge_value g gauge last now Hg Hlast) in Hg2.
  cbn [gameLoop_gauge isGameRunning isLevelClear] in Hrun2, Hclear2.
  rewrite Hrun in Hrun2. rewrite Hclear in Hclear2.
  rewrite Hg2, Hclear2. cbn [negb]. rewrite Bool.andb_true_r.
  unfold Num.ge. cbn [Num.le].
  assert (Hdt : 0 <= (now - last) / 1000) by (apply Rle_mult_inv_pos; lra).
  destruct (checkWinCondition g).
  - unfold Rmin in *.
    destruct (Rle_dec (gauge + 0.3 * ((now - last) / 1000)) 1) as [Hle | Hgt].
    + destruct (Rleb 1 (gauge + 0.3 * ((now - last) / 1000))) eqn:Efull.
      * apply Rleb_iff in Efull.
        assert (Hone : gauge + 0.3 * ((now - last) / 1000) = 1) by lra.
        unfold handleLevelClear. intros H. apply updateAndRender_keeps in H.
        destruct H as [Hrun' [Hclear' [Hg' _]]].
        cbn [isGameRunning isLevelClear gaugeValue] in Hrun', Hclear', Hg'.
        rewrite Hrun', Hclear', Hg', Hg2, Hone.
        split; [intros _; split; [reflexivity | lra] |].
        split; [intros _ _; reflexivity |].
        split; [intros _; split; reflexivity | discriminate].
      * apply Bool.not_true_iff_false in Efull. rewrite Rleb_iff in Efull.
        intros H; injection H as <-. rewrite Hrun2, Hclear2.
        split; [discriminate |].
        split; [intros _ H; lra |].
        split; [discriminate | reflexivity].
    + rewrite Rleb_true by lra.
      unfold handleLevelClear. intros H. apply updateAndRender_keeps in H.
      destruct H as [Hrun' [Hclear' [Hg' _]]].
      cbn [isGameRunning isLevelClear gaugeValue] in Hrun', Hclear', Hg'.
      rewrite Hrun', Hclear', Hg', Hg2.
      split; [intros _; split; [reflexivity | lra] |].
      split; [intros _ _; reflexivity |].
      split; [intros _; split; reflexivity | discriminate].
  - assert (Hbelow : Rmax 0 (gauge - 4 * ((now - last) / 1000)) < 1).
    { unfold Rmax. destruct (Rle_dec 0 _); lra. }
    rewrite Rleb_false by exact Hbelow.
    intros H; injection H as <-. rewrite Hrun2, Hclear2.
    split; [discriminate |].
    split; [discriminate |].
    split; [discriminate | reflexivity].
Qed.

Lemma gameLoop_clears_level_on_full_gauge_witness :
  exists g',
    (isGameRunning game_one_lit_target = true /\
     isLevelClear game_one_lit_target = false /\
     0 <= 0.5 < 1 /\ 0 <= 2000 /\
     gameLoop 1 (Fin 2000) game_one_lit_target = Ok g') /\
    (checkWinCondition game_one_lit_target = true /\
     1 + 1e-9 <= 0.5 + 0.3 * ((2000 - 0) / 1000)) /\
    isLevelClear g' = true /\
    isGameRunning g' = false /\ gaugeValue g' = Fin 1.
Proof.
  destruct (gameLoop_clean_returns 1 (Fin 2000) game_one_lit_target [] eq_refl eq_refl)
    as [g' H].
  assert (H1 : 0 <= 0.5 < 1) by lra.
  assert (H2 : 0 <= 2000) by lra.
  assert (H3 : 1 + 1e-9 <= 0.5 + 0.3 * ((2000 - 0) / 1000)) by lra.
  exists g'. split.
  { split; [reflexivity |]. split; [reflexivity |]. split; [exact H1 |].
    split; [exact H2 | exact H]. }
  split; [split; [reflexivity | exact H3] |].
  destruct (gameLoop_clears_level_on_full_gauge 1 game_one_lit_target g' 0.5 0 2000
              eq_refl eq_refl eq_refl eq_refl H1 H2 H) as [_ [Hfill [Hstop _]]].
  pose proof (Hfill eq_refl H3) as Hcleared.
  split; [exact Hcleared | exact (Hstop Hcleared)].
Defined.

(** ** A beam in a grid of empty cells *)

Lemma grid_time_value (d a c : R) :
  d <> 0 ->
  (if (Fin d !== Fin 0)%num
   then (((if (Fin d >? Fin 0)%num then (Fin c + Fin 1)%num else Fin c) - Fin a)
         / Fin d)%num
   else PInf)
  = Fin (((if Rltb 0 d then c + 1 else c) - a) / d).
Proof.
  intros Hd. unfold Num.neq, Num.gt. cbn [Num.eq Num.lt].
  rewrite (Reqb_false d 0) by exact Hd. cbn [negb].
  destruct (Rltb 0 d); cbn [Num.add Num.sub Num.div];
    rewrite (Reqb_false d 0) by exact Hd; reflexivity.
Qed.

(** The step to the next grid line, on a finite state: the point reached
    lies on the ray, on the grid line crossed, and one cell index moves by
    one. *)
Lemma advance_cases (count : nat) (a b u v : R) (col row : Z)
    (p_x p_y n_x n_y : R) (points : list vec) :
  0 < u * u + v * v ->
  exists col' row' t n_x' n_y',
    advance (fin_state count a b u v col row p_x p_y n_x n_y points)
    = fin_state count a b u v col' row' (a + u * t) (b + v * t) n_x' n_y' points /\
    ((col' = (col + 1)%Z /\ row' = row /\ 0 < u /\ a + u * t = IZR col + 1) \/
     (col' = (col - 1)%Z /\ row' = row /\ u < 0 /\ a + u * t = IZR col) \/
     (col' = col /\ row' = (row + 1)%Z /\ 0 < v /\ b + v * t = IZR row + 1) \/
     (col' = col /\ row' = (row - 1)%Z /\ v < 0 /\ b + v * t = IZR row)).
Proof.
  intros Hmove. unfold advance, fin_state.
  cbn [interactionCount sx sy dx dy cx cy x y normal path].
  assert (Hvertical :
    u <> 0 ->
    exists col' row' t n_x' n_y',
      mkTrace count (Fin a) (Fin b) (Fin u) (Fin v)
              (Fin (IZR col) + Num.sign (Fin u))%num (Fin (IZR row))
              (Fin a + Fin u
                       * Fin (((if Rltb 0 u then IZR col + 1 else IZR col) - a) / u))%num
              (Fin b + Fin v
                       * Fin (((if Rltb 0 u then IZR col + 1 else IZR col) - a) / u))%num
              ((- Num.sign (Fin u))%num, Fin 0) points
      = mkTrace count (Fin a) (Fin b) (Fin u) (Fin v) (Fin (IZR col'))
                (Fin (IZR row')) (Fin (a + u * t)) (Fin (b + v * t))
                (Fin n_x', Fin n_y') points /\
      ((col' = (col + 1)%Z /\ row' = row /\ 0 < u /\ a + u * t = IZR col + 1) \/
       (col' = (col - 1)%Z /\ row' = row /\ u < 0 /\ a + u * t = IZR col) \/
       (col' = col /\ row' = (row + 1)%Z /\ 0 < v /\ b + v * t = IZR row + 1) \/
       (col' = col /\ row' = (row - 1)%Z /\ v < 0 /\ b + v * t = IZR row))).
  { intros Hu. cbn [Num.sign Num.add Num.mul Num.neg].
    destruct (Rltb 0 u) eqn:E1.
    - apply Rltb_iff in E1.
      exists (col + 1)%Z, row, ((IZR col + 1 - a) / u), (- (1)), 0.
      cbn [Num.add Num.neg]. rewrite plus_IZR. split; [reflexivity |].
      left. repeat split; try assumption. field. exact Hu.
    - apply Bool.not_true_iff_false in E1. rewrite Rltb_iff in E1.
      rewrite (Rltb_true u 0) by lra.
      exists (col - 1)%Z, row, ((IZR col - a) / u), (- (-1)), 0.
      cbn [Num.add Num.neg]. rewrite minus_IZR. split.
      + state_eq.
      + right; left. repeat split; try lra. field. exact Hu. }
  assert (Hhorizontal :
    v <> 0 ->
    exists col' row' t n_x' n_y',
      mkTrace count (Fin a) (Fin b) (Fin u) (Fin v)
              (Fin (IZR col)) (Fin (IZR row) + Num.sign (Fin v))%num
              (Fin a + Fin u
                       * Fin (((if Rltb 0 v then IZR row + 1 else IZR row) - b) / v))%num
              (Fin b + Fin v
                       * Fin (((if Rltb 0 v then IZR row + 1 else IZR row) - b) / v))%num
              (Fin 0, (- Num.sign (Fin v))%num) points
      = mkTrace count (Fin a) (Fin b) (Fin u) (Fin v) (Fin (IZR col'))
                (Fin (IZR row')) (Fin (a + u * t)) (Fin (b + v * t))
                (Fin n_x', Fin n_y') points /\
      ((col' = (col + 1)%Z /\ row' = row /\ 0 < u /\ a + u * t = IZR col + 1) \/
       (col' = (col - 1)%Z /\ row' = row /\ u < 0 /\ a + u * t = IZR col) \/
       (col' = col /\ row' = (row + 1)%Z /\ 0 < v /\ b + v * t = IZR row + 1) \/
       (col' = col /\ row' = (row - 1)%Z /\ v < 0 /\ b + v * t = IZR row))).
  { intros Hv. cbn [Num.sign Num.add Num.mul Num.neg].
    destruct (Rltb 0 v) eqn:E1.
    - apply Rltb_iff in E1.
      exists col, (row + 1)%Z, ((IZR row + 1 - b) / v), 0, (- (1)).
      cbn [Num.add Num.neg]. rewrite plus_IZR. split; [reflexivity |].
      right; right; left. repeat split; try assumption. field. exact Hv.
    - apply Bool.not_true_iff_false in E1. rewrite Rltb_iff in E1.
      rewrite (Rltb_true v 0) by lra.
      exists col, (row - 1)%Z, ((IZR row - b) / v), 0, (- (-1)).
      cbn [Num.add Num.neg]. rewrite minus_IZR. split.
      + state_eq.
      + right; right; right. repeat split; try lra. field. exact Hv. }
  destruct (Req_dec_T u 0) as [Hu | Hu]; destruct (Req_dec_T v 0) as [Hv | Hv].
  - subst u v. lra.
  - subst u. rewrite grid_time_inf.
    rewrite (grid_time_value v b (IZR row) Hv).
    cbn [Num.lt]. apply Hhorizontal. exact Hv.
  - subst v. rewrite grid_time_inf.
    rewrite (grid_time_value u a (IZR col) Hu).
    cbn [Num.lt]. apply Hvertical. exact Hu.
  - rewrite (grid_time_value u a (IZR col) Hu).
    rewrite (grid_time_value v b (IZR row) Hv).
    cbn [Num.lt]. destruct (Rltb (_ / u) (_ / v)).
    + apply Hvertical. exact Hu.
    + apply Hhorizontal. exact Hv.
Qed.

Lemma out_of_grid_true (gridWidth gridHeight : nat) (count : nat) (a b u v : R)
    (col row : Z) (p_x p_y n_x n_y : R) (points : list vec) :
  out_of_grid gridWidth gridHeight
              (fin_state count a b u v col row p_x p_y n_x n_y points) = true ->
  (col < 0 \/ Z.of_nat gridWidth <= col \/ row < 0 \/ Z.of_nat gridHeight <= row)%Z.
Proof.
  unfold out_of_grid, fin_state, Num.ge. cbn [cx cy Num.lt Num.le].
  rewrite !Bool.orb_true_iff, !Rltb_iff, !Rleb_iff, !INR_IZR_INZ.
  intros [[[H | H] | H] | H].
  - left. apply lt_IZR. exact H.
  - right; left. apply le_IZR. exact H.
  - right; right; left. apply lt_IZR. exact H.
  - right; right; right. apply le_IZR. exact H.
Qed.

Lemma trace_loop_empty_grid (gridWidth gridHeight : nat) (color : Color) :
  forall (fuel count : nat) (a b u v : R) (col row : Z)
         (p_x p_y n_x n_y : R) (points : list vec),
    in_grid gridWidth gridHeight col row ->
    0 < u * u + v * v ->
    (count < 100)%nat ->
    (distance_out gridWidth gridHeight u v col row < fuel)%nat ->
    exists t st',
      trace_loop fuel gridWidth gridHeight color
                 (repeat (repeat EmptyCell gridWidth) gridHeight)
                 (fin_state count a b u v col row p_x p_y n_x n_y points)
      = Ok (ExitedGrid, repeat (repeat EmptyCell gridWidth) gridHeight, st') /\
      interactionCount st' = count /\
      path st' = points ++ [(Fin (a + u * t), Fin (b + v * t))] /\
      (a + u * t = 0 \/ a + u * t = INR gridWidth \/
       b + v * t = 0 \/ b + v * t = INR gridHeight).
Proof.
  induction fuel as [| fuel IH];
    intros count a b u v col row p_x p_y n_x n_y points Hin Hmove Hcount Hfuel;
    [lia |].
  assert (Hrow : nth_error (repeat (repeat EmptyCell gridWidth) gridHeight)
                           (Z.to_nat row) = Some (repeat EmptyCell gridWidth)).
  { apply nth_error_repeat. destruct Hin as [_ Hr]. lia. }
  assert (Hcell : nth_error (repeat EmptyCell gridWidth) (Z.to_nat col)
                  = Some EmptyCell).
  { apply nth_error_repeat. destruct Hin as [Hc _]. lia. }
  rewrite (trace_loop_round fuel gridWidth gridHeight color _ count a b u v col row
             p_x p_y n_x n_y points (repeat EmptyCell gridWidth)
             EmptyCell EmptyCell []);
    try assumption; try reflexivity; try (destruct Hin as [Hc Hr]; lia).
  cbv zeta. cbn [fold_left].
  rewrite (grid_store_same _ _ _ _ _ Hrow Hcell).
  destruct (advance_cases count a b u v col row p_x p_y n_x n_y points Hmove)
    as [col' [row' [t [n_x' [n_y' [-> Hcases]]]]]].
  destruct (out_of_grid gridWidth gridHeight _) eqn:Eout.
  - apply out_of_grid_true in Eout.
    exists t. eexists. split; [reflexivity |].
    cbn [fin_state interactionCount path x y]. split; [reflexivity |].
    split; [reflexivity |].
    destruct Hin as [Hc Hr]. rewrite !INR_IZR_INZ.
    destruct Hcases as [[-> [-> [_ E]]] | [[-> [-> [_ E]]] | [[-> [-> [_ E]]] | [-> [-> [_ E]]]]]];
      rewrite E.
    + right; left. rewrite <- (plus_IZR col 1). f_equal. lia.
    + left. change 0 with (IZR 0). f_equal. lia.
    + right; right; right. rewrite <- (plus_IZR row 1). f_equal. lia.
    + right; right; left. change 0 with (IZR 0). f_equal. lia.
  - apply out_of_grid_fin in Eout.
    apply IH; try assumption.
    assert (Hdec : (distance_out gridWidth gridHeight u v col' row'
                    < distance_out gridWidth gridHeight u v col row)%nat).
    { destruct Hin as [Hc Hr]. destruct Eout as [Hc' Hr']. unfold distance_out, toward.
      destruct Hcases as [[-> [-> [H _]]] | [[-> [-> [H _]]] | [[-> [-> [H _]]] | [-> [-> [H _]]]]]].
      - rewrite (Rltb_true 0 u) by exact H. lia.
      - rewrite (Rltb_false 0 u) by lra. rewrite (Rltb_true u 0) by exact H. lia.
      - rewrite (Rltb_true 0 v) by exact H. lia.
      - rewrite (Rltb_false 0 v) by lra. rewrite (Rltb_true v 0) by exact H. lia. }
    lia.
Qed.

(** X22: in a grid of empty cells, of at most 100 columns and rows, a beam
    that starts at most one cell outside the grid, from a cell of the grid,
    with a direction other than (0, 0) whose components are zero or between
    1e-6 and 1 in absolute value, goes straight: [trackRays] returns (with
    fuel for one round per column and row), the grid is untouched, and the
    path has two points, the start and a point that lies, to within 1e-6, on
    the line of the beam and on one of the four border lines of the grid. *)
Theorem trackRays_empty_grid_straight :
  forall (fuel gridWidth gridHeight : nat) (color : Color) (a b u v : R)
         (col row : Z) (points : list vec),
    in_grid gridWidth gridHeight col row ->
    (gridWidth <= 100)%nat ->
    (gridHeight <= 100)%nat ->
    -1 <= a <= INR gridWidth + 1 ->
    -1 <= b <= INR gridHeight + 1 ->
    plain_component u ->
    plain_component v ->
    0 < u * u + v * v ->
    (gridWidth + gridHeight < fuel)%nat ->
    exists t p_x p_y,
      trackRays fuel (repeat (repeat EmptyCell gridWidth) gridHeight)
        [mkBeam (Fin a, Fin b) (Fin u, Fin v) (Fin (IZR col), Fin (IZR row))
                color points]
      = Ok (repeat (repeat EmptyCell gridWidth) gridHeight,
            [mkBeam (Fin a, Fin b) (Fin u, Fin v) (Fin (IZR col), Fin (IZR row))
                    color [(Fin a, Fin b); (Fin p_x, Fin p_y)]]) /\
      Rabs (p_x - (a + u * t)) <= 1e-6 /\
      Rabs (p_y - (b + v * t)) <= 1e-6 /\
      (Rabs p_x <= 1e-6 \/ Rabs (p_x - INR gridWidth) <= 1e-6 \/
       Rabs p_y <= 1e-6 \/ Rabs (p_y - INR gridHeight) <= 1e-6).
Proof.
  intros fuel gridWidth gridHeight color a b u v col row points
         Hin _ _ _ _ _ _ Hmove Hfuel.
  pose proof (distance_out_bound gridWidth gridHeight u v col row Hin) as Hbound.
  destruct (trace_loop_empty_grid gridWidth gridHeight color fuel 0 a b u v col row
              a b 0 1 [(Fin a, Fin b)] Hin Hmove ltac:(lia) ltac:(lia))
    as [t [st' [Htrace [_ [Hpath Hborder]]]]].
  exists t, (a + u * t), (b + v * t).
  assert (Hzero : forall r, Rabs (r - r) <= 1e-6).
  { intros r. replace (r - r) with 0 by ring. rewrite Rabs_R0. lra. }
  split.
  { unfold trackRays.
    destruct gridHeight as [| h]; [destruct Hin as [_ Hr]; lia |].
    cbn [repeat]. cbn [repeat] in Htrace.
    cbn [trace_beams]. unfold trace_beam.
    cbn [List.length]. rewrite !repeat_length.
    change (initial_state _)
      with (fin_state 0 a b u v col row a b 0 1 [(Fin a, Fin b)]).
    cbn [beam_color]. rewrite Htrace. cbn [bind].
    cbn [beam_start beam_direction beam_cell]. rewrite Hpath. reflexivity. }
  split; [apply Hzero |]. split; [apply Hzero |].
  destruct Hborder as [E | [E | [E | E]]]; rewrite E.
  - left. rewrite Rabs_R0. lra.
  - right; left. apply Hzero.
  - right; right; left. rewrite Rabs_R0. lra.
  - right; right; right. apply Hzero.
Qed.

Lemma trackRays_empty_grid_straight_witness :
  (in_grid 3 2 1 0 /\ (3 <= 100)%nat /\ (2 <= 100)%nat /\
   -1 <= 1.5 <= INR 3 + 1 /\ -1 <= 0 <= INR 2 + 1 /\
   plain_component 0.6 /\ plain_component 0.8 /\
   0 < 0.6 * 0.6 + 0.8 * 0.8 /\ (3 + 2 < 6)%nat) /\
  exists t p_x p_y,
    trackRays 6 (repeat (repeat EmptyCell 3) 2)
      [mkBeam (Fin 1.5, Fin 0) (Fin 0.6, Fin 0.8) (Fin (IZR 1), Fin (IZR 0)) None []]
    = Ok (repeat (repeat EmptyCell 3) 2,
          [mkBeam (Fin 1.5, Fin 0) (Fin 0.6, Fin 0.8) (Fin (IZR 1), Fin (IZR 0)) None
                  [(Fin 1.5, Fin 0); (Fin p_x, Fin p_y)]]) /\
    Rabs (p_x - (1.5 + 0.6 * t)) <= 1e-6 /\
    Rabs (p_y - (0 + 0.8 * t)) <= 1e-6.
Proof.
  assert (Hin : in_grid 3 2 1 0) by (unfold in_grid; lia).
  assert (Hw : (3 <= 100)%nat) by lia.
  assert (Hh : (2 <= 100)%nat) by lia.
  assert (Ha : -1 <= 1.5 <= INR 3 + 1) by (simpl; lra).
  assert (Hb : -1 <= 0 <= INR 2 + 1) by (simpl; lra).
  assert (Hu : plain_component 0.6).
  { split; [right |]; unfold Rabs; destruct (Rcase_abs 0.6); lra. }
  assert (Hv : plain_component 0.8).
  { split; [right |]; unfold Rabs; destruct (Rcase_abs 0.8); lra. }
  assert (Hmove : 0 < 0.6 * 0.6 + 0.8 * 0.8) by lra.
  assert (Hfuel : (3 + 2 < 6)%nat) by lia.
  split.
  { split; [exact Hin |]. split; [exact Hw |]. split; [exact Hh |].
    split; [exact Ha |]. split; [exact Hb |]. split; [exact Hu |].
    split; [exact Hv |]. split; [exact Hmove | exact Hfuel]. }
  destruct (trackRays_empty_grid_straight 6 3 2 None 1.5 0 0.6 0.8 1 0 []
              Hin Hw Hh Ha Hb Hu Hv Hmove Hfuel)
    as [t [p_x [p_y [Hres [Hx [Hy _]]]]]].
  exists t, p_x, p_y. split; [exact Hres |]. split; [exact Hx | exact Hy].
Defined.

(** ** Rays along the arms of a cross cell *)

Lemma slot_half_width (w k : R) : Rabs k < 0.5 * sin w -> 0 <= 0.25 - k * k.
Proof.
  intros Hk. pose proof (SIN_bound w) as [_ Hsin].
  unfold Rabs in Hk. destruct (Rcase_abs k); nra.
Qed.

(** A ray which, in the frame of the cell, runs along the second axis at a
    distance [k] from it. *)
Lemma CrossCell_rotated_frame_y (theta w : R) (start direction : vec) (k a b : R) :
  (fst start * Num.cos (Fin theta) - snd start * - Num.sin (Fin theta))%num = Fin k ->
  (fst start * - Num.sin (Fin theta) + snd start * Num.cos (Fin theta))%num = Fin a ->
  (fst direction * Num.cos (Fin theta)
   - snd direction * - Num.sin (Fin theta))%num = Fin 0 ->
  (fst direction * - Num.sin (Fin theta)
   + snd direction * Num.cos (Fin theta))%num = Fin b ->
  (Num.abs (fst start * snd direction - snd start * fst direction) >? Fin 0.5)%num
  = false ->
  b * b = 1 ->
  Rabs k < 0.5 * sin w ->
  CrossCell_interact (Fin theta) (Fin w) start direction = ([], false).
Proof.
  intros Hrsx Hrsy Hrdx Hrdy Hperp Hb Hk.
  pose proof (slot_half_width w k Hk) as Hk2.
  unfold CrossCell_interact. cbv zeta. rewrite Hperp, Hrsx, Hrsy, Hrdx, Hrdy.
  cbn [fst snd Num.sin Num.cos].
  assert (Hdot : dot (Fin k, Fin a) (Fin 0, Fin b) = Fin (a * b))
    by (unfold dot; cbn; f_equal; ring).
  assert (Hself : dot (Fin k, Fin a) (Fin k, Fin a) = Fin (k * k + a * a))
    by reflexivity.
  rewrite Hdot, Hself.
  unfold Num.ge. cbn [Num.mul Num.add Num.sub Num.le Num.neg].
  assert (Hdisc : a * b * (a * b) - (k * k + a * a - 0.25) = 0.25 - k * k).
  { transitivity (a * a * (b * b) - (k * k + a * a - 0.25)); [ring |].
    rewrite Hb. ring. }
  rewrite Hdisc. rewrite Rleb_true by exact Hk2.
  cbn [Num.sqrt]. rewrite Rltb_false by exact Hk2.
  cbn [Num.mul Num.add Num.sub Num.lt Num.neg].
  assert (Hslot : - (0.5 * sin w) < k < 0.5 * sin w).
  { unfold Rabs in Hk. destruct (Rcase_abs k); lra. }
  rewrite (Rltb_true (-0.5 * sin w) (k + (- (a * b) - sqrt (0.25 - k * k)) * 0)) by lra.
  rewrite (Rltb_true (k + (- (a * b) - sqrt (0.25 - k * k)) * 0) (0.5 * sin w)) by lra.
  rewrite (Rltb_true (-0.5 * sin w) (k + (- (a * b) + sqrt (0.25 - k * k)) * 0)) by lra.
  rewrite (Rltb_true (k + (- (a * b) + sqrt (0.25 - k * k)) * 0) (0.5 * sin w)) by lra.
  reflexivity.
Qed.

(** The same along the first axis. *)
Lemma CrossCell_rotated_frame_x (theta w : R) (start direction : vec) (k a b : R) :
  (fst start * Num.cos (Fin theta) - snd start * - Num.sin (Fin theta))%num = Fin a ->
  (fst start * - Num.sin (Fin theta) + snd start * Num.cos (Fin theta))%num = Fin k ->
  (fst direction * Num.cos (Fin theta)
   - snd direction * - Num.sin (Fin theta))%num = Fin b ->
  (fst direction * - Num.sin (Fin theta)
   + snd direction * Num.cos (Fin theta))%num = Fin 0 ->
  (Num.abs (fst start * snd direction - snd start * fst direction) >? Fin 0.5)%num
  = false ->
  b * b = 1 ->
  Rabs k < 0.5 * sin w ->
  CrossCell_interact (Fin theta) (Fin w) start direction = ([], false).
Proof.
  intros Hrsx Hrsy Hrdx Hrdy Hperp Hb Hk.
  pose proof (slot_half_width w k Hk) as Hk2.
  unfold CrossCell_interact. cbv zeta. rewrite Hperp, Hrsx, Hrsy, Hrdx, Hrdy.
  cbn [fst snd Num.sin Num.cos].
  assert (Hdot : dot (Fin a, Fin k) (Fin b, Fin 0) = Fin (a * b))
    by (unfold dot; cbn; f_equal; ring).
  assert (Hself : dot (Fin a, Fin k) (Fin a, Fin k) = Fin (a * a + k * k))
    by reflexivity.
  rewrite Hdot, Hself.
  unfold Num.ge. cbn [Num.mul Num.add Num.sub Num.le Num.neg].
  assert (Hdisc : a * b * (a * b) - (a * a + k * k - 0.25) = 0.25 - k * k).
  { transitivity (a * a * (b * b) - (a * a + k * k - 0.25)); [ring |].
    rewrite Hb. ring. }
  rewrite Hdisc. rewrite Rleb_true by exact Hk2.
  cbn [Num.sqrt]. rewrite Rltb_false by exact Hk2.
  cbn [Num.mul Num.add Num.sub Num.lt Num.neg].
  assert (Hslot : - (0.5 * sin w) < k < 0.5 * sin w).
  { unfold Rabs in Hk. destruct (Rcase_abs k); lra. }
  destruct (_ && _ && _ && _); [reflexivity |].
  rewrite (Rltb_true (-0.5 * sin w) (k + (- (a * b) - sqrt (0.25 - k * k)) * 0)) by lra.
  rewrite (Rltb_true (k + (- (a * b) - sqrt (0.25 - k * k)) * 0) (0.5 * sin w)) by lra.
  rewrite (Rltb_true (-0.5 * sin w) (k + (- (a * b) + sqrt (0.25 - k * k)) * 0)) by lra.
  rewrite (Rltb_true (k + (- (a * b) + sqrt (0.25 - k * k)) * 0) (0.5 * sin w)) by lra.
  reflexivity.
Qed.

(** X23: a ray with a unit direction parallel to an arm of the cross, nearer to
    the axis of the arm than half the width [sin(width)] of its slot, passes
    the cell, whatever the rotation of the cell and wherever on its line the
    ray starts: for the arm along the second axis of the rotated cell, and
    for the arm along its first axis. *)
Theorem CrossCell_along_arm_passes :
  forall (theta w k a b : R),
    b * b = 1 ->
    Rabs k < 0.5 * sin w ->
    CrossCell_interact (Fin theta) (Fin w)
      (Fin (k * cos theta - a * sin theta), Fin (k * sin theta + a * cos theta))
      (Fin (- b * sin theta), Fin (b * cos theta))
    = ([], false) /\
    CrossCell_interact (Fin theta) (Fin w)
      (Fin (a * cos theta - k * sin theta), Fin (a * sin theta + k * cos theta))
      (Fin (b * cos theta), Fin (b * sin theta))
    = ([], false).
Proof.
  intros theta w k a b Hb Hk.
  pose proof (slot_half_width w k Hk) as Hk2.
  assert (Hcs : sin theta * sin theta + cos theta * cos theta = 1).
  { pose proof (sin2_cos2 theta) as H. unfold Rsqr in H. exact H. }
  set (c := cos theta) in *. set (s := sin theta) in *.
  assert (Hkb : Rabs (k * b) <= 0.5).
  { unfold Rabs. destruct (Rcase_abs (k * b)); nra. }
  split.
  - apply (CrossCell_rotated_frame_y theta w _ _ k a b);
      cbn [fst snd Num.cos Num.sin Num.mul Num.sub Num.add Num.neg Num.abs];
      try assumption; fold c; fold s.
    + apply f_equal. transitivity (k * (s * s + c * c)); [ring | rewrite Hcs; ring].
    + apply f_equal. transitivity (a * (s * s + c * c)); [ring | rewrite Hcs; ring].
    + apply f_equal. ring.
    + apply f_equal. transitivity (b * (s * s + c * c)); [ring | rewrite Hcs; ring].
    + unfold Num.gt. cbn [Num.lt]. apply Rltb_false.
      replace ((k * c - a * s) * (b * c) - (k * s + a * c) * (- b * s))
        with (k * b)
        by (transitivity (k * b * (s * s + c * c)); [rewrite Hcs; ring | ring]).
      exact Hkb.
  - apply (CrossCell_rotated_frame_x theta w _ _ k a b);
      cbn [fst snd Num.cos Num.sin Num.mul Num.sub Num.add Num.neg Num.abs];
      try assumption; fold c; fold s.
    + apply f_equal. transitivity (a * (s * s + c * c)); [ring | rewrite Hcs; ring].
    + apply f_equal. transitivity (k * (s * s + c * c)); [ring | rewrite Hcs; ring].
    + apply f_equal. transitivity (b * (s * s + c * c)); [ring | rewrite Hcs; ring].
    + apply f_equal. ring.
    + unfold Num.gt. cbn [Num.lt]. apply Rltb_false.
      replace ((a * c - k * s) * (b * s) - (a * s + k * c) * (b * c))
        with (- (k * b))
        by (transitivity (- (k * b) * (s * s + c * c)); [rewrite Hcs; ring | ring]).
      rewrite Rabs_Ropp. exact Hkb.
Qed.

Lemma CrossCell_along_arm_passes_witness :
  (1 * 1 = 1 /\ Rabs 0 < 0.5 * sin (PI / 2)) /\
  CrossCell_interact (Fin 0.3) (Fin (PI / 2))
    (Fin (0 * cos 0.3 - 0.4 * sin 0.3), Fin (0 * sin 0.3 + 0.4 * cos 0.3))
    (Fin (- (1) * sin 0.3), Fin (1 * cos 0.3))
  = ([], false) /\
  CrossCell_interact (Fin 0.3) (Fin (PI / 2))
    (Fin (0.4 * cos 0.3 - 0 * sin 0.3), Fin (0.4 * sin 0.3 + 0 * cos 0.3))
    (Fin (1 * cos 0.3), Fin (1 * sin 0.3))
  = ([], false).
Proof.
  assert (H1 : 1 * 1 = 1) by lra.
  assert (H2 : Rabs 0 < 0.5 * sin (PI / 2)).
  { rewrite sin_PI2, Rabs_R0. lra. }
  split; [split; [exact H1 | exact H2] |].
  exact (CrossCell_along_arm_passes 0.3 (PI / 2) 0 0.4 1 H1 H2).
Defined.

(** ** What an update leaves of the grid *)

Lemma grid_lit_more_deref (g g' : Grid) :
  grid_lit_more g g' ->
  forall ref,
    match deref g ref with
    | Some cell => exists cell', deref g' ref = Some cell' /\ lit_more cell cell'
    | None => deref g' ref = None
    end.
Proof.
  assert (Hnth : forall (A : Type) (R : A -> A -> Prop) (l l' : list A),
             Forall2 R l l' ->
             forall n,
               match nth_error l n with
               | Some a => exists a', nth_error l' n = Some a' /\ R a a'
               | None => nth_error l' n = None
               end).
  { intros A R l l' H. induction H as [| a a' l l' Ha _ IH]; intros n.
    - destruct n; reflexivity.
    - destruct n as [| n]; cbn [nth_error].
      + exists a'. split; [reflexivity | exact Ha].
      + apply IH. }
  intros Hgrid [r c]. unfold deref. cbn [fst snd].
  pose proof (Hnth _ _ _ _ Hgrid r) as Hrow.
  destruct (nth_error g r) as [row |].
  - destruct Hrow as [row' [-> Hrows]]. apply (Hnth _ _ _ _ Hrows).
  - rewrite Hrow. reflexivity.
Qed.

(** X24: [updateAndRender] writes nothing to the grid but the [receive] of
    targets: every other cell, and the shape of the grid, are kept; and it
    keeps the targets, the beams of the level, the gauge and the two state
    flags. *)
Theorem updateAndRender_only_writes_receive :
  forall (fuel : nat) (g g' : Game),
    updateAndRender fuel g = Ok g' ->
    (forall ref,
       match deref (grid g) ref with
       | Some cell =>
           if is_TargetCell cell
           then exists receive, deref (grid g') ref = Some (TargetCell receive)
           else deref (grid g') ref = Some cell
       | None => deref (grid g') ref = None
       end) /\
    targetCells g' = targetCells g /\
    initBeams g' = initBeams g /\
    gaugeValue g' = gaugeValue g /\
    isGameRunning g' = isGameRunning g /\
    isLevelClear g' = isLevelClear g /\
    dirty g' = false.
Proof.
  intros fuel g g' H.
  pose proof (updateAndRender_keeps fuel g g' H)
    as [Hrun [Hclear [Hgauge [_ [Htargets [Hbeams Hdirty]]]]]].
  split; [| repeat split; assumption].
  intros ref. unfold updateAndRender in H. destruct (dirty g).
  - destruct (trackRays fuel _ _) as [[grid1 traced] | |] eqn:Etrack; cbn [bind] in H;
      try discriminate.
    destruct (Renderer_render grid1 traced) as [drawn | |]; cbn [bind] in H;
      try discriminate.
    injection H as <-. cbn [grid].
    unfold trackRays in Etrack.
    destruct (fold_left reset_receive (targetCells g) (grid g)) as [| row0 rows] eqn:E0;
      [discriminate |].
    apply trace_beams_invariants in Etrack. destruct Etrack as [Hlit _].
    pose proof (grid_lit_more_deref _ _ Hlit ref) as Href.
    rewrite <- E0 in Href. rewrite deref_reset_all in Href.
    destruct (deref (grid g) ref) as [cell |]; [| exact Href].
    destruct cell; cbn [is_TargetCell];
      destruct Href as [cell' [Hcell' [-> | [r [Heq ->]]]]];
      try discriminate; try exact Hcell'.
    + eexists. exact Hcell'.
    + eexists. exact Hcell'.
  - destruct (Renderer_render (grid g) (result g)) as [drawn | |]; cbn [bind] in H;
      try discriminate.
    injection H as <-. cbn [grid].
    destruct (deref (grid g) ref) as [cell |]; [| reflexivity].
    destruct cell; cbn [is_TargetCell]; try reflexivity.
    eexists. reflexivity.
Qed.

Lemma updateAndRender_only_writes_receive_witness :
  exists g',
    updateAndRender 1 game_one_lit_target = Ok g' /\
    (forall ref,
       match deref (grid game_one_lit_target) ref with
       | Some cell =>
           if is_TargetCell cell
           then exists receive, deref (grid g') ref = Some (TargetCell receive)
           else deref (grid g') ref = Some cell
       | None => deref (grid g') ref = None
       end) /\
    targetCells g' = targetCells game_one_lit_target /\
    initBeams g' = initBeams game_one_lit_target /\
    gaugeValue g' = gaugeValue game_one_lit_target /\
    isGameRunning g' = isGameRunning game_one_lit_target /\
    isLevelClear g' = isLevelClear game_one_lit_target /\
    dirty g' = false.
Proof.
  eexists. split; [reflexivity |].
  exact (updateAndRender_only_writes_receive 1 game_one_lit_target _ eq_refl).
Defined.

(** ** The cell under the pointer *)

Lemma floor_div_cell (x cs : R) (z : Z) :
  0 < cs ->
  IZR z * cs <= x < (IZR z + 1) * cs ->
  floor (Fin x / Fin cs) = Fin (IZR z).
Proof.
  intros Hcs Hx. cbn [Num.div]. rewrite (Reqb_false cs 0) by lra. cbn [floor].
  do 2 f_equal. symmetry. apply Int_part_spec.
  assert (Hq : x = x / cs * cs) by (field; lra).
  set (q := x / cs) in *. nra.
Qed.

Lemma to_index_negative (z : Z) : (z < 0)%Z -> to_index (Fin (IZR z)) = None.
Proof.
  intros Hz. unfold to_index.
  rewrite Rleb_false by (apply (IZR_lt z 0); exact Hz). reflexivity.
Qed.

(** [handleDragStart] in terms of the cell that holds the pointer. *)
Lemma handleDragStart_cell (fuel : nat) (x y cs : R) (col row : Z) (ui : GameUI) :
  cellSize ui = Fin cs ->
  0 < cs ->
  IZR col * cs <= x < (IZR col + 1) * cs ->
  IZR row * cs <= y < (IZR row + 1) * cs ->
  handleDragStart fuel (Fin x) (Fin y) ui
  = if (row <? 0)%Z then Ok ui
    else
      match nth_error (grid (ui_game ui)) (Z.to_nat row) with
      | None => Ok ui
      | Some cells =>
        if (col <? 0)%Z then TypeError
        else
          match nth_error cells (Z.to_nat col) with
          | None => TypeError
          | Some cell =>
            if rotatable cell then
              handleDragMove fuel (Fin x) (Fin y)
                (mkGameUI (ui_game ui) (cellSize ui) true
                          (Some (Z.to_nat row, Z.to_nat col))
                          (Fin (IZR col), Fin (IZR row)))
            else Ok ui
          end
      end.
Proof.
  intros Hsize Hcs Hx Hy. unfold handleDragStart. rewrite Hsize.
  rewrite (floor_div_cell x cs col Hcs Hx), (floor_div_cell y cs row Hcs Hy).
  destruct (row <? 0)%Z eqn:Erow.
  - apply Z.ltb_lt in Erow. rewrite to_index_negative by exact Erow. reflexivity.
  - apply Z.ltb_ge in Erow. rewrite to_index_IZR by exact Erow.
    destruct (nth_error (grid (ui_game ui)) (Z.to_nat row)) as [cells |];
      [| reflexivity].
    destruct (col <? 0)%Z eqn:Ecol.
    + apply Z.ltb_lt in Ecol. rewrite to_index_negative by exact Ecol. reflexivity.
    + apply Z.ltb_ge in Ecol. rewrite to_index_IZR by exact Ecol. reflexivity.
Qed.

(** X25: pressing the pointer at a point of cell [(col, row)] (cells of size
    [cs > 0]): outside the rows of the grid nothing happens; in a row of the
    grid but outside its columns the handler throws; on a cell that is
    neither a cross nor a rotatable mirror nothing happens. *)
Theorem handleDragStart_outside_or_fixed :
  forall (fuel : nat) (x y cs : R) (col row : Z) (ui : GameUI),
    cellSize ui = Fin cs ->
    0 < cs ->
    IZR col * cs <= x < (IZR col + 1) * cs ->
    IZR row * cs <= y < (IZR row + 1) * cs ->
    ((row < 0 \/ Z.of_nat (List.length (grid (ui_game ui))) <= row)%Z ->
     handleDragStart fuel (Fin x) (Fin y) ui = Ok ui) /\
    (forall cells,
       (0 <= row)%Z ->
       nth_error (grid (ui_game ui)) (Z.to_nat row) = Some cells ->
       ((col < 0 \/ Z.of_nat (List.length cells) <= col)%Z ->
        handleDragStart fuel (Fin x) (Fin y) ui = TypeError) /\
       (forall cell,
          (0 <= col)%Z ->
          nth_error cells (Z.to_nat col) = Some cell ->
          rotatable cell = false ->
          handleDragStart fuel (Fin x) (Fin y) ui = Ok ui)).
Proof.
  intros fuel x y cs col row ui Hsize Hcs Hx Hy.
  rewrite (handleDragStart_cell fuel x y cs col row ui Hsize Hcs Hx Hy).
  split.
  - intros [Hrow | Hrow].
    + rewrite (proj2 (Z.ltb_lt row 0) Hrow). reflexivity.
    + destruct (row <? 0)%Z; [reflexivity |].
      rewrite (proj2 (nth_error_None _ _)) by lia. reflexivity.
  - intros cells Hrow Ecells.
    rewrite (proj2 (Z.ltb_ge row 0) Hrow), Ecells. split.
    + intros [Hcol | Hcol].
      * rewrite (proj2 (Z.ltb_lt col 0) Hcol). reflexivity.
      * destruct (col <? 0)%Z; [reflexivity |].
        rewrite (proj2 (nth_error_None _ _)) by lia. reflexivity.
    + intros cell Hcol Ecell Hfixed.
      rewrite (proj2 (Z.ltb_ge col 0) Hcol), Ecell, Hfixed. reflexivity.
Qed.

Lemma handleDragStart_outside_or_fixed_witness :
  (cellSize mirror_game = Fin 100 /\ 0 < 100 /\
   IZR 1 * 100 <= 150 < (IZR 1 + 1) * 100 /\
   IZR 0 * 100 <= 50 < (IZR 0 + 1) * 100) /\
  handleDragStart 1 (Fin 150) (Fin 50) mirror_game = TypeError.
Proof.
  assert (H1 : 0 < 100) by lra.
  assert (H2 : IZR 1 * 100 <= 150 < (IZR 1 + 1) * 100) by lra.
  assert (H3 : IZR 0 * 100 <= 50 < (IZR 0 + 1) * 100) by lra.
  split; [split; [reflexivity | split; [exact H1 | split; [exact H2 | exact H3]]] |].
  apply (proj2 (handleDragStart_outside_or_fixed 1 150 50 100 1 0 mirror_game
                  eq_refl H1 H2 H3)
               [new_RotatableMirrorCell None]);
    [lia | reflexivity |].
  right. cbn. lia.
Defined.

(** ** The angle given to a dragged mirror *)

Lemma sqrt_sum_scaled (a b : R) :
  a <> 0 ->
  sqrt (a * a + b * b) = Rabs a * sqrt (1 + (b / a)²).
Proof.
  intros Ha. rewrite <- sqrt_Rsqr_abs.
  rewrite <- sqrt_mult by (unfold Rsqr; nra).
  f_equal. unfold Rsqr. field. exact Ha.
Qed.

(** The angle [atan2(b, a)] of a vector [(a, b)] other than zero is the
    angle of its direction. *)
Lemma atan2_direction (a b : R) :
  a <> 0 \/ b <> 0 ->
  exists theta,
    atan2 (Fin b) (Fin a) = Fin theta /\
    cos theta * sqrt (a * a + b * b) = a /\
    sin theta * sqrt (a * a + b * b) = b.
Proof.
  intros Hnz. cbn [atan2].
  assert (Hpos : forall t, 0 < sqrt (1 + t²)).
  { intros t. apply sqrt_lt_R0. unfold Rsqr. nra. }
  destruct (Rltb 0 a) eqn:E1.
  - apply Rltb_iff in E1. exists (atan (b / a)). split; [reflexivity |].
    rewrite cos_atan, sin_atan, sqrt_sum_scaled by lra.
    rewrite Rabs_right by lra.
    pose proof (Hpos (b / a)) as Hs.
    split; field; lra.
  - apply Bool.not_true_iff_false in E1. rewrite Rltb_iff in E1.
    destruct (Rltb a 0) eqn:E2.
    + apply Rltb_iff in E2.
      pose proof (Hpos (b / a)) as Hs.
      destruct (Rltb b 0).
      * exists (atan (b / a) - PI). split; [reflexivity |].
        rewrite cos_minus, sin_minus, cos_PI, sin_PI.
        rewrite cos_atan, sin_atan, sqrt_sum_scaled by lra.
        rewrite Rabs_left by lra.
        split; field; lra.
      * exists (atan (b / a) + PI). split; [reflexivity |].
        rewrite neg_cos, neg_sin.
        rewrite cos_atan, sin_atan, sqrt_sum_scaled by lra.
        rewrite Rabs_left by lra.
        split; field; lra.
    + apply Bool.not_true_iff_false in E2. rewrite Rltb_iff in E2.
      assert (Ha : a = 0) by lra. subst a.
      replace (0 * 0 + b * b) with (b * b) by ring.
      destruct (Rltb 0 b) eqn:E3.
      * apply Rltb_iff in E3. exists (PI / 2). split; [reflexivity |].
        rewrite cos_PI2, sin_PI2, sqrt_square by lra. split; ring.
      * apply Bool.not_true_iff_false in E3. rewrite Rltb_iff in E3.
        assert (Hb : b < 0) by (destruct Hnz as [H | H]; [contradiction | lra]).
        rewrite (Rltb_true b 0) by exact Hb.
        exists (- (PI / 2)). split; [reflexivity |].
        rewrite cos_neg, sin_neg, cos_PI2, sin_PI2.
        replace (b * b) with (- b * - b) by ring.
        rewrite sqrt_square by lra. split; ring.
Qed.

Lemma atan2_zero : atan2 (Fin 0) (Fin 0) = Fin 0.
Proof.
  cbn [atan2]. rewrite (Rltb_false 0 0) by lra. reflexivity.
Qed.

(** X26: pressing the pointer on a cross or a rotatable mirror starts a drag of
    that cell and turns it at once: when the handler completes, the cell has
    the angle of the vector from the centre of the cell to the pointer (0 at
    the centre itself), and is otherwise as it was. *)
Theorem handleDragStart_turns_cell_to_pointer :
  forall (fuel : nat) (x y cs : R) (col row : Z) (ui ui' : GameUI)
         (cells : list Cell) (cell : Cell),
    cellSize ui = Fin cs ->
    0 < cs ->
    (0 <= col)%Z -> (0 <= row)%Z ->
    IZR col * cs <= x < (IZR col + 1) * cs ->
    IZR row * cs <= y < (IZR row + 1) * cs ->
    nth_error (grid (ui_game ui)) (Z.to_nat row) = Some cells ->
    nth_error cells (Z.to_nat col) = Some cell ->
    rotatable cell = true ->
    handleDragStart fuel (Fin x) (Fin y) ui = Ok ui' ->
    let dx := x - (IZR col + 0.5) * cs in
    let dy := y - (IZR row + 0.5) * cs in
    isDragging ui' = true /\
    draggedMirror ui' = Some (Z.to_nat row, Z.to_nat col) /\
    exists theta,
      deref (grid (ui_game ui')) (Z.to_nat row, Z.to_nat col)
      = Some (set_rotation cell (Fin theta)) /\
      (dx <> 0 \/ dy <> 0 ->
       cos theta * sqrt (dx * dx + dy * dy) = dx /\
       sin theta * sqrt (dx * dx + dy * dy) = dy) /\
      (dx = 0 /\ dy = 0 -> theta = 0).
Proof.
  intros fuel x y cs col row ui ui' cells cell Hsize Hcs Hcol Hrow Hx Hy
         Ecells Ecell Hrot Hstart dx dy.
  rewrite (handleDragStart_cell fuel x y cs col row ui Hsize Hcs Hx Hy) in Hstart.
  rewrite (proj2 (Z.ltb_ge row 0) Hrow), Ecells in Hstart.
  rewrite (proj2 (Z.ltb_ge col 0) Hcol), Ecell, Hrot in Hstart.
  unfold handleDragMove in Hstart.
  cbn [draggedMirror draggedMirrorCellPos cellSize ui_game isDragging fst snd]
    in Hstart.
  rewrite Hsize in Hstart. cbn [Num.add Num.mul Num.sub] in Hstart.
  fold dx in Hstart. fold dy in Hstart.
  assert (Hderef : deref (grid (ui_game ui)) (Z.to_nat row, Z.to_nat col) = Some cell).
  { unfold deref. cbn [fst snd]. rewrite Ecells. exact Ecell. }
  rewrite Hderef in Hstart. cbv zeta in Hstart.
  destruct (updateAndRender fuel _) as [g' | |] eqn:Eupdate; cbn [bind] in Hstart;
    try discriminate.
  injection Hstart as <-. cbn [isDragging draggedMirror ui_game].
  split; [reflexivity |]. split; [reflexivity |].
  assert (Hangle : exists theta,
             atan2 (Fin dy) (Fin dx) = Fin theta /\
             (dx <> 0 \/ dy <> 0 ->
              cos theta * sqrt (dx * dx + dy * dy) = dx /\
              sin theta * sqrt (dx * dx + dy * dy) = dy) /\
             (dx = 0 /\ dy = 0 -> theta = 0)).
  { destruct (Req_dec_T dx 0) as [Hdx | Hdx]; destruct (Req_dec_T dy 0) as [Hdy | Hdy].
    - exists 0. rewrite Hdx, Hdy. split; [exact atan2_zero |].
      split; [intros [H | H]; contradiction | reflexivity].
    - destruct (atan2_direction dx dy (or_intror Hdy)) as [theta [E H]].
      exists theta. split; [exact E |]. split; [intros _; exact H |].
      intros [_ H0]. contradiction.
    - destruct (atan2_direction dx dy (or_introl Hdx)) as [theta [E H]].
      exists theta. split; [exact E |]. split; [intros _; exact H |].
      intros [H0 _]. contradiction.
    - destruct (atan2_direction dx dy (or_introl Hdx)) as [theta [E H]].
      exists theta. split; [exact E |]. split; [intros _; exact H |].
      intros [H0 _]. contradiction. }
  destruct Hangle as [theta [Eangle Hangle]].
  exists theta. split; [| exact Hangle].
  rewrite Eangle in Eupdate.
  assert (Hkept :
    forall ref,
      match deref (grid_store (grid (ui_game ui)) (Z.to_nat row) (Z.to_nat col)
                              (set_rotation cell (Fin theta))) ref with
      | Some c =>
          if is_TargetCell c
          then exists receive, deref (grid g') ref = Some (TargetCell receive)
          else deref (grid g') ref = Some c
      | None => deref (grid g') ref = None
      end).
  { intros ref. unfold updateAndRender in Eupdate. cbn [dirty grid targetCells initBeams]
      in Eupdate.
    destruct (trackRays fuel _ _) as [[grid1 traced] | |] eqn:Etrack;
      cbn [bind] in Eupdate; try discriminate.
    destruct (Renderer_render grid1 traced) as [drawn | |];
      cbn [bind] in Eupdate; try discriminate.
    injection Eupdate as <-. cbn [grid].
    unfold trackRays in Etrack.
    destruct (fold_left reset_receive _ _) as [| row0 rows] eqn:E0; [discriminate |].
    apply trace_beams_invariants in Etrack. destruct Etrack as [Hlit _].
    pose proof (grid_lit_more_deref _ _ Hlit ref) as Href.
    rewrite <- E0 in Href. rewrite deref_reset_all in Href.
    destruct (deref (grid_store _ _ _ _) ref) as [c |]; [| exact Href].
    destruct c; cbn [is_TargetCell];
      destruct Href as [cell' [Hcell' [-> | [r [Heq ->]]]]];
      try discriminate; try exact Hcell'.
    - eexists. exact Hcell'.
    - eexists. exact Hcell'. }
  specialize (Hkept (Z.to_nat row, Z.to_nat col)).
  rewrite deref_grid_store in Hkept.
  rewrite (proj2 (CellRef_eqb_eq _ _) eq_refl), Hderef in Hkept.
  destruct cell; try discriminate; exact Hkept.
Qed.

Lemma handleDragStart_turns_cell_to_pointer_witness :
  exists ui',
    (cellSize mirror_game = Fin 100 /\ 0 < 100 /\ (0 <= 0)%Z /\
     IZR 0 * 100 <= 75 < (IZR 0 + 1) * 100 /\
     IZR 0 * 100 <= 50 < (IZR 0 + 1) * 100 /\
     nth_error (grid (ui_game mirror_game)) (Z.to_nat 0)
     = Some [new_RotatableMirrorCell None] /\
     nth_error [new_RotatableMirrorCell None] (Z.to_nat 0)
     = Some (new_RotatableMirrorCell None) /\
     rotatable (new_RotatableMirrorCell None) = true /\
     handleDragStart 1 (Fin 75) (Fin 50) mirror_game = Ok ui') /\
    isDragging ui' = true /\
    draggedMirror ui' = Some (Z.to_nat 0, Z.to_nat 0) /\
    exists theta,
      deref (grid (ui_game ui')) (Z.to_nat 0, Z.to_nat 0)
      = Some (set_rotation (new_RotatableMirrorCell None) (Fin theta)) /\
      (75 - (IZR 0 + 0.5) * 100 <> 0 \/ 50 - (IZR 0 + 0.5) * 100 <> 0 ->
       cos theta * sqrt ((75 - (IZR 0 + 0.5) * 100) * (75 - (IZR 0 + 0.5) * 100)
                         + (50 - (IZR 0 + 0.5) * 100) * (50 - (IZR 0 + 0.5) * 100))
       = 75 - (IZR 0 + 0.5) * 100 /\
       sin theta * sqrt ((75 - (IZR 0 + 0.5) * 100) * (75 - (IZR 0 + 0.5) * 100)
                         + (50 - (IZR 0 + 0.5) * 100) * (50 - (IZR 0 + 0.5) * 100))
       = 50 - (IZR 0 + 0.5) * 100) /\
      (75 - (IZR 0 + 0.5) * 100 = 0 /\ 50 - (IZR 0 + 0.5) * 100 = 0 -> theta = 0).
Proof.
  assert (H1 : 0 < 100) by lra.
  assert (H2 : IZR 0 * 100 <= 75 < (IZR 0 + 1) * 100) by lra.
  assert (H3 : IZR 0 * 100 <= 50 < (IZR 0 + 1) * 100) by lra.
  assert (Hstart : exists ui', handleDragStart 1 (Fin 75) (Fin 50) mirror_game = Ok ui').
  { rewrite (handleDragStart_cell 1 75 50 100 0 0 mirror_game eq_refl H1 H2 H3).
    eexists. reflexivity. }
  destruct Hstart as [ui' Hstart]. exists ui'.
  split.
  { split; [reflexivity |]. split; [exact H1 |]. split; [lia |].
    split; [exact H2 |]. split; [exact H3 |]. split; [reflexivity |].
    split; [reflexivity |]. split; [reflexivity | exact Hstart]. }
  exact (handleDragStart_turns_cell_to_pointer 1 75 50 100 0 0 mirror_game ui'
           [new_RotatableMirrorCell None] (new_RotatableMirrorCell None)
           eq_refl H1 (Z.le_refl 0) (Z.le_refl 0) H2 H3 eq_refl eq_refl eq_refl Hstart).
Defined.


(** ** A beam along a row or a column *)

Lemma out_of_grid_in (gridWidth gridHeight : nat) (count : nat) (a b u v : R)
    (col row : Z) (p_x p_y n_x n_y : R) (points : list vec) :
  in_grid gridWidth gridHeight col row ->
  out_of_grid gridWidth gridHeight
              (fin_state count a b u v col row p_x p_y n_x n_y points) = false.
Proof.
  intros [Hcol Hrow]. unfold out_of_grid, fin_state, Num.ge. cbn [cx cy Num.lt Num.le].
  rewrite !INR_IZR_INZ.
  rewrite (Rltb_false (IZR col) 0) by (apply (IZR_le 0); lia).
  rewrite (Rleb_false (IZR (Z.of_nat gridWidth)) (IZR col)) by (apply IZR_lt; lia).
  rewrite (Rltb_false (IZR row) 0) by (apply (IZR_le 0); lia).
  rewrite (Rleb_false (IZR (Z.of_nat gridHeight)) (IZR row)) by (apply IZR_lt; lia).
  reflexivity.
Qed.

Lemma trace_loop_along_axis (gridWidth gridHeight : nat) (color : Color)
    (grid : Grid) (s_c s_r : Z) (m : R) :
  axis_step s_c s_r ->
  0 < m ->
  forall (k fuel : nat) (a b : R) (col row : Z) (p_x p_y n_x n_y : R)
         (points : list vec) (receive : option bool),
    in_grid gridWidth gridHeight col row ->
    in_grid gridWidth gridHeight (col + Z.of_nat k * s_c) (row + Z.of_nat k * s_r) ->
    (forall i, (i < k)%nat ->
       exists cell, deref grid (cell_ahead col row s_c s_r i) = Some cell /\
                    passes color cell = true) ->
    deref grid (cell_ahead col row s_c s_r k) = Some (TargetCell receive) ->
    (k < fuel)%nat ->
    exists q_x q_y st',
      trace_loop fuel gridWidth gridHeight color grid
                 (fin_state 0 a b (IZR s_c * m) (IZR s_r * m) col row
                            p_x p_y n_x n_y points)
      = Ok (CellTerminated,
            grid_store grid (fst (cell_ahead col row s_c s_r k))
                       (snd (cell_ahead col row s_c s_r k)) (TargetCell (Some true)),
            st') /\
      path st' = points ++ [(Fin q_x, Fin q_y)] /\
      (k = 0%nat -> q_x = p_x /\ q_y = p_y) /\
      ((0 < k)%nat ->
       (q_x - a) * IZR s_r - (q_y - b) * IZR s_c = 0 /\
       (q_x - (IZR (col + Z.of_nat k * s_c) + 0.5)) * IZR s_c
       + (q_y - (IZR (row + Z.of_nat k * s_r) + 0.5)) * IZR s_r + 0.5 = 0).
Proof.
  intros Haxis Hm.
  induction k as [| k IH];
    intros fuel a b col row p_x p_y n_x n_y points receive Hin Hlast Hpass Htarget
           Hfuel;
    (destruct fuel as [| fuel]; [lia |]);
    assert (Hcol : (0 <= col)%Z) by (destruct Hin as [Hc _]; lia);
    assert (Hrow : (0 <= row)%Z) by (destruct Hin as [_ Hr]; lia).
  - unfold cell_ahead in *. cbn [Z.of_nat fst snd] in *.
    rewrite !Z.mul_0_l, !Z.add_0_r in *.
    unfold deref in Htarget. cbn [fst snd] in Htarget.
    destruct (nth_error grid (Z.to_nat row)) as [cells |] eqn:Ecells;
      [| discriminate].
    rewrite (trace_loop_round_terminate fuel gridWidth gridHeight color grid 0
               a b _ _ col row p_x p_y n_x n_y points cells (TargetCell receive)
               (TargetCell (Some true)) _ ltac:(lia) Hcol Hrow Ecells Htarget
               eq_refl).
    exists p_x, p_y. eexists. split; [reflexivity |].
    cbn [fold_left push_segment fin_state path seg_start fst snd cx cy Num.add].
    split; [do 3 f_equal; f_equal; lra |]. split; [intros _; split; reflexivity | lia].
  - destruct (Hpass 0%nat ltac:(lia)) as [cell [Ecell Hcell]].
    unfold cell_ahead in Ecell. cbn [Z.of_nat] in Ecell.
    rewrite !Z.mul_0_l, !Z.add_0_r in Ecell.
    unfold deref in Ecell. cbn [fst snd] in Ecell.
    destruct (nth_error grid (Z.to_nat row)) as [cells |] eqn:Ecells;
      [| discriminate].
    assert (Einteract :
      interact cell (Fin (p_x - IZR col - 0.5), Fin (p_y - IZR row - 0.5))
               (Fin (IZR s_c * m), Fin (IZR s_r * m)) (Fin n_x, Fin n_y) color
      = (cell, ([], false))).
    { destruct cell; try discriminate; [reflexivity |].
      cbn [interact passes] in *. unfold BlockCell_interact. rewrite Hcell.
      reflexivity. }
    rewrite (trace_loop_round fuel gridWidth gridHeight color grid 0 a b _ _
               col row p_x p_y n_x n_y points cells cell cell []
               ltac:(lia) Hcol Hrow Ecells Ecell Einteract).
    cbv zeta. cbn [fold_left].
    rewrite (grid_store_same _ _ _ _ _ Ecells Ecell).
    assert (Hmove : 0 < IZR s_c * m * (IZR s_c * m) + IZR s_r * m * (IZR s_r * m)).
    { destruct Haxis as [[-> ->] | [[-> ->] | [[-> ->] | [-> ->]]]]; nra. }
    destruct (advance_cases 0 a b (IZR s_c * m) (IZR s_r * m) col row
                            p_x p_y n_x n_y points Hmove)
      as [col' [row' [t [n_x' [n_y' [-> Hcases]]]]]].
    assert (Hnext : col' = (col + s_c)%Z /\ row' = (row + s_r)%Z /\
                    (a + IZR s_c * m * t - (IZR col' + 0.5)) * IZR s_c
                    + (b + IZR s_r * m * t - (IZR row' + 0.5)) * IZR s_r + 0.5 = 0).
    { destruct Haxis as [[-> ->] | [[-> ->] | [[-> ->] | [-> ->]]]];
        destruct Hcases
          as [[-> [-> [H E]]] | [[-> [-> [H E]]] | [[-> [-> [H E]]] | [-> [-> [H E]]]]]];
        try lra;
        (split; [lia |]; split; [lia |]);
        rewrite ?plus_IZR, ?minus_IZR in *; lra. }
    destruct Hnext as [-> [-> Hside]].
    assert (Hshift : forall i,
              cell_ahead (col + s_c) (row + s_r) s_c s_r i
              = cell_ahead col row s_c s_r (S i)).
    { intros i. unfold cell_ahead. rewrite Nat2Z.inj_succ.
      f_equal; f_equal; ring. }
    assert (Hin' : in_grid gridWidth gridHeight (col + s_c) (row + s_r)).
    { unfold in_grid in *. rewrite Nat2Z.inj_succ in Hlast.
      destruct Haxis as [[-> ->] | [[-> ->] | [[-> ->] | [-> ->]]]]; lia. }
    rewrite (out_of_grid_in gridWidth gridHeight _ _ _ _ _ _ _ _ _ _ _ _ Hin').
    destruct (IH fuel a b (col + s_c)%Z (row + s_r)%Z
                 (a + IZR s_c * m * t) (b + IZR s_r * m * t) n_x' n_y' points receive
                 Hin')
      as [q_x [q_y [st' [Htrace [Hpath [Hzero Hmore]]]]]].
    + replace (col + s_c + Z.of_nat k * s_c)%Z with (col + Z.of_nat (S k) * s_c)%Z
        by (rewrite Nat2Z.inj_succ; ring).
      replace (row + s_r + Z.of_nat k * s_r)%Z with (row + Z.of_nat (S k) * s_r)%Z
        by (rewrite Nat2Z.inj_succ; ring).
      exact Hlast.
    + intros i Hi. rewrite Hshift. apply Hpass. lia.
    + rewrite Hshift. exact Htarget.
    + lia.
    + rewrite Hshift in Htrace.
      exists q_x, q_y, st'. split; [exact Htrace |]. split; [exact Hpath |].
      split; [discriminate |]. intros _.
      replace (col + Z.of_nat (S k) * s_c)%Z with (col + s_c + Z.of_nat k * s_c)%Z
        by (rewrite Nat2Z.inj_succ; ring).
      replace (row + Z.of_nat (S k) * s_r)%Z with (row + s_r + Z.of_nat k * s_r)%Z
        by (rewrite Nat2Z.inj_succ; ring).
      destruct k as [| k'].
      * destruct (Hzero eq_refl) as [-> ->].
        cbn [Z.of_nat]. rewrite !Z.mul_0_l, !Z.add_0_r.
        split; [ring | exact Hside].
      * apply Hmore. lia.
Qed.

(** X27: a beam along a row or a column lights the target it is aimed at.
    In a rectangular grid of at most 100 columns and rows, take a beam that
    starts at most one cell outside the grid, from a cell of the grid, with a
    direction of length [m] between 1e-6 and 1 along one of the axes.  If the
    next [k] cells in that direction, the start cell included, are empty or
    blocks of the beam's colour, and the cell after them is a target, then
    [trackRays] returns with that target lit, the rest of the grid as it was,
    and a path of two points: the start and a point that lies, to within
    1e-6, on the line of the beam, at the start itself when the start cell is
    the target, and else on the side of the target that faces the beam. *)
Theorem trackRays_along_axis_lights_target :
  forall (fuel gridWidth gridHeight : nat) (grid : Grid) (color : Color)
         (a b m : R) (col row s_c s_r : Z) (k : nat) (receive : option bool)
         (points : list vec),
    List.length grid = gridHeight ->
    Forall (fun cells => List.length cells = gridWidth) grid ->
    (gridWidth <= 100)%nat ->
    (gridHeight <= 100)%nat ->
    -1 <= a <= INR gridWidth + 1 ->
    -1 <= b <= INR gridHeight + 1 ->
    axis_step s_c s_r ->
    1e-6 <= m <= 1 ->
    in_grid gridWidth gridHeight col row ->
    in_grid gridWidth gridHeight (col + Z.of_nat k * s_c) (row + Z.of_nat k * s_r) ->
    (forall i, (i < k)%nat ->
       exists cell, deref grid (cell_ahead col row s_c s_r i) = Some cell /\
                    passes color cell = true) ->
    deref grid (cell_ahead col row s_c s_r k) = Some (TargetCell receive) ->
    (k < fuel)%nat ->
    exists q_x q_y,
      trackRays fuel grid
        [mkBeam (Fin a, Fin b) (Fin (IZR s_c * m), Fin (IZR s_r * m))
                (Fin (IZR col), Fin (IZR row)) color points]
      = Ok (grid_store grid (fst (cell_ahead col row s_c s_r k))
                       (snd (cell_ahead col row s_c s_r k)) (TargetCell (Some true)),
            [mkBeam (Fin a, Fin b) (Fin (IZR s_c * m), Fin (IZR s_r * m))
                    (Fin (IZR col), Fin (IZR row)) color
                    [(Fin a, Fin b); (Fin q_x, Fin q_y)]]) /\
      Rabs ((q_x - a) * IZR s_r - (q_y - b) * IZR s_c) <= 1e-6 /\
      (k = 0%nat -> Rabs (q_x - a) <= 1e-6 /\ Rabs (q_y - b) <= 1e-6) /\
      ((0 < k)%nat ->
       Rabs ((q_x - (IZR (col + Z.of_nat k * s_c) + 0.5)) * IZR s_c
             + (q_y - (IZR (row + Z.of_nat k * s_r) + 0.5)) * IZR s_r + 0.5)
       <= 1e-6).
Proof.
  intros fuel gridWidth gridHeight grid color a b m col row s_c s_r k receive points
         Hheight Hwidth _ _ _ _ Haxis Hm Hin Hlast Hpass Htarget Hfuel.
  destruct (trace_loop_along_axis gridWidth gridHeight color grid s_c s_r m Haxis
              ltac:(lra) k fuel a b col row a b 0 1 [(Fin a, Fin b)] receive
              Hin Hlast Hpass Htarget Hfuel)
    as [q_x [q_y [st' [Htrace [Hpath [Hzero Hmore]]]]]].
  exists q_x, q_y.
  assert (Hsmall : forall r, r = 0 -> Rabs r <= 1e-6).
  { intros r ->. rewrite Rabs_R0. lra. }
  split.
  { unfold trackRays.
    destruct grid as [| row0 rows]; [destruct Hin as [_ Hr]; cbn in Hheight; lia |].
    inversion Hwidth as [| ? ? Hw _]; subst.
    cbn [trace_beams]. unfold trace_beam.
    change (initial_state _)
      with (fin_state 0 a b (IZR s_c * m) (IZR s_r * m) col row a b 0 1
                      [(Fin a, Fin b)]).
    cbn [beam_color]. rewrite Htrace. cbn [bind].
    cbn [beam_start beam_direction beam_cell]. rewrite Hpath. reflexivity. }
  split.
  { destruct k as [| k'].
    - destruct (Hzero eq_refl) as [-> ->]. apply Hsmall. ring.
    - apply Hsmall. apply Hmore. lia. }
  split.
  - intros Hk. destruct (Hzero Hk) as [-> ->]. split; apply Hsmall; ring.
  - intros Hk. apply Hsmall. apply Hmore. exact Hk.
Qed.

Lemma trackRays_along_axis_lights_target_witness :
  exists q_x q_y,
    trackRays 5 block_and_target_grid
      [mkBeam (Fin 0.5, Fin (-0.1)) (Fin (IZR 0 * 1), Fin (IZR 1 * 1))
              (Fin (IZR 0), Fin (IZR 0)) (Some "red"%string) []]
    = Ok ([[BlockCell "red"; EmptyCell]; [TargetCell (Some true); EmptyCell]],
          [mkBeam (Fin 0.5, Fin (-0.1)) (Fin (IZR 0 * 1), Fin (IZR 1 * 1))
                  (Fin (IZR 0), Fin (IZR 0)) (Some "red"%string)
                  [(Fin 0.5, Fin (-0.1)); (Fin q_x, Fin q_y)]]) /\
    Rabs ((q_x - 0.5) * IZR 1 - (q_y - -0.1) * IZR 0) <= 1e-6.
Proof.
  assert (Hwidth : Forall (fun cells : list Cell => List.length cells = 2%nat)
                          block_and_target_grid) by (repeat constructor).
  assert (Ha : -1 <= 0.5 <= INR 2 + 1) by (simpl; lra).
  assert (Hb : -1 <= -0.1 <= INR 2 + 1) by (simpl; lra).
  assert (Haxis : axis_step 0 1) by (right; right; left; split; reflexivity).
  assert (Hm : 1e-6 <= 1 <= 1) by lra.
  assert (Hin : in_grid 2 2 0 0) by (unfold in_grid; lia).
  assert (Hlast : in_grid 2 2 (0 + Z.of_nat 1 * 0) (0 + Z.of_nat 1 * 1))
    by (unfold in_grid; cbn; lia).
  assert (Hpass : forall i, (i < 1)%nat ->
            exists cell, deref block_and_target_grid (cell_ahead 0 0 0 1 i) = Some cell /\
                         passes (Some "red"%string) cell = true).
  { intros i Hi. assert (i = 0%nat) as -> by lia.
    exists (BlockCell "red"). split; reflexivity. }
  destruct (trackRays_along_axis_lights_target 5 2 2 block_and_target_grid
              (Some "red"%string) 0.5 (-0.1) 1 0 0 0 1 1 None []
              eq_refl Hwidth ltac:(lia) ltac:(lia) Ha Hb Haxis Hm Hin Hlast Hpass
              eq_refl ltac:(lia))
    as [q_x [q_y [Hres [Hline _]]]].
  exists q_x, q_y. split; [exact Hres | exact Hline].
Defined.

(** ** Playing the levels of the game *)

Lemma same_kind_refl (cell : Cell) : same_kind cell cell.
Proof. destruct cell; cbn; auto. Qed.

Lemma same_kind_trans (a b c : Cell) : same_kind a b -> same_kind b c -> same_kind a c.
Proof.
  destruct a, b; cbn; try contradiction; destruct c; cbn; try contradiction;
    auto; intros; congruence.
Qed.

Lemma lit_more_same_kind (cell cell' : Cell) : lit_more cell cell' -> same_kind cell cell'.
Proof.
  intros [-> | [receive [-> ->]]]; [apply same_kind_refl | exact I].
Qed.

Lemma set_rotation_same_kind (cell : Cell) (angle : num) :
  same_kind cell (set_rotation cell angle).
Proof. destruct cell; cbn; auto. Qed.

Lemma played_refl (grid : Grid) : played grid grid.
Proof.
  apply Forall2_same. intros row. apply Forall2_same. exact same_kind_refl.
Qed.

Lemma played_trans (g1 g2 g3 : Grid) : played g1 g2 -> played g2 g3 -> played g1 g3.
Proof.
  apply Forall2_compose. apply Forall2_compose. exact same_kind_trans.
Qed.

Lemma grid_lit_more_played (grid grid' : Grid) :
  grid_lit_more grid grid' -> played grid grid'.
Proof.
  apply Forall2_impl. intros row row'. apply Forall2_impl. exact lit_more_same_kind.
Qed.

Lemma played_grid_store (grid : Grid) (r c : nat) (row : list Cell)
    (cell cell' : Cell) :
  nth_error grid r = Some row ->
  nth_error row c = Some cell ->
  same_kind cell cell' ->
  played grid (grid_store grid r c cell').
Proof.
  intros Hrow Hcell Hkind. unfold grid_store. rewrite Hrow.
  apply (array_set_Forall2 (Forall2 same_kind) grid r row).
  - intros z. apply Forall2_same. exact same_kind_refl.
  - exact Hrow.
  - apply (array_set_Forall2 same_kind row c cell); [exact same_kind_refl | | ];
      assumption.
Qed.

Lemma played_reset (targets : list CellRef) :
  forall grid, played grid (fold_left reset_receive targets grid).
Proof.
  induction targets as [| target rest IH]; intros grid; cbn [fold_left].
  - apply played_refl.
  - apply (played_trans _ (reset_receive grid target)); [| apply IH].
    unfold reset_receive, deref.
    destruct (nth_error grid (fst target)) as [row |] eqn:Erow;
      [| apply played_refl].
    destruct (nth_error row (snd target)) as [cell |] eqn:Ecell;
      [| apply played_refl].
    destruct cell; try apply played_refl.
    apply (played_grid_store grid _ _ row (TargetCell receive)); auto.
    exact I.
Qed.

Lemma grid_ok_Forall2 (R : Cell -> Cell -> Prop) (color : Color)
    (gridWidth gridHeight : nat) (grid grid' : Grid) :
  (forall cell cell', R cell cell' -> cell_ok color cell -> cell_ok color cell') ->
  grid_ok color gridWidth gridHeight grid ->
  Forall2 (Forall2 R) grid grid' ->
  grid_ok color gridWidth gridHeight grid'.
Proof.
  intros HR [Hheight Hrows] Hgrid. split.
  - rewrite <- (Forall2_length Hgrid). exact Hheight.
  - clear Hheight. induction Hgrid as [| row row' rest rest' Hrow _ IH].
    + constructor.
    + inversion Hrows as [| ? ? [Hwidth Hcells] Hrest]; subst.
      constructor; [| apply IH; exact Hrest]. split.
      * rewrite <- (Forall2_length Hrow). reflexivity.
      * clear IH Hrows Hrest. induction Hrow as [| cell cell' cells cells' Hc _ IHrow].
        -- constructor.
        -- inversion Hcells as [| ? ? Hcell Hcells']; subst.
           constructor; [exact (HR _ _ Hc Hcell) | apply IHrow; exact Hcells'].
Qed.

Lemma grid_ok_played (color : Color) (gridWidth gridHeight : nat) (grid grid' : Grid) :
  grid_ok color gridWidth gridHeight grid ->
  played grid grid' ->
  grid_ok color gridWidth gridHeight grid'.
Proof.
  apply grid_ok_Forall2. intros cell cell' Hkind Hcell.
  destruct cell, cell'; cbn in Hkind; try contradiction; try exact I.
  subst. exact Hcell.
Qed.

Lemma beam_ok_played (gridWidth gridHeight : nat) (grid grid' : Grid)
    (beam : LightBeam) :
  played grid grid' ->
  beam_ok gridWidth gridHeight grid beam ->
  beam_ok gridWidth gridHeight grid' beam.
Proof.
  intros Hplayed [a [b [u [v [col [row [Hs [Hd [Hc [Hin [Hmove Hgrid]]]]]]]]]]].
  exists a, b, u, v, col, row. repeat (split; [assumption |]).
  exact (grid_ok_played _ _ _ _ _ Hgrid Hplayed).
Qed.

(** Every beam of a list of well-formed beams is traced to its end. *)
Lemma trace_beams_returns (gridWidth gridHeight fuel : nat) :
  (100 * (gridWidth + gridHeight + 1) + (gridWidth + gridHeight) < fuel)%nat ->
  forall (beams : list LightBeam) (grid : Grid),
    Forall (beam_ok gridWidth gridHeight grid) beams ->
    exists grid' traced,
      trace_beams fuel gridWidth gridHeight grid beams = Ok (grid', traced) /\
      grid_lit_more grid grid'.
Proof.
  intros Hfuel. induction beams as [| beam rest IH]; intros grid Hbeams.
  - exists grid, []. split; [reflexivity | apply grid_lit_more_refl].
  - inversion Hbeams as [| ? ? Hbeam Hrest]; subst.
    destruct Hbeam as [a [b [u [v [col [row [Hs [Hd [Hc [Hin [Hmove Hgrid]]]]]]]]]]].
    pose proof (distance_out_bound gridWidth gridHeight u v col row Hin) as Hbound.
    destruct (trace_loop_terminates (beam_color beam) gridWidth gridHeight fuel grid
                0 a b u v col row a b 0 1 [(Fin a, Fin b)] Hgrid Hin Hmove)
      as [ending [grid1 [st1 [Htrace _]]]];
      [lra | lia | unfold rounds; lia |].
    assert (Hinit : initial_state beam
                    = fin_state 0 a b u v col row a b 0 1 [(Fin a, Fin b)]).
    { unfold initial_state. rewrite Hs, Hd, Hc. reflexivity. }
    pose proof (trace_loop_invariants _ _ _ _ _ _ _ _ _ Htrace) as [Hlit _].
    destruct (IH grid1) as [grid2 [traced [Hrest' Hlit']]].
    { apply (Forall_impl _ (P := beam_ok gridWidth gridHeight grid)); [| exact Hrest].
      intros beam'. apply beam_ok_played. apply grid_lit_more_played. exact Hlit. }
    cbn [trace_beams]. unfold trace_beam. rewrite Hinit, Htrace. cbn [bind].
    rewrite Hrest'. cbn [bind].
    eexists; eexists. split; [reflexivity |].
    exact (grid_lit_more_trans _ _ _ Hlit Hlit').
Qed.

Lemma parseCell_ok_without_glass (color : Color) (cellData : CellData) :
  cd_type cellData <> "GlassBlock"%string ->
  cell_ok color (parseCell cellData).
Proof.
  intros Htype. unfold parseCell. cbv zeta.
  destruct (String.eqb (cd_type cellData) "Empty"); [exact I |].
  destruct (String.eqb (cd_type cellData) "Block"); [exact I |].
  destruct (String.eqb (cd_type cellData) "GlassBlock") eqn:E.
  { apply String.eqb_eq in E. contradiction. }
  destruct (String.eqb (cd_type cellData) "Target"); [exact I |].
  destruct (String.eqb (cd_type cellData) "FixedMirror"); [exact I |].
  destruct (String.eqb (cd_type cellData) "RotatableMirror"); [exact I |].
  destruct (String.eqb (cd_type cellData) "Cross"); exact I.
Qed.

Lemma level_beams_ok (gridWidth gridHeight : nat) (level : Level) (grid : Grid) :
  level_ok gridWidth gridHeight level ->
  played (parseGrid (level_grid level)) grid ->
  Forall (beam_ok gridWidth gridHeight grid) (level_beams level).
Proof.
  intros [_ [Hheight [Hrows Hbeams]]] Hplayed.
  apply (Forall_impl _ (P := _) (fun beam H => H)) in Hbeams.
  revert Hbeams. apply Forall_impl. intros beam
    [a [b [u [v [col [row [Hs [Hd [Hc [Hin [Hmove Hcolor]]]]]]]]]]].
  exists a, b, u, v, col, row. repeat (split; [assumption |]).
  apply (grid_ok_played _ _ _ (parseGrid (level_grid level))); [| exact Hplayed].
  destruct Hcolor as [Hcolor | Hglass].
  - rewrite <- Hheight. apply parseGrid_ok; assumption.
  - unfold grid_ok, parseGrid. split; [rewrite length_map; exact Hheight |].
    apply Forall_map. rewrite Forall_forall in Hrows, Hglass |- *.
    intros row' Hin'. split; [rewrite length_map; apply Hrows; exact Hin' |].
    apply Forall_map. specialize (Hglass row' Hin').
    revert Hglass. apply Forall_impl. intros cellData.
    apply parseCell_ok_without_glass.
Qed.

(** [trackRays] on the beams of a well-formed level, in a grid of the
    level. *)
Lemma trackRays_level (gridWidth gridHeight fuel : nat) (level : Level) (grid : Grid) :
  level_ok gridWidth gridHeight level ->
  played (parseGrid (level_grid level)) grid ->
  (100 * (gridWidth + gridHeight + 1) + (gridWidth + gridHeight) < fuel)%nat ->
  exists grid' traced,
    trackRays fuel grid (level_beams level) = Ok (grid', traced) /\
    grid_lit_more grid grid'.
Proof.
  intros Hlevel Hplayed Hfuel.
  pose proof (level_beams_ok _ _ _ _ Hlevel Hplayed) as Hbeams.
  destruct Hlevel as [Hpos [Hheight [Hrows _]]].
  unfold trackRays.
  assert (Hlen : List.length grid = gridHeight).
  { rewrite <- (Forall2_length Hplayed). unfold parseGrid.
    rewrite length_map. exact Hheight. }
  destruct grid as [| row0 rows]; [cbn in Hlen; lia |].
  assert (Hwidth : List.length row0 = gridWidth).
  { unfold parseGrid in Hplayed.
    destruct (level_grid level) as [| data0 data]; cbn [map] in Hplayed;
      inversion Hplayed as [| ? ? ? ? Hrow0 _]; subst.
    rewrite <- (Forall2_length Hrow0), length_map.
    inversion Hrows; subst. reflexivity. }
  rewrite Hwidth, Hlen.
  exact (trace_beams_returns gridWidth gridHeight fuel Hfuel _ _ Hbeams).
Qed.

Ltac check_beam :=
  do 6 eexists;
  split; [reflexivity |]; split; [reflexivity |]; split; [reflexivity |];
  split; [unfold in_grid; lia |]; split; [lra |];
  first [ left; cbn; tauto
        | right; repeat constructor; cbn; discriminate ].

Ltac check_level gridWidth gridHeight :=
  exists gridWidth, gridHeight;
  split; [lia |]; split; [lia |]; split; [reflexivity |];
  split; [repeat constructor |];
  repeat (constructor; [check_beam |]); constructor.

(** The level data of the game are well formed: rectangular grids of at most
    13 columns and rows together, beams with a direction other than zero
    that start in a cell of the grid, and no glass block in a level with a
    beam without colour. *)
Lemma levels_ok :
  Forall (fun level =>
            exists gridWidth gridHeight,
              (gridWidth + gridHeight <= 13)%nat /\
              level_ok gridWidth gridHeight level)
         levels.
Proof.
  unfold levels.
  constructor; [check_level 3%nat 4%nat |].
  constructor; [check_level 5%nat 4%nat |].
  constructor; [check_level 5%nat 5%nat |].
  constructor; [check_level 5%nat 5%nat |].
  constructor; [check_level 7%nat 5%nat |].
  constructor; [check_level 7%nat 5%nat |].
  constructor; [check_level 7%nat 5%nat |].
  constructor; [check_level 7%nat 5%nat |].
  constructor; [check_level 7%nat 6%nat |].
  constructor; [check_level 6%nat 5%nat |].
  constructor; [check_level 6%nat 5%nat |].
  constructor; [check_level 6%nat 5%nat |].
  constructor.
Qed.

(** The renderer draws every grid with at least one row whose rows have one
    length. *)
Lemma Renderer_render_rectangular (gridWidth : nat) (grid : Grid)
    (beams : list LightBeam) :
  grid <> [] ->
  Forall (fun row => List.length row = gridWidth) grid ->
  Renderer_render grid beams = Ok (Renderer_drawBeams beams).
Proof.
  intros Hrows Hwidth. unfold Renderer_render.
  destruct grid as [| row0 rows]; [contradiction |].
  assert (Hall : forallb (fun row => (List.length row0 <=? List.length row)%nat)
                         (row0 :: rows) = true).
  { apply forallb_forall. intros row Hin. apply Nat.leb_le.
    rewrite Forall_forall in Hwidth.
    rewrite (Hwidth row Hin), (Hwidth row0 (or_introl eq_refl)). apply Nat.le_refl. }
  rewrite Hall. reflexivity.
Qed.

Lemma played_rectangular (gridWidth gridHeight : nat) (level : Level) (grid' : Grid) :
  level_ok gridWidth gridHeight level ->
  played (parseGrid (level_grid level)) grid' ->
  grid' <> [] /\ Forall (fun row => List.length row = gridWidth) grid'.
Proof.
  intros [Hpos [Hheight [Hwidth _]]] Hplayed. split.
  - apply Forall2_length in Hplayed. unfold parseGrid in Hplayed.
    rewrite length_map, Hheight in Hplayed.
    destruct grid'; [cbn in Hplayed; lia | discriminate].
  - unfold played, parseGrid in Hplayed.
    remember (map (map parseCell) (level_grid level)) as parsed eqn:Eparsed.
    revert Hwidth Eparsed. generalize (level_grid level) as rows.
    induction Hplayed as [| row row' parsed grid' Hrow _ IH]; intros rows Hwidth Eparsed;
      [constructor |].
    destruct rows as [| cells rows]; [discriminate |].
    cbn [map] in Eparsed. injection Eparsed as -> ->.
    inversion Hwidth as [| ? ? Hcells Hrest]; subst.
    constructor; [| exact (IH rows Hrest eq_refl)].
    apply Forall2_length in Hrow. rewrite length_map in Hrow. lia.
Qed.

Lemma updateAndRender_playing (gridWidth gridHeight fuel : nat) (level : Level)
    (g : Game) :
  level_ok gridWidth gridHeight level ->
  (100 * (gridWidth + gridHeight + 1) + (gridWidth + gridHeight) < fuel)%nat ->
  playing level g ->
  exists g', updateAndRender fuel g = Ok g' /\ playing level g'.
Proof.
  intros Hlevel Hfuel [Hplayed Hbeams]. unfold updateAndRender.
  destruct (dirty g).
  - pose proof (played_trans _ _ _ Hplayed (played_reset (targetCells g) (grid g)))
      as Hreset.
    destruct (trackRays_level gridWidth gridHeight fuel level _ Hlevel Hreset Hfuel)
      as [grid1 [traced [Htrack Hlit]]].
    pose proof (played_trans _ _ _ Hreset (grid_lit_more_played _ _ Hlit)) as Hplayed1.
    destruct (played_rectangular gridWidth gridHeight level grid1 Hlevel Hplayed1)
      as [Hrows Hwidth].
    rewrite Hbeams, Htrack. cbn [bind].
    rewrite (Renderer_render_rectangular gridWidth grid1 traced Hrows Hwidth).
    cbn [bind].
    eexists. split; [reflexivity |]. split; cbn [grid initBeams].
    + exact Hplayed1.
    + reflexivity.
  - destruct (played_rectangular gridWidth gridHeight level (grid g) Hlevel Hplayed)
      as [Hrows Hwidth].
    rewrite (Renderer_render_rectangular gridWidth (grid g) (result g) Hrows Hwidth).
    cbn [bind].
    eexists. split; [reflexivity |]. split; cbn [grid initBeams].
    + exact Hplayed.
    + exact Hbeams.
Qed.

Lemma gameLoop_playing (gridWidth gridHeight fuel : nat) (level : Level)
    (timestamp : num) (g : Game) :
  level_ok gridWidth gridHeight level ->
  (100 * (gridWidth + gridHeight + 1) + (gridWidth + gridHeight) < fuel)%nat ->
  playing level g ->
  exists g', gameLoop fuel timestamp g = Ok g' /\ playing level g'.
Proof.
  intros Hlevel Hfuel Hplaying. unfold gameLoop.
  destruct (negb (isGameRunning g)); [exists g; split; [reflexivity | exact Hplaying] |].
  destruct (updateAndRender_playing gridWidth gridHeight fuel level
              (gameLoop_gauge timestamp g) Hlevel Hfuel)
    as [g2 [-> Hplaying2]]; [exact Hplaying |].
  cbn [bind]. destruct (_ && _).
  - unfold handleLevelClear.
    apply (updateAndRender_playing gridWidth gridHeight fuel level _ Hlevel Hfuel).
    exact Hplaying2.
  - exists g2. split; [reflexivity | exact Hplaying2].
Qed.

Lemma handleDragMove_playing (gridWidth gridHeight fuel : nat) (level : Level)
    (x y : num) (ui : GameUI) :
  level_ok gridWidth gridHeight level ->
  (100 * (gridWidth + gridHeight + 1) + (gridWidth + gridHeight) < fuel)%nat ->
  playing level (ui_game ui) ->
  exists ui', handleDragMove fuel x y ui = Ok ui' /\ playing level (ui_game ui').
Proof.
  intros Hlevel Hfuel [Hplayed Hbeams]. unfold handleDragMove.
  destruct (draggedMirror ui) as [mirror |];
    [| exists ui; split; [reflexivity | split; assumption]].
  cbv zeta.
  match goal with
  | |- context [updateAndRender fuel ?g1] =>
      destruct (updateAndRender_playing gridWidth gridHeight fuel level g1
                  Hlevel Hfuel) as [g' [-> Hplaying']]
  end.
  - split; cbn [grid initBeams]; [| exact Hbeams].
    apply (played_trans _ _ _ Hplayed).
    unfold deref.
    destruct (nth_error (grid (ui_game ui)) (fst mirror)) as [row |] eqn:Erow;
      [| apply played_refl].
    destruct (nth_error row (snd mirror)) as [cell |] eqn:Ecell;
      [| apply played_refl].
    apply (played_grid_store _ _ _ row cell _ Erow Ecell).
    apply set_rotation_same_kind.
  - cbn [bind]. eexists. split; [reflexivity |]. exact Hplaying'.
Qed.

Lemma level_fuel (gridWidth gridHeight fuel : nat) :
  (gridWidth + gridHeight <= 13)%nat ->
  (1500 <= fuel)%nat ->
  (100 * (gridWidth + gridHeight + 1) + (gridWidth + gridHeight) < fuel)%nat.
Proof. lia. Qed.

Lemma loadLevel_playing (level : Level) (g0 : Game) :
  playing level (loadLevel level g0).
Proof.
  destruct (loadLevel_fields level g0) as [Hgrid [Hbeams _]].
  split; [rewrite Hgrid; apply played_refl | exact Hbeams].
Qed.

(** X28: in each of the twelve levels of the game, whatever the player has done
    to the mirrors: a freshly loaded level is in play, and every frame of a
    game in play completes (the tracer neither throws nor runs on; 1500
    rounds per beam are enough) and leaves the game in play. *)
Theorem shipped_levels_frames_complete :
  forall (level : Level),
    In level levels ->
    (forall g0, playing level (loadLevel level g0)) /\
    (forall (fuel : nat) (timestamp : num) (g : Game),
       (1500 <= fuel)%nat ->
       playing level g ->
       exists g', gameLoop fuel timestamp g = Ok g' /\ playing level g').
Proof.
  intros level Hin.
  pose proof levels_ok as Hlevels. rewrite Forall_forall in Hlevels.
  destruct (Hlevels level Hin) as [gridWidth [gridHeight [Hsize Hlevel]]].
  split.
  - intros g0. apply loadLevel_playing.
  - intros fuel timestamp g Hfuel Hplaying.
    exact (gameLoop_playing gridWidth gridHeight fuel level timestamp g Hlevel
             (level_fuel _ _ _ Hsize Hfuel) Hplaying).
Qed.

Lemma shipped_levels_frames_complete_witness :
  In level_4 levels /\
  (forall g0, playing level_4 (loadLevel level_4 g0)) /\
  (forall (fuel : nat) (timestamp : num) (g : Game),
     (1500 <= fuel)%nat ->
     playing level_4 g ->
     exists g', gameLoop fuel timestamp g = Ok g' /\ playing level_4 g').
Proof.
  assert (Hin : In level_4 levels).
  { unfold levels. cbn [In]. tauto. }
  split; [exact Hin |].
  exact (shipped_levels_frames_complete level_4 Hin).
Defined.

(** X29: in each of the twelve levels, whatever the player has done before: a
    drag move completes and leaves the game in play; pressing the pointer
    either throws (in a row of the grid, outside its columns) or completes
    and leaves the game in play. *)
Theorem shipped_levels_drags_complete :
  forall (level : Level),
    In level levels ->
    forall (fuel : nat) (x y : num) (ui : GameUI),
      (1500 <= fuel)%nat ->
      playing level (ui_game ui) ->
      (exists ui',
         handleDragMove fuel x y ui = Ok ui' /\ playing level (ui_game ui')) /\
      (handleDragStart fuel x y ui = TypeError \/
       exists ui',
         handleDragStart fuel x y ui = Ok ui' /\ playing level (ui_game ui')).
Proof.
  intros level Hin fuel x y ui Hfuel Hplaying.
  pose proof levels_ok as Hlevels. rewrite Forall_forall in Hlevels.
  destruct (Hlevels level Hin) as [gridWidth [gridHeight [Hsize Hlevel]]].
  pose proof (level_fuel _ _ _ Hsize Hfuel) as Hrounds.
  split.
  - exact (handleDragMove_playing gridWidth gridHeight fuel level x y ui
             Hlevel Hrounds Hplaying).
  - unfold handleDragStart. cbv zeta.
    destruct (to_index (floor (y / cellSize ui)))%num as [r |];
      [| right; exists ui; split; [reflexivity | exact Hplaying]].
    destruct (nth_error (grid (ui_game ui)) r) as [row |];
      [| right; exists ui; split; [reflexivity | exact Hplaying]].
    destruct (to_index (floor (x / cellSize ui)))%num as [c |];
      [| left; reflexivity].
    destruct (nth_error row c) as [cell |]; [| left; reflexivity].
    destruct (rotatable cell);
      [| right; exists ui; split; [reflexivity | exact Hplaying]].
    right.
    apply (handleDragMove_playing gridWidth gridHeight fuel level x y _
             Hlevel Hrounds).
    exact Hplaying.
Qed.

Lemma shipped_levels_drags_complete_witness :
  (In level_12 levels /\ (1500 <= 1500)%nat /\
   playing level_12
     (ui_game (mkGameUI (loadLevel level_12 game_without_target) (Fin 100) false None
                        (Fin 0, Fin 0)))) /\
  (exists ui',
     handleDragMove 1500 (Fin 10) (Fin 10)
       (mkGameUI (loadLevel level_12 game_without_target) (Fin 100) false None
                 (Fin 0, Fin 0)) = Ok ui' /\
     playing level_12 (ui_game ui')) /\
  (handleDragStart 1500 (Fin 10) (Fin 10)
     (mkGameUI (loadLevel level_12 game_without_target) (Fin 100) false None
               (Fin 0, Fin 0)) = TypeError \/
   exists ui',
     handleDragStart 1500 (Fin 10) (Fin 10)
       (mkGameUI (loadLevel level_12 game_without_target) (Fin 100) false None
                 (Fin 0, Fin 0)) = Ok ui' /\
     playing level_12 (ui_game ui')).
Proof.
  assert (Hin : In level_12 levels).
  { unfold levels. cbn [In]. tauto. }
  assert (Hplaying : playing level_12 (loadLevel level_12 game_without_target)).
  { apply loadLevel_playing. }
  split; [split; [exact Hin | split; [apply Nat.le_refl | exact Hplaying]] |].
  exact (shipped_levels_drags_complete level_12 Hin 1500 (Fin 10) (Fin 10)
           (mkGameUI (loadLevel level_12 game_without_target) (Fin 100) false None
                     (Fin 0, Fin 0))
           (Nat.le_refl 1500) Hplaying).
Defined.

(** ** Fixed mirrors in the tracer *)






